(** * Music-catalog dashboard: data-access layer

    A shallow embedding of [app.py] (the read-only viewer) and
    [app_full_crud.py] (the CRUD front-end): the relational store they talk
    to, the SQL statements they send, the pandas/SQLAlchemy plumbing around
    each statement, and the two page scripts. *)

From stdpp Require Import base option list strings gmap sorting numbers.
From Stdlib Require Import Ascii ZArith QArith Qcanon Lia.

Local Open Scope string_scope.
Local Open Scope list_scope.
Local Open Scope Z_scope.

(** ** Values and data frames *)

(** A cell of a result set.  Dates are day ordinals; [VNum] is a cell of
    type [float64], held as the rational the float stands for. *)
Inductive value :=
  | VNull
  | VInt (z : Z)
  | VText (s : string)
  | VDate (d : Z)
  | VNum (q : Qc).

(** [pd.DataFrame]: column labels and the rows under them. *)
Record DataFrame := mkDF {
  columns : list string;
  data : list (list value)
}.

(** [pd.DataFrame()] *)
Definition empty_frame : DataFrame := mkDF [] [].

(** [df.empty]: some axis has length zero. *)
Definition df_empty (df : DataFrame) : bool :=
  match columns df, data df with
  | _ :: _, _ :: _ => false
  | _, _ => true
  end.

(** [len(df)] *)
Definition df_len (df : DataFrame) : nat := length (data df).

(** [df.iloc[0].to_dict()] when the frame has a first row. *)
Definition iloc0_to_dict (df : DataFrame) : option (gmap string value) :=
  match data df with
  | [] => None
  | r :: _ => Some (list_to_map (zip (columns df) r))
  end.

(** [df[c]]: the cells of one column, top to bottom. *)
Fixpoint col_index (c : string) (cs : list string) : option nat :=
  match cs with
  | [] => None
  | c' :: cs' => if String.eqb c c' then Some O else S <$> col_index c cs'
  end.

Definition df_column (c : string) (df : DataFrame) : list value :=
  match col_index c (columns df) with
  | None => []
  | Some i => (fun r => nth i r VNull) <$> data df
  end.

(** ** The relational schema *)

(** Modelled from the spec: the table definitions (DDL) are not among the
    sources.  Section 3 of the specification gives the entities and their
    attributes; the column names are the ones the SQL statements of the two
    applications use. *)

Record User := mkUser { userID : Z; userName : string }.
Record Artist := mkArtist {
  artistID : Z; artist_name : string; artist_location : option string }.
Record Song := mkSong { song_id : Z; songName : string; dayReleased : Z }.
Record Album := mkAlbum { albumID : Z; album_name : string; release_date : Z }.
Record Playlist := mkPlaylist {
  playlistID : Z; playlist_name : string; num_songs : Z }.

Record Produces := mkProduces { pr_artistID : Z; pr_song_id : Z }.
Record Records := mkRecords { rc_artistID : Z; rc_albumID : Z }.
Record Contains := mkContains {
  ct_albumID : Z; ct_song_id : Z; track_number : Z }.
Record Saves := mkSaves { sv_playlistID : Z; sv_song_id : Z; position : Z }.
Record Creates := mkCreates { cr_userID : Z; cr_playlistID : Z }.
Record Likes := mkLikes { lk_userID : Z; lk_song_id : Z; liked_date : Z }.

(** One database state.  Tables are lists in the order a scan of the heap
    meets their rows. *)
Record DB := mkDB {
  User_table : list User;
  Artist_table : list Artist;
  Song_table : list Song;
  Album_table : list Album;
  Playlist_table : list Playlist;
  Produces_table : list Produces;
  Records_table : list Records;
  Contains_table : list Contains;
  Saves_table : list Saves;
  Creates_table : list Creates;
  Likes_table : list Likes
}.

(** Modelled from the spec: the identifier sequences behind the surrogate
    integer keys (DDL not among the sources) of the four tables the CRUD
    front-end inserts into: the last value each has handed out.  Sequences
    are not transactional: a value drawn by a statement that is later
    rolled back stays drawn. *)
Record Sequences := mkSeq {
  seq_user : Z;
  seq_artist : Z;
  seq_song : Z;
  seq_playlist : Z
}.

(** Modelled from the spec: the delete rule of the foreign keys (DDL not
    among the sources), that is what the store does with association rows
    that reference a parent row being deleted.  The spec leaves it to the
    store ("cascade behavior, if any, is the store's responsibility"), so
    it is a parameter of the store. *)
Inductive fk_action := NoAction | Cascade.

(** ** Relational operators *)

Section relational.
Context {A B : Type}.

(** [a JOIN b ON on]: nested loop, outer table first. *)
Definition inner_join (on : A → B → bool) (l : list A) (r : list B)
  : list (A * B) :=
  a ← l; (fun b => (a, b)) <$> filter (fun b => on a b = true) r.

(** [a LEFT JOIN b ON on]: an unmatched left row is kept once, padded
    with NULLs ([None]). *)
Definition left_join (on : A → B → bool) (l : list A) (r : list B)
  : list (A * option B) :=
  a ← l;
  match filter (fun b => on a b = true) r with
  | [] => [(a, None)]
  | m => (fun b => (a, Some b)) <$> m
  end.
End relational.

Section grouping.
Context {A K : Type} `{EqDecision K}.

(** [GROUP BY key]: one group per distinct key, holding the rows that
    carry it.  SQL leaves the order of groups open. *)
Definition group_by (key : A → K) (l : list A) : list (K * list A) :=
  (fun k => (k, filter (fun x => key x = k) l)) <$> remove_dups (key <$> l).
End grouping.

(** [COUNT(col)]: the rows in which [col] is not NULL. *)
Definition count_some {A B : Type} (col : A → option B) (l : list A) : Z :=
  Z.of_nat (length (filter (fun a => is_Some (col a)) l)).

(** [COUNT(DISTINCT col)] *)
Definition count_distinct {A B : Type} `{EqDecision B}
    (col : A → option B) (l : list A) : Z :=
  Z.of_nat (length (remove_dups (omap col l))).

(** [ORDER BY], as a sort by a decidable total preorder on rows. *)
Definition order_by {A : Type} (R : relation A) `{∀ x y, Decision (R x y)}
  : list A → list A := merge_sort R.

Definition asc {A : Type} (key : A → Z) : relation A :=
  fun a b => (key a ≤ key b)%Z.
Definition desc {A : Type} (key : A → Z) : relation A :=
  fun a b => (key b ≤ key a)%Z.
(** Text keys compare bytewise. *)
Definition asc_text {A : Type} (key : A → string) : relation A :=
  fun a b => String.le (key a) (key b).
(** [ORDER BY k1, k2]: text major key, integer minor key. *)
Definition asc_text_then {A : Type} (k1 : A → string) (k2 : A → Z)
  : relation A :=
  fun a b => k1 a ≠ k1 b ∧ String.le (k1 a) (k1 b) ∨ k1 a = k1 b ∧ (k2 a ≤ k2 b)%Z.

Global Instance asc_dec {A} (key : A → Z) x y : Decision (asc key x y).
Proof. unfold asc. apply _. Defined.
Global Instance desc_dec {A} (key : A → Z) x y : Decision (desc key x y).
Proof. unfold desc. apply _. Defined.
Global Instance asc_text_dec {A} (key : A → string) x y :
  Decision (asc_text key x y).
Proof. unfold asc_text. apply _. Defined.
Global Instance asc_text_then_dec {A} (k1 : A → string) (k2 : A → Z) x y :
  Decision (asc_text_then k1 k2 x y).
Proof. unfold asc_text_then. apply _. Defined.

Global Instance asc_total {A} (key : A → Z) : Total (asc key).
Proof. intros x y. unfold asc. lia. Qed.
Global Instance desc_total {A} (key : A → Z) : Total (desc key).
Proof. intros x y. unfold desc. lia. Qed.
Global Instance asc_text_total {A} (key : A → string) :
  Total (asc_text key).
Proof. intros x y. unfold asc_text. apply total, _. Qed.
Global Instance asc_text_then_total {A} (k1 : A → string) (k2 : A → Z) :
  Total (asc_text_then k1 k2).
Proof.
  intros x y. unfold asc_text_then.
  destruct (decide (k1 x = k1 y)) as [Heq|Hne].
  - destruct (Z.le_ge_cases (k2 x) (k2 y)); [left|right]; right; split;
      auto with lia.
  - destruct (total String.le (k1 x) (k1 y)); [left|right]; left; split;
      auto.
Qed.

(** [LIMIT n] for a non-negative [n]. *)
Definition limit {A : Type} (n : Z) (l : list A) : list A :=
  take (Z.to_nat n) l.

(** ** Result sets *)

(** PostgreSQL folds unquoted identifiers to lower case, so the labels of a
    result set are the lower-cased select list: [songName] comes back as
    [songname]. *)
Definition lower_ascii (c : ascii) : ascii :=
  let n := nat_of_ascii c in
  if ((65 <=? n) && (n <=? 90))%nat then ascii_of_nat (n + 32) else c.

Fixpoint fold_ident (s : string) : string :=
  match s with
  | EmptyString => EmptyString
  | String c s' => String (lower_ascii c) (fold_ident s')
  end.

Definition frame (select_list : list string) (rows : list (list value))
  : DataFrame :=
  mkDF (fold_ident <$> select_list) rows.

Definition text_or_null (o : option string) : value :=
  match o with Some s => VText s | None => VNull end.

Definition user_row (u : User) : list value :=
  [VInt (userID u); VText (userName u)].
Definition artist_row (a : Artist) : list value :=
  [VInt (artistID a); VText (artist_name a);
   text_or_null (artist_location a)].
Definition song_row (s : Song) : list value :=
  [VInt (song_id s); VText (songName s); VDate (dayReleased s)].
Definition album_row (al : Album) : list value :=
  [VInt (albumID al); VText (album_name al); VDate (release_date al)].
Definition playlist_row (p : Playlist) : list value :=
  [VInt (playlistID p); VText (playlist_name p); VInt (num_songs p)].

(** Modelled from the spec: the column lists [SELECT *] expands to, in the
    order of the entities' attributes in section 3. *)
Definition user_columns : list string := ["userID"; "userName"].
Definition artist_columns : list string :=
  ["artistID"; "artist_name"; "artist_location"].
Definition song_columns : list string := ["song_id"; "songName"; "dayReleased"].
Definition album_columns : list string :=
  ["albumID"; "album_name"; "release_date"].
Definition playlist_columns : list string :=
  ["playlistID"; "playlist_name"; "num_songs"].

(** ** Bound parameters *)

Abbreviation params := (gmap string value).

(** What the store answers to one statement: an error message, or a result
    set together with the database state the statement leaves. *)
Abbreviation answer := (string + DataFrame * DB)%type.

Definition param_int (ps : params) (name : string) : string + Z :=
  match ps !! name with
  | Some (VInt n) => inr n
  | Some _ => inl ("invalid input syntax for type integer: :" +:+ name)
  | None => inl ("A value is required for bind parameter " +:+ name)
  end.

Definition param_text (ps : params) (name : string) : string + string :=
  match ps !! name with
  | Some (VText s) => inr s
  | Some _ => inl ("invalid input for type text: :" +:+ name)
  | None => inl ("A value is required for bind parameter " +:+ name)
  end.

Definition param_text_opt (ps : params) (name : string)
  : string + option string :=
  match ps !! name with
  | Some (VText s) => inr (Some s)
  | Some VNull => inr None
  | Some _ => inl ("invalid input for type text: :" +:+ name)
  | None => inl ("A value is required for bind parameter " +:+ name)
  end.

Definition param_date (ps : params) (name : string) : string + Z :=
  match ps !! name with
  | Some (VDate d) => inr d
  | Some _ => inl ("invalid input syntax for type date: :" +:+ name)
  | None => inl ("A value is required for bind parameter " +:+ name)
  end.

(** [... LIMIT :lim]: PostgreSQL rejects a negative bound. *)
Definition limited (ps : params) (k : Z → DataFrame) : string + DataFrame :=
  match param_int ps "lim" with
  | inl e => inl e
  | inr n => if decide (n < 0) then inl "LIMIT must not be negative"
             else inr (k n)
  end.

(** ** The statement catalogue

    Every SQL text either application hands to [text(...)].  [V_*] are the
    viewer's ([app.py]), [C_*] the listings of the CRUD front-end, the rest
    its mutations. *)
Inductive stmt :=
  | V_users | V_songs | V_songs_artists | V_albums | V_albums_artists
  | V_artists | V_artist_song_counts | V_playlists | V_playlists_creators
  | V_playlist_picker | V_playlist_songs | V_user_likes | V_album_tracks
  | V_most_liked | V_user_activity | V_network | V_top_songs | V_avg_songs
  | C_users | C_artists | C_albums | C_songs | C_playlists
  | INSERT_song | UPDATE_song | DELETE_song
  | INSERT_artist | UPDATE_artist | DELETE_artist
  | INSERT_user | UPDATE_user | DELETE_user
  | INSERT_playlist | UPDATE_playlist | DELETE_playlist.

(** The text of each statement, as in the sources (for the triple-quoted
    ones, runs of white space are written as one blank). *)
Definition sql_text (s : stmt) : string :=
  match s with
  | V_users => "SELECT * FROM User_table ORDER BY userID LIMIT :lim"
  | V_songs => "SELECT * FROM Song ORDER BY song_id LIMIT :lim"
  | V_songs_artists =>
      "SELECT s.song_id, s.songName, s.dayReleased, a.artist_name FROM Song s JOIN Produces p ON s.song_id = p.song_id JOIN Artist a ON p.artistID = a.artistID ORDER BY s.song_id LIMIT :lim"
  | V_albums => "SELECT * FROM Album ORDER BY albumID LIMIT :lim"
  | V_albums_artists =>
      "SELECT al.albumID, al.album_name, al.release_date, ar.artist_name FROM Album al JOIN Records r ON al.albumID = r.albumID JOIN Artist ar ON r.artistID = ar.artistID ORDER BY al.release_date DESC LIMIT :lim"
  | V_artists => "SELECT * FROM Artist ORDER BY artistID LIMIT :lim"
  | V_artist_song_counts =>
      "SELECT a.artist_name, COUNT(p.song_id) as song_count FROM Artist a LEFT JOIN Produces p ON a.artistID = p.artistID GROUP BY a.artistID, a.artist_name ORDER BY song_count DESC LIMIT :lim"
  | V_playlists => "SELECT * FROM Playlist ORDER BY playlistID LIMIT :lim"
  | V_playlists_creators =>
      "SELECT p.playlistID, p.playlist_name, p.num_songs, u.userName as creator FROM Playlist p JOIN Creates c ON p.playlistID = c.playlistID JOIN User_table u ON c.userID = u.userID ORDER BY p.playlistID LIMIT :lim"
  | V_playlist_picker =>
      "SELECT playlistID, playlist_name FROM Playlist ORDER BY playlistID"
  | V_playlist_songs =>
      "SELECT s.songName, a.artist_name, sv.position FROM Saves sv JOIN Song s ON sv.song_id = s.song_id JOIN Produces p ON s.song_id = p.song_id JOIN Artist a ON p.artistID = a.artistID WHERE sv.playlistID = :pid ORDER BY sv.position"
  | V_user_likes =>
      "SELECT u.userName, s.songName, a.artist_name, l.liked_date FROM Likes l JOIN User_table u ON l.userID = u.userID JOIN Song s ON l.song_id = s.song_id JOIN Produces p ON s.song_id = p.song_id JOIN Artist a ON p.artistID = a.artistID ORDER BY l.liked_date DESC LIMIT :lim"
  | V_album_tracks =>
      "SELECT al.album_name, s.songName, c.track_number, ar.artist_name FROM Contains c JOIN Album al ON c.albumID = al.albumID JOIN Song s ON c.song_id = s.song_id JOIN Records r ON al.albumID = r.albumID JOIN Artist ar ON r.artistID = ar.artistID ORDER BY al.album_name, c.track_number LIMIT :lim"
  | V_most_liked =>
      "SELECT s.songName, a.artist_name, COUNT(l.userID) as like_count FROM Song s JOIN Produces p ON s.song_id = p.song_id JOIN Artist a ON p.artistID = a.artistID LEFT JOIN Likes l ON s.song_id = l.song_id GROUP BY s.song_id, s.songName, a.artist_name ORDER BY like_count DESC LIMIT :lim"
  | V_user_activity =>
      "SELECT u.userName, COUNT(DISTINCT l.song_id) as songs_liked, COUNT(DISTINCT c.playlistID) as playlists_created FROM User_table u LEFT JOIN Likes l ON u.userID = l.userID LEFT JOIN Creates c ON u.userID = c.userID GROUP BY u.userID, u.userName ORDER BY songs_liked DESC LIMIT :lim"
  | V_network =>
      "SELECT u.userName, s.songName, a.artist_name FROM Likes l JOIN User_table u ON l.userID = u.userID JOIN Song s ON l.song_id = s.song_id JOIN Produces p ON s.song_id = p.song_id JOIN Artist a ON p.artistID = a.artistID LIMIT 500"
  | V_top_songs =>
      "SELECT s.songName, COUNT(l.userID) AS like_count FROM Song s LEFT JOIN Likes l ON s.song_id = l.song_id GROUP BY s.songName ORDER BY like_count DESC LIMIT 5"
  | V_avg_songs =>
      "SELECT AVG(song_count) AS avg_songs FROM ( SELECT playlistID, COUNT(song_id) AS song_count FROM Saves GROUP BY playlistID ) t"
  | C_users => "SELECT userID, userName FROM User_table ORDER BY userID"
  | C_artists =>
      "SELECT artistID, artist_name, artist_location FROM Artist ORDER BY artistID"
  | C_albums =>
      "SELECT albumID, album_name, release_date FROM Album ORDER BY albumID"
  | C_songs =>
      "SELECT song_id, songName, dayReleased FROM Song ORDER BY song_id LIMIT :lim"
  | C_playlists =>
      "SELECT playlistID, playlist_name, num_songs FROM Playlist ORDER BY playlistID"
  | INSERT_song =>
      "INSERT INTO Song(songName, dayReleased) VALUES (:n, :d) RETURNING song_id, songName, dayReleased"
  | UPDATE_song =>
      "UPDATE Song SET songName = :n, dayReleased = :d WHERE song_id = :sid RETURNING song_id, songName, dayReleased"
  | DELETE_song =>
      "DELETE FROM Song WHERE song_id = :sid RETURNING song_id, songName, dayReleased"
  | INSERT_artist =>
      "INSERT INTO Artist(artist_name, artist_location) VALUES (:n, :l) RETURNING artistID, artist_name, artist_location"
  | UPDATE_artist =>
      "UPDATE Artist SET artist_name = :n, artist_location = :l WHERE artistID = :aid RETURNING artistID, artist_name, artist_location"
  | DELETE_artist =>
      "DELETE FROM Artist WHERE artistID = :aid RETURNING artistID, artist_name, artist_location"
  | INSERT_user =>
      "INSERT INTO User_table(userName) VALUES (:n) RETURNING userID, userName"
  | UPDATE_user =>
      "UPDATE User_table SET userName = :n WHERE userID = :uid RETURNING userID, userName"
  | DELETE_user =>
      "DELETE FROM User_table WHERE userID = :uid RETURNING userID, userName"
  | INSERT_playlist =>
      "INSERT INTO Playlist(playlist_name, num_songs) VALUES (:n, :ns) RETURNING playlistID, playlist_name, num_songs"
  | UPDATE_playlist =>
      "UPDATE Playlist SET playlist_name = :n, num_songs = :ns WHERE playlistID = :pid RETURNING playlistID, playlist_name, num_songs"
  | DELETE_playlist =>
      "DELETE FROM Playlist WHERE playlistID = :pid RETURNING playlistID, playlist_name, num_songs"
  end.

(** ** What the store computes for the listings and joined views *)

Definition eqz (x y : Z) : bool := bool_decide (x = y).

(** [FROM Song s JOIN Produces p ON s.song_id = p.song_id
     JOIN Artist a ON p.artistID = a.artistID] *)
Definition song_produces_artist (db : DB) : list (Song * Produces * Artist) :=
  inner_join (fun sp a => eqz (pr_artistID sp.2) (artistID a))
    (inner_join (fun s p => eqz (song_id s) (pr_song_id p))
       (Song_table db) (Produces_table db))
    (Artist_table db).

(** [FROM Album al JOIN Records r ON al.albumID = r.albumID
     JOIN Artist ar ON r.artistID = ar.artistID] *)
Definition album_records_artist (db : DB) : list (Album * Records * Artist) :=
  inner_join (fun ar a => eqz (rc_artistID ar.2) (artistID a))
    (inner_join (fun al r => eqz (albumID al) (rc_albumID r))
       (Album_table db) (Records_table db))
    (Artist_table db).

(** [FROM Playlist p JOIN Creates c ON p.playlistID = c.playlistID
     JOIN User_table u ON c.userID = u.userID] *)
Definition playlist_creates_user (db : DB)
  : list (Playlist * Creates * User) :=
  inner_join (fun pc u => eqz (cr_userID pc.2) (userID u))
    (inner_join (fun p c => eqz (playlistID p) (cr_playlistID c))
       (Playlist_table db) (Creates_table db))
    (User_table db).

(** [FROM Saves sv JOIN Song s ON sv.song_id = s.song_id
     JOIN Produces p ON s.song_id = p.song_id
     JOIN Artist a ON p.artistID = a.artistID] *)
Definition saves_song_produces_artist (db : DB)
  : list (Saves * Song * Produces * Artist) :=
  inner_join (fun x a => eqz (pr_artistID x.2) (artistID a))
    (inner_join (fun x p => eqz (song_id x.2) (pr_song_id p))
       (inner_join (fun sv s => eqz (sv_song_id sv) (song_id s))
          (Saves_table db) (Song_table db))
       (Produces_table db))
    (Artist_table db).

(** [FROM Likes l JOIN User_table u ON l.userID = u.userID
     JOIN Song s ON l.song_id = s.song_id
     JOIN Produces p ON s.song_id = p.song_id
     JOIN Artist a ON p.artistID = a.artistID] *)
Definition likes_user_song_produces_artist (db : DB)
  : list (Likes * User * Song * Produces * Artist) :=
  inner_join (fun x a => eqz (pr_artistID x.2) (artistID a))
    (inner_join (fun x p => eqz (song_id x.2) (pr_song_id p))
       (inner_join (fun x s => eqz (lk_song_id x.1) (song_id s))
          (inner_join (fun l u => eqz (lk_userID l) (userID u))
             (Likes_table db) (User_table db))
          (Song_table db))
       (Produces_table db))
    (Artist_table db).

(** [FROM Contains c JOIN Album al ON c.albumID = al.albumID
     JOIN Song s ON c.song_id = s.song_id
     JOIN Records r ON al.albumID = r.albumID
     JOIN Artist ar ON r.artistID = ar.artistID] *)
Definition contains_album_song_records_artist (db : DB)
  : list (Contains * Album * Song * Records * Artist) :=
  inner_join (fun x a => eqz (rc_artistID x.2) (artistID a))
    (inner_join (fun x r => eqz (albumID x.1.2) (rc_albumID r))
       (inner_join (fun x s => eqz (ct_song_id x.1) (song_id s))
          (inner_join (fun c al => eqz (ct_albumID c) (albumID al))
             (Contains_table db) (Album_table db))
          (Song_table db))
       (Records_table db))
    (Artist_table db).

(** [FROM Artist a LEFT JOIN Produces p ON a.artistID = p.artistID
     GROUP BY a.artistID, a.artist_name], with
     [a.artist_name, COUNT(p.song_id)] computed per group. *)
Definition artist_song_count_rows (db : DB) : list (string * Z) :=
  (fun g => (g.1.2, count_some (fun x => pr_song_id <$> x.2) g.2)) <$>
  group_by (fun x => (artistID x.1, artist_name x.1))
    (left_join (fun a p => eqz (artistID a) (pr_artistID p))
       (Artist_table db) (Produces_table db)).

(** [FROM Song s JOIN Produces p ... JOIN Artist a ...
     LEFT JOIN Likes l ON s.song_id = l.song_id
     GROUP BY s.song_id, s.songName, a.artist_name], with
     [s.songName, a.artist_name, COUNT(l.userID)] per group. *)
Definition most_liked_rows (db : DB) : list (string * string * Z) :=
  (fun g => (g.1.1.2, g.1.2, count_some (fun x => lk_userID <$> x.2) g.2)) <$>
  group_by (fun x => (song_id x.1.1.1, songName x.1.1.1, artist_name x.1.2))
    (left_join (fun x l => eqz (song_id x.1.1) (lk_song_id l))
       (song_produces_artist db) (Likes_table db)).

(** [FROM User_table u LEFT JOIN Likes l ON u.userID = l.userID
     LEFT JOIN Creates c ON u.userID = c.userID
     GROUP BY u.userID, u.userName], with [u.userName,
     COUNT(DISTINCT l.song_id), COUNT(DISTINCT c.playlistID)] per group. *)
Definition user_activity_rows (db : DB) : list (string * Z * Z) :=
  (fun g => (g.1.2,
             count_distinct (fun x => lk_song_id <$> x.1.2) g.2,
             count_distinct (fun x => cr_playlistID <$> x.2) g.2)) <$>
  group_by (fun x => (userID x.1.1, userName x.1.1))
    (left_join (fun x c => eqz (userID x.1) (cr_userID c))
       (left_join (fun u l => eqz (userID u) (lk_userID l))
          (User_table db) (Likes_table db))
       (Creates_table db)).

(** [FROM Song s LEFT JOIN Likes l ON s.song_id = l.song_id
     GROUP BY s.songName], with [s.songName, COUNT(l.userID)]. *)
Definition top_song_rows (db : DB) : list (string * Z) :=
  (fun g => (g.1, count_some (fun x => lk_userID <$> x.2) g.2)) <$>
  group_by (fun x => songName x.1)
    (left_join (fun s l => eqz (song_id s) (lk_song_id l))
       (Song_table db) (Likes_table db)).

(** The subquery [SELECT playlistID, COUNT(song_id) AS song_count FROM Saves
    GROUP BY playlistID] and the [AVG] over it: NULL over no rows. *)
Definition saves_per_playlist (db : DB) : list (Z * Z) :=
  (fun g => (g.1, Z.of_nat (length g.2))) <$>
  group_by sv_playlistID (Saves_table db).

(** [AVG] over integers is a division of PostgreSQL's [numeric]: the sum
    by the count, rounded half away from zero at a scale that leaves
    sixteen significant digits or more.  The type holds a number in base
    10000; the scale is 16 less four per base-10000 digit the quotient is
    expected to have before the point, a guess made from the operands'
    leading digits (between 0 and 1000). *)
Fixpoint nbase_head (fuel : nat) (v : Z) : Z * Z :=
  match fuel with
  | O => (0, v)
  | S fuel' =>
      if v <? 10000 then (0, v)
      else let h := nbase_head fuel' (v / 10000) in (h.1 + 1, h.2)
  end.

Definition nbase_weight_and_first_digit (v : Z) : Z * Z :=
  nbase_head (Z.to_nat (Z.log2_up v)) v.

Definition select_div_scale (n d : Z) : Z :=
  let h1 := nbase_weight_and_first_digit n in
  let h2 := nbase_weight_and_first_digit d in
  let qweight := h1.1 - h2.1 - (if h1.2 <=? h2.2 then 1 else 0) in
  Z.min 1000 (Z.max 0 (16 - qweight * 4)).

(** [n / d] as [numeric] gives it, for a sum [n >= 0] and a count [d > 0]. *)
Definition numeric_div (n d : Z) : Q :=
  let scale := 10 ^ select_div_scale n d in
  Qmake ((2 * n * scale + d) / (2 * d)) (Z.to_pos scale).

(** pandas turns the [Decimal] the driver hands over into a [float64]
    ([coerce_float]): the nearest number with a significand of 53 bits,
    the even one of two equally near.  (Numbers too large for the format
    do not arise: an average of row counts is far below [2 ^ 1024].) *)
Definition round_half_even (num den : Z) : Z :=
  let q := num / den in
  let r := num mod den in
  match 2 * r ?= den with
  | Lt => q
  | Gt => q + 1
  | Eq => if Z.even q then q else q + 1
  end.

Definition pow2 (e : Z) : Z := 2 ^ Z.max 0 e.

Definition float64 (x : Q) : Q :=
  let n := Z.abs (Qnum x) in
  let d := Z.pos (Qden x) in
  if n =? 0 then 0%Q
  else
    let k := Z.log2 n - Z.log2 d in
    let e := if d * pow2 k <=? n * pow2 (- k) then k else k - 1 in
    let t := Z.max e (-1022) - 52 in
    let m := round_half_even (n * pow2 (- t)) (d * pow2 t) in
    Qred (Qmake (Z.sgn (Qnum x) * m * pow2 t) (Z.to_pos (pow2 (- t)))).

Definition avg (l : list Z) : value :=
  match l with
  | [] => VNull
  | _ => VNum (Q2Qc (float64 (numeric_div (foldr Z.add 0 l)
                                 (Z.of_nat (length l)))))
  end.

Definition on_ok {E A B : Type} (x : E + A) (k : A → E + B) : E + B :=
  match x with inl e => inl e | inr a => k a end.

Notation "'let?' x := e 'in' k" := (on_ok e (fun x => k))
  (at level 10, x name, e at level 100, k at level 200).

(** The result set of each [SELECT]. *)
Definition pg_select (s : stmt) (ps : params) (db : DB) : string + DataFrame :=
  match s with
  | V_users =>
      limited ps (fun lim => frame user_columns
        (user_row <$> limit lim (order_by (asc userID) (User_table db))))
  | V_songs =>
      limited ps (fun lim => frame song_columns
        (song_row <$> limit lim (order_by (asc song_id) (Song_table db))))
  | V_songs_artists =>
      limited ps (fun lim =>
        frame ["song_id"; "songName"; "dayReleased"; "artist_name"]
          ((fun x => [VInt (song_id x.1.1); VText (songName x.1.1);
                      VDate (dayReleased x.1.1); VText (artist_name x.2)]) <$>
           limit lim (order_by (asc (fun x => song_id x.1.1))
                        (song_produces_artist db))))
  | V_albums =>
      limited ps (fun lim => frame album_columns
        (album_row <$> limit lim (order_by (asc albumID) (Album_table db))))
  | V_albums_artists =>
      limited ps (fun lim =>
        frame ["albumID"; "album_name"; "release_date"; "artist_name"]
          ((fun x => [VInt (albumID x.1.1); VText (album_name x.1.1);
                      VDate (release_date x.1.1); VText (artist_name x.2)]) <$>
           limit lim (order_by (desc (fun x => release_date x.1.1))
                        (album_records_artist db))))
  | V_artists =>
      limited ps (fun lim => frame artist_columns
        (artist_row <$> limit lim (order_by (asc artistID) (Artist_table db))))
  | V_artist_song_counts =>
      limited ps (fun lim => frame ["artist_name"; "song_count"]
        ((fun x => [VText x.1; VInt x.2]) <$>
         limit lim (order_by (desc snd) (artist_song_count_rows db))))
  | V_playlists =>
      limited ps (fun lim => frame playlist_columns
        (playlist_row <$>
         limit lim (order_by (asc playlistID) (Playlist_table db))))
  | V_playlists_creators =>
      limited ps (fun lim =>
        frame ["playlistID"; "playlist_name"; "num_songs"; "creator"]
          ((fun x => [VInt (playlistID x.1.1); VText (playlist_name x.1.1);
                      VInt (num_songs x.1.1); VText (userName x.2)]) <$>
           limit lim (order_by (asc (fun x => playlistID x.1.1))
                        (playlist_creates_user db))))
  | V_playlist_picker =>
      inr (frame ["playlistID"; "playlist_name"]
        ((fun p => [VInt (playlistID p); VText (playlist_name p)]) <$>
         order_by (asc playlistID) (Playlist_table db)))
  | V_playlist_songs =>
      let? pid := param_int ps "pid" in
      inr (frame ["songName"; "artist_name"; "position"]
        ((fun x => [VText (songName x.1.1.2); VText (artist_name x.2);
                    VInt (position x.1.1.1)]) <$>
         order_by (asc (fun x => position x.1.1.1))
           (filter (fun x => sv_playlistID x.1.1.1 = pid)
              (saves_song_produces_artist db))))
  | V_user_likes =>
      limited ps (fun lim =>
        frame ["userName"; "songName"; "artist_name"; "liked_date"]
          ((fun x => [VText (userName x.1.1.1.2); VText (songName x.1.1.2);
                      VText (artist_name x.2);
                      VDate (liked_date x.1.1.1.1)]) <$>
           limit lim (order_by (desc (fun x => liked_date x.1.1.1.1))
                        (likes_user_song_produces_artist db))))
  | V_album_tracks =>
      limited ps (fun lim =>
        frame ["album_name"; "songName"; "track_number"; "artist_name"]
          ((fun x => [VText (album_name x.1.1.1.2); VText (songName x.1.1.2);
                      VInt (track_number x.1.1.1.1);
                      VText (artist_name x.2)]) <$>
           limit lim
             (order_by (asc_text_then (fun x => album_name x.1.1.1.2)
                                      (fun x => track_number x.1.1.1.1))
                (contains_album_song_records_artist db))))
  | V_most_liked =>
      limited ps (fun lim => frame ["songName"; "artist_name"; "like_count"]
        ((fun x => [VText x.1.1; VText x.1.2; VInt x.2]) <$>
         limit lim (order_by (desc snd) (most_liked_rows db))))
  | V_user_activity =>
      limited ps (fun lim =>
        frame ["userName"; "songs_liked"; "playlists_created"]
          ((fun x => [VText x.1.1; VInt x.1.2; VInt x.2]) <$>
           limit lim (order_by (desc (fun x => x.1.2))
                        (user_activity_rows db))))
  | V_network =>
      inr (frame ["userName"; "songName"; "artist_name"]
        ((fun x => [VText (userName x.1.1.1.2); VText (songName x.1.1.2);
                    VText (artist_name x.2)]) <$>
         limit 500 (likes_user_song_produces_artist db)))
  | V_top_songs =>
      inr (frame ["songName"; "like_count"]
        ((fun x => [VText x.1; VInt x.2]) <$>
         limit 5 (order_by (desc snd) (top_song_rows db))))
  | V_avg_songs =>
      inr (frame ["avg_songs"] [[avg (snd <$> saves_per_playlist db)]])
  | C_users =>
      inr (frame ["userID"; "userName"]
        (user_row <$> order_by (asc userID) (User_table db)))
  | C_artists =>
      inr (frame ["artistID"; "artist_name"; "artist_location"]
        (artist_row <$> order_by (asc artistID) (Artist_table db)))
  | C_albums =>
      inr (frame ["albumID"; "album_name"; "release_date"]
        (album_row <$> order_by (asc albumID) (Album_table db)))
  | C_songs =>
      limited ps (fun lim => frame ["song_id"; "songName"; "dayReleased"]
        (song_row <$> limit lim (order_by (asc song_id) (Song_table db))))
  | C_playlists =>
      inr (frame ["playlistID"; "playlist_name"; "num_songs"]
        (playlist_row <$> order_by (asc playlistID) (Playlist_table db)))
  | _ => inl "not a query"
  end.

(** ** What the store does for the mutations *)

Definition with_users (db : DB) (l : list User) : DB :=
  mkDB l (Artist_table db) (Song_table db) (Album_table db)
    (Playlist_table db) (Produces_table db) (Records_table db)
    (Contains_table db) (Saves_table db) (Creates_table db) (Likes_table db).
Definition with_artists (db : DB) (l : list Artist) : DB :=
  mkDB (User_table db) l (Song_table db) (Album_table db)
    (Playlist_table db) (Produces_table db) (Records_table db)
    (Contains_table db) (Saves_table db) (Creates_table db) (Likes_table db).
Definition with_songs (db : DB) (l : list Song) : DB :=
  mkDB (User_table db) (Artist_table db) l (Album_table db)
    (Playlist_table db) (Produces_table db) (Records_table db)
    (Contains_table db) (Saves_table db) (Creates_table db) (Likes_table db).
Definition with_playlists (db : DB) (l : list Playlist) : DB :=
  mkDB (User_table db) (Artist_table db) (Song_table db) (Album_table db)
    l (Produces_table db) (Records_table db)
    (Contains_table db) (Saves_table db) (Creates_table db) (Likes_table db).
Definition with_produces (db : DB) (l : list Produces) : DB :=
  mkDB (User_table db) (Artist_table db) (Song_table db) (Album_table db)
    (Playlist_table db) l (Records_table db)
    (Contains_table db) (Saves_table db) (Creates_table db) (Likes_table db).
Definition with_records (db : DB) (l : list Records) : DB :=
  mkDB (User_table db) (Artist_table db) (Song_table db) (Album_table db)
    (Playlist_table db) (Produces_table db) l
    (Contains_table db) (Saves_table db) (Creates_table db) (Likes_table db).
Definition with_contains (db : DB) (l : list Contains) : DB :=
  mkDB (User_table db) (Artist_table db) (Song_table db) (Album_table db)
    (Playlist_table db) (Produces_table db) (Records_table db)
    l (Saves_table db) (Creates_table db) (Likes_table db).
Definition with_saves (db : DB) (l : list Saves) : DB :=
  mkDB (User_table db) (Artist_table db) (Song_table db) (Album_table db)
    (Playlist_table db) (Produces_table db) (Records_table db)
    (Contains_table db) l (Creates_table db) (Likes_table db).
Definition with_creates (db : DB) (l : list Creates) : DB :=
  mkDB (User_table db) (Artist_table db) (Song_table db) (Album_table db)
    (Playlist_table db) (Produces_table db) (Records_table db)
    (Contains_table db) (Saves_table db) l (Likes_table db).
Definition with_likes (db : DB) (l : list Likes) : DB :=
  mkDB (User_table db) (Artist_table db) (Song_table db) (Album_table db)
    (Playlist_table db) (Produces_table db) (Records_table db)
    (Contains_table db) (Saves_table db) (Creates_table db) l.

Section keyed.
Context {R : Type} (key : R → Z).

(** [INSERT]: the primary key admits no second row with the same value. *)
Definition pk_insert (r : R) (tbl : list R) : string + list R :=
  if decide (key r ∈ key <$> tbl)
  then inl "duplicate key value violates unique constraint"
  else inr (tbl ++ [r]).

(** [UPDATE ... WHERE key = id]: the table after, and the rows written.
    PostgreSQL does not overwrite a row: it writes a new version of it,
    which a scan of the heap meets after the rows that were there, as long
    as the table has no reclaimed space to put it in.  What is proved of
    an update is stated up to the order of the rows. *)
Definition pk_update (id : Z) (f : R → R) (tbl : list R)
  : list R * list R :=
  let written := f <$> filter (fun r => key r = id) tbl in
  (filter (fun r => key r ≠ id) tbl ++ written, written).

(** [DELETE ... WHERE key = id]: the table after, and the rows removed. *)
Definition pk_delete (id : Z) (tbl : list R) : list R * list R :=
  (filter (fun r => key r ≠ id) tbl, filter (fun r => key r = id) tbl).
End keyed.

(** Modelled from the spec: referential integrity as the store enforces
    it.  Deleting parent [id] when association rows may still point at it:
    with [NoAction] a remaining reference is an error, with [Cascade] the
    referencing rows go too. *)
Definition release {C : Type} (fk : fk_action) (ref : C → Z) (id : Z)
    (children : list C) : string + list C :=
  match fk with
  | Cascade => inr (filter (fun c => ref c ≠ id) children)
  | NoAction =>
      if decide (id ∈ ref <$> children)
      then inl "update or delete violates foreign key constraint"
      else inr children
  end.

Definition delete_song_refs (fk : fk_action) (id : Z) (db : DB)
  : string + DB :=
  let? pr := release fk pr_song_id id (Produces_table db) in
  let? ct := release fk ct_song_id id (Contains_table db) in
  let? sv := release fk sv_song_id id (Saves_table db) in
  let? lk := release fk lk_song_id id (Likes_table db) in
  inr (with_likes (with_saves (with_contains (with_produces db pr) ct) sv) lk).

Definition delete_artist_refs (fk : fk_action) (id : Z) (db : DB)
  : string + DB :=
  let? pr := release fk pr_artistID id (Produces_table db) in
  let? rc := release fk rc_artistID id (Records_table db) in
  inr (with_records (with_produces db pr) rc).

Definition delete_user_refs (fk : fk_action) (id : Z) (db : DB)
  : string + DB :=
  let? cr := release fk cr_userID id (Creates_table db) in
  let? lk := release fk lk_userID id (Likes_table db) in
  inr (with_likes (with_creates db cr) lk).

Definition delete_playlist_refs (fk : fk_action) (id : Z) (db : DB)
  : string + DB :=
  let? sv := release fk sv_playlistID id (Saves_table db) in
  let? cr := release fk cr_playlistID id (Creates_table db) in
  inr (with_creates (with_saves db sv) cr).

Definition with_seq_user (sq : Sequences) (n : Z) : Sequences :=
  mkSeq n (seq_artist sq) (seq_song sq) (seq_playlist sq).
Definition with_seq_artist (sq : Sequences) (n : Z) : Sequences :=
  mkSeq (seq_user sq) n (seq_song sq) (seq_playlist sq).
Definition with_seq_song (sq : Sequences) (n : Z) : Sequences :=
  mkSeq (seq_user sq) (seq_artist sq) n (seq_playlist sq).
Definition with_seq_playlist (sq : Sequences) (n : Z) : Sequences :=
  mkSeq (seq_user sq) (seq_artist sq) (seq_song sq) n.

Definition returning {R : Type} (select_list : list string)
    (row : R → list value) (rows : list R) : DataFrame :=
  frame select_list (row <$> rows).

(** One statement against database state [db]: the sequences afterwards
    and the store's answer.  [fk] is the schema's delete rule. *)
Definition pg_exec (fk : fk_action) (s : stmt) (ps : params)
    (sq : Sequences) (db : DB) : Sequences * answer :=
  match s with
  | INSERT_song =>
      match (let? n := param_text ps "n" in
             let? d := param_date ps "d" in inr (n, d)) with
      | inl e => (sq, inl e)
      | inr (n, d) =>
          let r := mkSong (seq_song sq + 1) n d in
          (with_seq_song sq (seq_song sq + 1),
           let? t := pk_insert song_id r (Song_table db) in
           inr (returning ["song_id"; "songName"; "dayReleased"] song_row [r],
                with_songs db t))
      end
  | UPDATE_song =>
      (sq,
       let? n := param_text ps "n" in
       let? d := param_date ps "d" in
       let? sid := param_int ps "sid" in
       let u := pk_update song_id sid (fun r => mkSong (song_id r) n d)
                  (Song_table db) in
       inr (returning ["song_id"; "songName"; "dayReleased"] song_row u.2,
            with_songs db u.1))
  | DELETE_song =>
      (sq,
       let? sid := param_int ps "sid" in
       let d := pk_delete song_id sid (Song_table db) in
       let? db' := match d.2 with
                   | [] => inr db
                   | _ => delete_song_refs fk sid db
                   end in
       inr (returning ["song_id"; "songName"; "dayReleased"] song_row d.2,
            with_songs db' d.1))
  | INSERT_artist =>
      match (let? n := param_text ps "n" in
             let? l := param_text_opt ps "l" in inr (n, l)) with
      | inl e => (sq, inl e)
      | inr (n, l) =>
          let r := mkArtist (seq_artist sq + 1) n l in
          (with_seq_artist sq (seq_artist sq + 1),
           let? t := pk_insert artistID r (Artist_table db) in
           inr (returning ["artistID"; "artist_name"; "artist_location"]
                  artist_row [r],
                with_artists db t))
      end
  | UPDATE_artist =>
      (sq,
       let? n := param_text ps "n" in
       let? l := param_text_opt ps "l" in
       let? aid := param_int ps "aid" in
       let u := pk_update artistID aid (fun r => mkArtist (artistID r) n l)
                  (Artist_table db) in
       inr (returning ["artistID"; "artist_name"; "artist_location"]
              artist_row u.2,
            with_artists db u.1))
  | DELETE_artist =>
      (sq,
       let? aid := param_int ps "aid" in
       let d := pk_delete artistID aid (Artist_table db) in
       let? db' := match d.2 with
                   | [] => inr db
                   | _ => delete_artist_refs fk aid db
                   end in
       inr (returning ["artistID"; "artist_name"; "artist_location"]
              artist_row d.2,
            with_artists db' d.1))
  | INSERT_user =>
      match param_text ps "n" with
      | inl e => (sq, inl e)
      | inr n =>
          let r := mkUser (seq_user sq + 1) n in
          (with_seq_user sq (seq_user sq + 1),
           let? t := pk_insert userID r (User_table db) in
           inr (returning ["userID"; "userName"] user_row [r],
                with_users db t))
      end
  | UPDATE_user =>
      (sq,
       let? n := param_text ps "n" in
       let? uid := param_int ps "uid" in
       let u := pk_update userID uid (fun r => mkUser (userID r) n)
                  (User_table db) in
       inr (returning ["userID"; "userName"] user_row u.2,
            with_users db u.1))
  | DELETE_user =>
      (sq,
       let? uid := param_int ps "uid" in
       let d := pk_delete userID uid (User_table db) in
       let? db' := match d.2 with
                   | [] => inr db
                   | _ => delete_user_refs fk uid db
                   end in
       inr (returning ["userID"; "userName"] user_row d.2,
            with_users db' d.1))
  | INSERT_playlist =>
      match (let? n := param_text ps "n" in
             let? ns := param_int ps "ns" in inr (n, ns)) with
      | inl e => (sq, inl e)
      | inr (n, ns) =>
          let r := mkPlaylist (seq_playlist sq + 1) n ns in
          (with_seq_playlist sq (seq_playlist sq + 1),
           let? t := pk_insert playlistID r (Playlist_table db) in
           inr (returning ["playlistID"; "playlist_name"; "num_songs"]
                  playlist_row [r],
                with_playlists db t))
      end
  | UPDATE_playlist =>
      (sq,
       let? n := param_text ps "n" in
       let? ns := param_int ps "ns" in
       let? pid := param_int ps "pid" in
       let u := pk_update playlistID pid
                  (fun r => mkPlaylist (playlistID r) n ns)
                  (Playlist_table db) in
       inr (returning ["playlistID"; "playlist_name"; "num_songs"]
              playlist_row u.2,
            with_playlists db u.1))
  | DELETE_playlist =>
      (sq,
       let? pid := param_int ps "pid" in
       let d := pk_delete playlistID pid (Playlist_table db) in
       let? db' := match d.2 with
                   | [] => inr db
                   | _ => delete_playlist_refs fk pid db
                   end in
       inr (returning ["playlistID"; "playlist_name"; "num_songs"]
              playlist_row d.2,
            with_playlists db' d.1))
  | _ => (sq, let? df := pg_select s ps db in inr (df, db))
  end.

(** ** The Python side: exceptions, the page, the connection pool *)

(** Exceptions that cross the code under study.  [DBAPIError] stands for
    every error SQLAlchemy raises for the driver; Streamlit's two script
    control exceptions derive from [BaseException], so [except Exception]
    lets them through. *)
Inductive exn :=
  | DBAPIError (msg : string)
  | ValueError (msg : string)
  | StopException
  | RerunException.

Definition is_Exception (e : exn) : bool :=
  match e with
  | DBAPIError _ | ValueError _ => true
  | StopException | RerunException => false
  end.

(** [str(e)] *)
Definition exn_str (e : exn) : string :=
  match e with
  | DBAPIError m | ValueError m => m
  | StopException | RerunException => ""
  end.

Inductive outcome (A : Type) :=
  | Ok (a : A)
  | Raise (e : exn).
Arguments Ok {A} a.
Arguments Raise {A} e.

(** The store as the applications see it: committed tables, sequences, the
    schema's delete rule, and whether it is reachable at all ([outage]
    carries the driver's message when it is not: refused connection,
    expired statement timeout, ...). *)
Record Server := mkServer {
  tables : DB;
  sequences : Sequences;
  on_delete : fk_action;
  outage : option string
}.

(** One physical connection: the [SET] directives in force on it for
    good, those issued inside the open transaction, and the working copy of
    that transaction, if any.  A [SET] takes effect at once, and
    PostgreSQL undoes it when the transaction it was issued in is rolled
    back; it stays for the session once that transaction commits. *)
Record Session := mkSession {
  settings : list string;
  unsettled : list string;
  transaction : option DB
}.

(** The directives a statement on the connection runs under. *)
Definition in_force (ss : Session) : list string :=
  settings ss ++ unsettled ss.

(** What Streamlit has put on the page (static text is left out). *)
Inductive element :=
  | st_error (msg : string)
  | st_warning (msg : string)
  | st_success (msg : string) (shown : list value)
  | st_caption (msg : string)
  | st_info (msg : string)
  | st_metric (label : string) (n : nat)
  | st_dataframe (df : DataFrame)
  | st_chart (kind : string) (df : DataFrame).

Record World := mkWorld {
  server : Server;
  pool : option Session;
  wire : list (string * params);
  page : list element;
  session_state : gmap string (gmap string value)
}.

Definition with_server (w : World) (s : Server) : World :=
  mkWorld s (pool w) (wire w) (page w) (session_state w).
Definition with_pool (w : World) (p : option Session) : World :=
  mkWorld (server w) p (wire w) (page w) (session_state w).
Definition with_wire (w : World) (l : list (string * params)) : World :=
  mkWorld (server w) (pool w) l (page w) (session_state w).
Definition with_page (w : World) (l : list element) : World :=
  mkWorld (server w) (pool w) (wire w) l (session_state w).
Definition with_session_state (w : World)
    (m : gmap string (gmap string value)) : World :=
  mkWorld (server w) (pool w) (wire w) (page w) m.

Definition with_tables (s : Server) (db : DB) : Server :=
  mkServer db (sequences s) (on_delete s) (outage s).
Definition with_sequences (s : Server) (sq : Sequences) : Server :=
  mkServer (tables s) sq (on_delete s) (outage s).

(** Computations that read and change the world and may raise. *)
Definition Py (A : Type) : Type := World → outcome A * World.

Definition ret {A} (a : A) : Py A := fun w => (Ok a, w).
Definition raise {A} (e : exn) : Py A := fun w => (Raise e, w).
Definition bind {A B} (m : Py A) (k : A → Py B) : Py B :=
  fun w => match m w with
           | (Ok a, w') => k a w'
           | (Raise e, w') => (Raise e, w')
           end.

Declare Scope py_scope.
Delimit Scope py_scope with py.
Notation "x ← m ; k" := (bind m (fun x => k))
  (at level 20, m at level 100, k at level 200, only parsing) : py_scope.
Notation "m ;; k" := (bind m (fun _ => k))
  (at level 100, k at level 200, only parsing, right associativity)
  : py_scope.
Local Open Scope py_scope.

(** [try: body / except Exception as e: handler(e)] *)
Definition try_except {A} (body : Py A) (handler : exn → Py A) : Py A :=
  fun w => match body w with
           | (Ok a, w') => (Ok a, w')
           | (Raise e, w') =>
               if is_Exception e then handler e w' else (Raise e, w')
           end.

(** [try: body / finally: cleanup] *)
Definition try_finally {A} (body : Py A) (cleanup : Py unit) : Py A :=
  fun w => match body w with
           | (r, w') =>
               match cleanup w' with
               | (Ok _, w'') => (r, w'')
               | (Raise e, w'') => (Raise e, w'')
               end
           end.

Definition show (e : element) : Py unit :=
  fun w => (Ok tt, with_page w (page w ++ [e])).

Definition send (text : string) (ps : params) : Py unit :=
  fun w => (Ok tt, with_wire w (wire w ++ [(text, ps)])).

(** The store answers nothing while it is out. *)
Definition reach : Py unit :=
  fun w => match outage (server w) with
           | Some m => (Raise (DBAPIError m), w)
           | None => (Ok tt, w)
           end.

(** [cur.execute(text)] on the raw driver connection: a session
    directive.  The driver (psycopg2, not in autocommit) opens a
    transaction with the first statement it is given, so the directive is
    part of that transaction. *)
Definition cursor_execute (text : string) : Py unit :=
  send text ∅ ;; reach ;;
  fun w => match pool w with
           | None => (Raise (DBAPIError "connection is closed"), w)
           | Some ss =>
               (Ok tt, with_pool w
                  (Some (mkSession (settings ss) (unsettled ss ++ [text])
                           (Some (default (tables (server w))
                                    (transaction ss))))))
           end.

(** Checking a connection out of the pool.  A pooled connection is pinged
    first ([pool_pre_ping]) and carries no transaction (the pool resets a
    connection it takes back, by a rollback); a new physical connection
    fires the engine's ["connect"] listener. *)
Definition checkout (on_connect : Py unit) : Py unit :=
  fun w => match pool w with
           | Some ss =>
               match reach w with
               | (Ok _, w') =>
                   (Ok tt,
                    with_pool w' (Some (mkSession (settings ss) [] None)))
               | (Raise e, w') => (Raise e, with_pool w' None)
               end
           | None =>
               (reach ;;
                (fun w' =>
                   (Ok tt, with_pool w' (Some (mkSession [] [] None)))) ;;
                on_connect) w
           end.

Definition begin_ : Py unit :=
  fun w => match pool w with
           | None => (Raise (DBAPIError "connection is closed"), w)
           | Some ss =>
               (Ok tt, with_pool w
                  (Some (mkSession (settings ss) (unsettled ss)
                           (Some (default (tables (server w))
                                    (transaction ss))))))
           end.

(** [COMMIT]: the working copy becomes the tables, and the directives of
    the transaction stay in force. *)
Definition commit : Py unit :=
  reach ;;
  fun w => match pool w with
           | None => (Raise (DBAPIError "connection is closed"), w)
           | Some ss =>
               (Ok tt,
                with_pool
                  (with_server w
                     (with_tables (server w)
                        (default (tables (server w)) (transaction ss))))
                  (Some (mkSession (in_force ss) [] None)))
           end.

(** [ROLLBACK]: the working copy is dropped, and with it the directives
    issued inside the transaction. *)
Definition rollback : Py unit :=
  fun w => match pool w with
           | None => (Ok tt, w)
           | Some ss =>
               (Ok tt, with_pool w (Some (mkSession (settings ss) [] None)))
           end.

(** [conn.execute(text(sql), params)]: the statement runs on the working
    copy of the connection's transaction, which begins with the first
    statement when none is open. *)
Definition conn_execute (s : stmt) (ps : params) : Py DataFrame :=
  send (sql_text s) ps ;; reach ;; begin_ ;;
  fun w => match pool w with
           | None => (Raise (DBAPIError "connection is closed"), w)
           | Some ss =>
               let view := default (tables (server w)) (transaction ss) in
               let r := pg_exec (on_delete (server w)) s ps
                          (sequences (server w)) view in
               let w' := with_server w (with_sequences (server w) r.1) in
               match r.2 with
               | inl m => (Raise (DBAPIError m), w')
               | inr (df, db') =>
                   (Ok df, with_pool w'
                             (Some (mkSession (settings ss) (unsettled ss)
                                      (Some db'))))
               end
           end.

(** [pd.read_sql(text(sql), conn, params=...)] *)
Definition read_sql (s : stmt) (ps : params) : Py DataFrame :=
  conn_execute s ps.

(** [with engine.connect() as conn: body]: leaving the block closes the
    connection, which rolls back whatever transaction is open. *)
Definition engine_connect {A} (on_connect : Py unit) (body : Py A) : Py A :=
  checkout on_connect ;; try_finally body rollback.

(** [with engine.begin() as conn: body]: commit when the block ends
    normally, roll back and re-raise when it raises. *)
Definition engine_begin {A} (on_connect : Py unit) (body : Py A) : Py A :=
  checkout on_connect ;; begin_ ;;
  fun w => match body w with
           | (Ok a, w') => (commit ;; ret a) w'
           | (Raise e, w') => (rollback ;; raise e) w'
           end.

(** ** Python and Streamlit helpers used by both scripts *)

(** Truthiness of an optional string: [None] and [""] are false. *)
Definition truthy (o : option string) : bool :=
  match o with
  | None | Some "" => false
  | Some _ => true
  end.

(** [all([...])] *)
Definition all (l : list bool) : bool := forallb id l.

(** [os.getenv(key)] and [os.getenv(key, default)] *)
Definition getenv (env : gmap string string) (key : string) : option string :=
  env !! key.
Definition getenv_default (env : gmap string string) (key dflt : string)
  : string :=
  default dflt (env !! key).

(** An optional string inside an f-string. *)
Definition fstr (o : option string) : string := default "None" o.

(** [int(s)] for a string: an optional sign and decimal digits (the white
    space and digit separators Python also tolerates are left out). *)
Fixpoint digits (s : string) (acc : Z) : option Z :=
  match s with
  | EmptyString => Some acc
  | String c s' =>
      match Ascii.is_nat c with
      | Some d => digits s' (10 * acc + Z.of_nat d)
      | None => None
      end
  end.

Definition py_int (s : string) : outcome Z :=
  let bad := Raise (ValueError
                      ("invalid literal for int() with base 10: " +:+ s)) in
  match s with
  | EmptyString => bad
  | String "-" (String _ _ as s') =>
      match digits s' 0 with Some n => Ok (- n) | None => bad end
  | String "+" (String _ _ as s') =>
      match digits s' 0 with Some n => Ok n | None => bad end
  | _ => match digits s 0 with Some n => Ok n | None => bad end
  end.

(** [s.strip()].  Text is held as its UTF-8 bytes.  Python strips the
    code points [str.isspace] accepts: U+0009-000D, U+001C-0020, U+0085,
    U+00A0, U+1680, U+2000-200A, U+2028, U+2029, U+202F, U+205F and
    U+3000, here by their encodings of one, two and three bytes. *)
Definition is_space1 (a : ascii) : bool :=
  let n := N_of_ascii a in
  (((9 <=? n) && (n <=? 13)) || ((28 <=? n) && (n <=? 32)))%N.

Definition is_space2 (a b : ascii) : bool :=
  let n := N_of_ascii b in
  ((N_of_ascii a =? 194) && ((n =? 133) || (n =? 160)))%N.

Definition is_space3 (a b c : ascii) : bool :=
  let l := N_of_ascii a in
  let m := N_of_ascii b in
  let n := N_of_ascii c in
  (((l =? 225) && (m =? 154) && (n =? 128)) ||
   ((l =? 226) && (m =? 128) &&
    (((128 <=? n) && (n <=? 138)) || (n =? 168) || (n =? 169) ||
     (n =? 175))) ||
   ((l =? 226) && (m =? 129) && (n =? 159)) ||
   ((l =? 227) && (m =? 128) && (n =? 128)))%N.

(** Dropping white space from the head of a string; [sp2] and [sp3] tell
    the encodings of two and three bytes, in the order the bytes come. *)
Fixpoint lstrip_with (sp2 : ascii → ascii → bool)
    (sp3 : ascii → ascii → ascii → bool) (s : string) : string :=
  match s with
  | EmptyString => EmptyString
  | String a s1 =>
      if is_space1 a then lstrip_with sp2 sp3 s1
      else match s1 with
           | String b s2 =>
               if sp2 a b then lstrip_with sp2 sp3 s2
               else match s2 with
                    | String c s3 =>
                        if sp3 a b c then lstrip_with sp2 sp3 s3 else s
                    | EmptyString => s
                    end
           | EmptyString => s
           end
  end.

Definition lstrip (s : string) : string := lstrip_with is_space2 is_space3 s.

(** From the tail the bytes of an encoding come last byte first. *)
Definition rstrip (s : string) : string :=
  String.rev
    (lstrip_with (fun b a => is_space2 a b) (fun c b a => is_space3 a b c)
       (String.rev s)).

Definition strip (s : string) : string := rstrip (lstrip s).

(** [s or None] *)
Definition or_None (s : string) : option string :=
  match s with EmptyString => None | _ => Some s end.

(** [st.number_input(label, min_value, max_value, value)] with integer
    arguments and a default inside the range: the default until the visitor
    enters something; an entry outside the range is not taken, and the
    field keeps its value. *)
Definition number_input (min_value : Z) (max_value : option Z) (value : Z)
    (entered : option Z) : Z :=
  match entered with
  | None => value
  | Some v =>
      if bool_decide (min_value ≤ v) &&
         match max_value with Some m => bool_decide (v ≤ m) | None => true end
      then v else value
  end.

(** [st.selectbox(label, options)]: the chosen option, the first one until
    the visitor picks, [None] over no options. *)
Definition selectbox {A} (options : list A) (picked : nat) : option A :=
  match options !! picked with
  | Some x => Some x
  | None => head options
  end.

(** [sqlalchemy.engine.URL] *)
Record URL := mkURL {
  drivername : string;
  username : option string;
  password : option string;
  host : string;
  port : Z;
  database : option string;
  query : list (string * string)
}.

(** [st.stop()] and [st.rerun()] *)
Definition st_stop {A} : Py A := raise StopException.
Definition st_rerun {A} : Py A := raise RerunException.

Definition when (b : bool) (m : Py unit) : Py unit :=
  if b then m else ret tt.

(** The integers of a result column. *)
Definition as_int (v : value) : option Z :=
  match v with VInt z => Some z | _ => None end.
Definition int_column (c : string) (df : DataFrame) : list Z :=
  omap as_int (df_column c df).

(** * [app.py]: the viewer *)
Module app.

(** What the visitor has set on the page for one run of the script. *)
Inductive view :=
  | User_Likes | Album_Tracks | Most_Liked_Songs | User_Activity.

Record Visitor := mkVisitor {
  logo_file : bool;                (* assets/img/AudioplaneLogo.svg exists *)
  row_limit_entered : option Z;    (* the "Row limit" field *)
  playlist_picked : nat;           (* the playlist select box *)
  view_choice : view               (* the radio button *)
}.

Section globals.
Variables (PGHOST PGPORT : string).
Variables (PGDATABASE PGUSER PGPASSWORD : option string).
Variable (PGSSLMODE : string).

Definition make_url : Py URL :=
  fun w => match py_int PGPORT with
           | Ok p =>
               (Ok (mkURL "postgresql+psycopg2" PGUSER PGPASSWORD PGHOST p
                      PGDATABASE
                      [("connect_timeout", "5"); ("sslmode", PGSSLMODE)]),
                w)
           | Raise e => (Raise e, w)
           end.

(** The ["connect"] listener. *)
Definition _set_statement_timeout : Py unit :=
  cursor_execute "SET statement_timeout TO 8000" ;;
  cursor_execute ("SET search_path TO " +:+ fstr PGUSER +:+ ", public").

(** [get_engine()] is cached for the life of the process, and its pool
    with it: the pool is the one the world carries from run to run. *)
Definition get_engine : Py URL := make_url.

Definition fetch_df (sql : stmt) (ps : option params) : Py DataFrame :=
  try_except
    (engine_connect _set_statement_timeout (read_sql sql (default ∅ ps)))
    (fun e => show (st_error ("DB error: " +:+ exn_str e)) ;;
              ret empty_frame).

Definition lim (row_limit : Z) : option params :=
  Some {[ "lim" := VInt row_limit ]}.

Definition tab1 (row_limit : Z) : Py unit :=
  df ← fetch_df V_users (lim row_limit);
  show (st_dataframe df) ;;
  when (negb (df_empty df)) (show (st_metric "Total Users" (df_len df))).

Definition tab2 (row_limit : Z) : Py unit :=
  df ← fetch_df V_songs (lim row_limit);
  show (st_dataframe df) ;;
  df2 ← fetch_df V_songs_artists (lim row_limit);
  show (st_dataframe df2) ;;
  when (negb (df_empty df)) (show (st_metric "Total Songs" (df_len df))).

Definition tab3 (row_limit : Z) : Py unit :=
  df ← fetch_df V_albums (lim row_limit);
  show (st_dataframe df) ;;
  df2 ← fetch_df V_albums_artists (lim row_limit);
  show (st_dataframe df2) ;;
  when (negb (df_empty df)) (show (st_metric "Total Albums" (df_len df))).

Definition tab4 (row_limit : Z) : Py unit :=
  df ← fetch_df V_artists (lim row_limit);
  show (st_dataframe df) ;;
  if df_empty df then ret tt
  else
    show (st_metric "Total Artists" (df_len df)) ;;
    df2 ← fetch_df V_artist_song_counts (lim row_limit);
    show (st_dataframe df2).

Definition tab5 (row_limit : Z) (picked : nat) : Py unit :=
  df ← fetch_df V_playlists (lim row_limit);
  show (st_dataframe df) ;;
  df2 ← fetch_df V_playlists_creators (lim row_limit);
  show (st_dataframe df2) ;;
  when (negb (df_empty df))
    (show (st_metric "Total Playlists" (df_len df))) ;;
  playlists ← fetch_df V_playlist_picker None;
  if df_empty playlists then ret tt
  else
    match selectbox (df_column "playlistid" playlists) picked with
    | Some (VInt selected_playlist) =>
        playlist_songs ←
          fetch_df V_playlist_songs
            (Some {[ "pid" := VInt selected_playlist ]});
        show (st_dataframe playlist_songs)
    | _ => raise (ValueError "int() argument must be a number")
    end.

Definition tab6 (row_limit : Z) (choice : view) : Py unit :=
  df ← fetch_df
         match choice with
         | User_Likes => V_user_likes
         | Album_Tracks => V_album_tracks
         | Most_Liked_Songs => V_most_liked
         | User_Activity => V_user_activity
         end (lim row_limit);
  show (st_dataframe df).

(** The three visualisations below the tabs.  The graph and the charts
    are drawn from the frames alone. *)
Definition visualizations : Py unit :=
  df_rel ← fetch_df V_network None;
  (if df_empty df_rel then show (st_info "No relationship data found.")
   else show (st_chart "network" df_rel)) ;;
  df_popular ← fetch_df V_top_songs None;
  (if df_empty df_popular
   then show (st_info "No data available for popularity chart.")
   else show (st_chart "pie" df_popular)) ;;
  df_avg ← fetch_df V_avg_songs None;
  (if df_empty df_avg then show (st_info "No playlist activity found.")
   else show (st_chart "gauge" df_avg)).

(** The whole script, top to bottom. *)
Definition script (v : Visitor) : Py unit :=
  (if negb (all [truthy PGDATABASE; truthy PGUSER; truthy PGPASSWORD])
   then
     show (st_error "Missing DB credentials. Please set PGDATABASE, PGUSER, and PGPASSWORD in your .env file.") ;;
     st_stop
   else ret tt) ;;
  _ ← get_engine;
  when (negb (logo_file v))
    (show (st_error "Image not found at: assets/img/AudioplaneLogo.svg. Please check your path.")) ;;
  let row_limit := number_input 1 (Some 2000) 200 (row_limit_entered v) in
  tab1 row_limit ;;
  tab2 row_limit ;;
  tab3 row_limit ;;
  tab4 row_limit ;;
  tab5 row_limit (playlist_picked v) ;;
  tab6 row_limit (view_choice v) ;;
  visualizations.
End globals.

(** One run of the script in environment [env] (after [load_dotenv()]). *)
Definition main (env : gmap string string) (v : Visitor) : Py unit :=
  script (getenv_default env "PGHOST" "localhost")
    (getenv_default env "PGPORT" "5432")
    (getenv env "PGDATABASE") (getenv env "PGUSER") (getenv env "PGPASSWORD")
    (getenv_default env "PGSSLMODE" "require") v.

End app.

(** * [app_full_crud.py]: the CRUD front-end *)
Module app_full_crud.

(** A record as [to_dict()] returns it. *)
Abbreviation record := (gmap string value).

(** The one thing the visitor did that triggered this run of the script:
    nothing, or one submitted form or pressed button with the values its
    widgets held. *)
Inductive action :=
  | Idle
  | Insert_User (username : string)
  | Update_User (picked : nat) (new_username : string)
  | Delete_User (picked : nat) (confirm : bool)
  | Insert_Artist (artist_name artist_location : string)
  | Update_Artist (picked : nat) (new_name new_location : string)
  | Delete_Artist (picked : nat) (confirm : bool)
  | Insert_Song (song_name : string) (date_released : Z)
  | Update_Song (picked : nat) (new_song_name : string) (new_date : Z)
  | Delete_Song (picked : nat) (confirm : bool)
  | Insert_Playlist (playlist_name : string) (num_songs_entered : option Z)
  | Update_Playlist (picked : nat) (new_playlist_name : string)
      (new_num_songs_entered : option Z)
  | Delete_Playlist (picked : nat) (confirm : bool).

Record Visitor := mkVisitor {
  row_limit_entered : option Z;
  act : action
}.

(** [if rec:] *)
Definition rec_truthy (rec : option record) : bool :=
  match rec with
  | Some r => negb (bool_decide (size r = 0%nat))
  | None => false
  end.

(** [rec.get(k, dflt)] *)
Definition rec_get (rec : record) (k : string) (dflt : value) : value :=
  default dflt (rec !! k).

(** Keys of a dict comprehension, in insertion order. *)
Fixpoint dict_keys (l : list Z) : list Z :=
  match l with
  | [] => []
  | x :: l' => x :: filter (fun y => y ≠ x) (dict_keys l')
  end.

(** [int(df[df[key] == id].iloc[0][c])] *)
Definition current_int (df : DataFrame) (key : string) (id : Z) (c : string)
  : option Z :=
  match col_index key (columns df), col_index c (columns df) with
  | Some i, Some j =>
      head (filter (fun r => as_int (nth i r VNull) = Some id) (data df))
        ≫= fun r => as_int (nth j r VNull)
  | _, _ => None
  end.

Section globals.
Variables (PGHOST PGPORT : string).
Variables (PGDATABASE PGUSER PGPASSWORD : option string).

Definition make_url : Py URL :=
  fun w => match py_int PGPORT with
           | Ok p =>
               (Ok (mkURL "postgresql+psycopg2" PGUSER PGPASSWORD PGHOST p
                      PGDATABASE
                      [("connect_timeout", "5"); ("sslmode", "require")]),
                w)
           | Raise e => (Raise e, w)
           end.

(** [create_engine(make_url(), ...)] at module level: every run of the
    script builds a new engine with an empty pool. *)
Definition create_engine : Py URL :=
  url ← make_url;
  fun w => (Ok url, with_pool w None).

(** The ["connect"] listener. *)
Definition _set_search_path : Py unit :=
  cursor_execute "SET statement_timeout TO 8000" ;;
  cursor_execute ("SET search_path TO " +:+ fstr PGUSER +:+ ", public").

Definition fetch_df (sql : stmt) (ps : option params) : Py DataFrame :=
  try_except
    (engine_connect _set_search_path (read_sql sql (default ∅ ps)))
    (fun e => show (st_error ("Query failed: " +:+ exn_str e)) ;;
              ret empty_frame).

Definition fetch_users : Py DataFrame := fetch_df C_users None.
Definition fetch_artists : Py DataFrame := fetch_df C_artists None.
Definition fetch_albums : Py DataFrame := fetch_df C_albums None.
Definition fetch_songs (limit : Z) : Py DataFrame :=
  let sql := C_songs in
  fetch_df sql (Some {[ "lim" := VInt limit ]}).
Definition fetch_playlists : Py DataFrame := fetch_df C_playlists None.

(** The shape all twelve mutation helpers share:
    [with engine.begin() as conn: df = pd.read_sql(text(sql), conn, params)]
    and then [return df.iloc[0].to_dict() if not df.empty else None]. *)
Definition mutate (sql : stmt) (ps : params) : Py (option record) :=
  df ← engine_begin _set_search_path (read_sql sql ps);
  ret (if negb (df_empty df) then iloc0_to_dict df else None).

(** SONG CRUD *)
Definition insert_song (name : string) (date_released : Z)
  : Py (option record) :=
  let sql := INSERT_song in
  mutate sql (<["n" := VText name]> {[ "d" := VDate date_released ]}).

Definition update_song (sid : Z) (name : string) (date_released : Z)
  : Py (option record) :=
  let sql := UPDATE_song in
  mutate sql (<["sid" := VInt sid]> (<["n" := VText name]>
                {[ "d" := VDate date_released ]})).

Definition delete_song (sid : Z) : Py (option record) :=
  let sql := DELETE_song in
  mutate sql {[ "sid" := VInt sid ]}.

(** ARTIST CRUD *)
Definition insert_artist (name : string) (location : option string)
  : Py (option record) :=
  let sql := INSERT_artist in
  mutate sql (<["n" := VText name]> {[ "l" := text_or_null location ]}).

Definition update_artist (aid : Z) (name : string)
    (location : option string) : Py (option record) :=
  let sql := UPDATE_artist in
  mutate sql (<["aid" := VInt aid]> (<["n" := VText name]>
                {[ "l" := text_or_null location ]})).

Definition delete_artist (aid : Z) : Py (option record) :=
  let sql := DELETE_artist in
  mutate sql {[ "aid" := VInt aid ]}.

(** USER CRUD *)
Definition insert_user (username : string) : Py (option record) :=
  let sql := INSERT_user in
  mutate sql {[ "n" := VText username ]}.

Definition update_user (uid : Z) (username : string) : Py (option record) :=
  let sql := UPDATE_user in
  mutate sql (<["uid" := VInt uid]> {[ "n" := VText username ]}).

Definition delete_user (uid : Z) : Py (option record) :=
  let sql := DELETE_user in
  mutate sql {[ "uid" := VInt uid ]}.

(** PLAYLIST CRUD *)
Definition insert_playlist (name : string) (num_songs : Z)
  : Py (option record) :=
  let sql := INSERT_playlist in
  mutate sql (<["n" := VText name]> {[ "ns" := VInt num_songs ]}).

Definition update_playlist (pid : Z) (name : string) (num_songs : Z)
  : Py (option record) :=
  let sql := UPDATE_playlist in
  mutate sql (<["pid" := VInt pid]> (<["n" := VText name]>
                {[ "ns" := VInt num_songs ]})).

Definition delete_playlist (pid : Z) : Py (option record) :=
  let sql := DELETE_playlist in
  mutate sql {[ "pid" := VInt pid ]}.

(** The flash loop at the head of a tab: show each pending record once,
    then clear it. *)
Definition flash_one (what : string) (shown : record → list value)
    (key msg : string) : Py unit :=
  fun w => match session_state w !! key with
           | Some rec =>
               if rec_truthy (Some rec)
               then (show (st_success (msg +:+ " " +:+ what) (shown rec)) ;;
                     fun w' => (Ok tt, with_session_state w'
                                         (delete key (session_state w'))))
                      w
               else (Ok tt, w)
           | None => (Ok tt, w)
           end.

Definition flash (what : string) (shown : record → list value) : Py unit :=
  flash_one what shown "just_inserted" "Inserted" ;;
  flash_one what shown "just_updated" "Updated" ;;
  flash_one what shown "just_deleted" "Deleted".

(** [if rec: st.session_state.<key> = rec; st.rerun()] *)
Definition remember (key : string) (rec : option record) : Py unit :=
  match rec with
  | Some r =>
      if rec_truthy rec
      then (fun w => (Ok tt, with_session_state w
                               (<[key := r]> (session_state w)))) ;;
           st_rerun
      else ret tt
  | None => ret tt
  end.

(** TAB 1: USERS CRUD *)
Definition tab1 (a : action) : Py unit :=
  flash "user"
    (fun rec => [rec_get rec "username" (rec_get rec "userName" (VText "N/A"));
                 rec_get rec "userid" (rec_get rec "userID" (VText "N/A"))]) ;;
  users ← fetch_users;
  show (st_dataframe users) ;;
  match a with
  | Insert_User username =>
      if negb (truthy (Some (strip username)))
      then show (st_warning "Username is required.")
      else rec ← insert_user (strip username); remember "just_inserted" rec
  | _ => ret tt
  end ;;
  let user_choices := dict_keys (int_column "userid" users) in
  (if df_empty users then show (st_caption "No users to update.")
   else match a with
        | Update_User picked new_username =>
            match selectbox user_choices picked with
            | Some sel_uid =>
                 rec ← update_user sel_uid (strip new_username);
                 remember "just_updated" rec
            | None => ret tt
            end
        | _ => ret tt
        end) ;;
  (if df_empty users then show (st_caption "No users to delete.")
   else match a with
        | Delete_User picked confirm =>
            if negb confirm
            then show (st_warning "Please confirm before deleting.")
            else match selectbox user_choices picked with
                 | Some del_uid =>
                     rec ← delete_user del_uid; remember "just_deleted" rec
                 | None => ret tt
                 end
        | _ => ret tt
        end).

(** TAB 2: ARTISTS CRUD *)
Definition tab2 (a : action) : Py unit :=
  flash "artist"
    (fun rec => [rec_get rec "artist_name" (VText "N/A");
                 rec_get rec "artistid" (VText "N/A")]) ;;
  artists ← fetch_artists;
  show (st_dataframe artists) ;;
  match a with
  | Insert_Artist artist_name artist_location =>
      if negb (truthy (Some (strip artist_name)))
      then show (st_warning "Artist name is required.")
      else rec ← insert_artist (strip artist_name)
                   (or_None (strip artist_location));
           remember "just_inserted" rec
  | _ => ret tt
  end ;;
  let artist_choices := dict_keys (int_column "artistid" artists) in
  (if df_empty artists then show (st_caption "No artists to update.")
   else match a with
        | Update_Artist picked new_name new_location =>
            match selectbox artist_choices picked with
            | Some sel_aid =>
                 rec ← update_artist sel_aid (strip new_name)
                         (or_None (strip new_location));
                 remember "just_updated" rec
            | None => ret tt
            end
        | _ => ret tt
        end) ;;
  (if df_empty artists then show (st_caption "No artists to delete.")
   else match a with
        | Delete_Artist picked confirm =>
            if negb confirm
            then show (st_warning "Please confirm before deleting.")
            else match selectbox artist_choices picked with
                 | Some del_aid =>
                     rec ← delete_artist del_aid;
                     remember "just_deleted" rec
                 | None => ret tt
                 end
        | _ => ret tt
        end).

(** TAB 3: SONGS CRUD *)
Definition tab3 (row_limit : Z) (a : action) : Py unit :=
  flash "song"
    (fun rec => [rec_get rec "songname" (rec_get rec "songName" (VText "N/A"));
                 rec_get rec "song_id" (VText "N/A")]) ;;
  songs ← fetch_songs row_limit;
  show (st_dataframe songs) ;;
  match a with
  | Insert_Song song_name date_released =>
      if negb (truthy (Some (strip song_name)))
      then show (st_warning "Song name is required.")
      else rec ← insert_song (strip song_name) date_released;
           remember "just_inserted" rec
  | _ => ret tt
  end ;;
  let song_choices := dict_keys (int_column "song_id" songs) in
  (if df_empty songs then show (st_caption "No songs to update.")
   else match a with
        | Update_Song picked new_song_name new_date =>
            match selectbox song_choices picked with
            | Some sel_sid =>
                 rec ← update_song sel_sid (strip new_song_name) new_date;
                 remember "just_updated" rec
            | None => ret tt
            end
        | _ => ret tt
        end) ;;
  (if df_empty songs then show (st_caption "No songs to delete.")
   else match a with
        | Delete_Song picked confirm =>
            if negb confirm
            then show (st_warning "Please confirm before deleting.")
            else match selectbox song_choices picked with
                 | Some del_sid =>
                     rec ← delete_song del_sid; remember "just_deleted" rec
                 | None => ret tt
                 end
        | _ => ret tt
        end).

(** TAB 4: ALBUMS (READ ONLY) *)
Definition tab4 : Py unit :=
  albums ← fetch_albums;
  show (st_dataframe albums) ;;
  show (st_info "Album CRUD coming soon! For now, you can view albums here.").

(** TAB 5: PLAYLISTS CRUD *)
Definition tab5 (a : action) : Py unit :=
  flash "playlist"
    (fun rec => [rec_get rec "playlist_name" (VText "N/A");
                 rec_get rec "playlistid" (VText "N/A")]) ;;
  playlists ← fetch_playlists;
  show (st_dataframe playlists) ;;
  match a with
  | Insert_Playlist playlist_name entered =>
      let num_songs := number_input 0 None 0 entered in
      if negb (truthy (Some (strip playlist_name)))
      then show (st_warning "Playlist name is required.")
      else rec ← insert_playlist (strip playlist_name) num_songs;
           remember "just_inserted" rec
  | _ => ret tt
  end ;;
  let playlist_choices := dict_keys (int_column "playlistid" playlists) in
  (if df_empty playlists then show (st_caption "No playlists to update.")
   else match a with
        | Update_Playlist picked new_playlist_name entered =>
            match selectbox playlist_choices picked with
            | Some sel_pid =>
                match current_int playlists "playlistid" sel_pid
                        "num_songs" with
                | Some current =>
                    if decide (current < 0)
                    then raise (ValueError "value is below min_value")
                    else
                      let new_num_songs :=
                        number_input 0 None current entered in
                      rec ← update_playlist sel_pid
                              (strip new_playlist_name) new_num_songs;
                      remember "just_updated" rec
                | None =>
                    raise (ValueError "int() argument must be a number")
                end
            | None => ret tt
            end
        | _ => ret tt
        end) ;;
  (if df_empty playlists then show (st_caption "No playlists to delete.")
   else match a with
        | Delete_Playlist picked confirm =>
            if negb confirm
            then show (st_warning "Please confirm before deleting.")
            else match selectbox playlist_choices picked with
                 | Some del_pid =>
                     rec ← delete_playlist del_pid;
                     remember "just_deleted" rec
                 | None => ret tt
                 end
        | _ => ret tt
        end).

(** The whole script, top to bottom. *)
Definition script (v : Visitor) : Py unit :=
  (if negb (all [truthy PGDATABASE; truthy PGUSER; truthy PGPASSWORD])
   then
     show (st_error "Missing DB credentials. Please set PGDATABASE, PGUSER, and PGPASSWORD in your .env file.") ;;
     st_stop
   else ret tt) ;;
  _ ← create_engine;
  let row_limit := number_input 1 (Some 2000) 200 (row_limit_entered v) in
  tab1 (act v) ;;
  tab2 (act v) ;;
  tab3 row_limit (act v) ;;
  tab4 ;;
  tab5 (act v).
End globals.

(** One run of the script in environment [env] (after [load_dotenv()]). *)
Definition main (env : gmap string string) (v : Visitor) : Py unit :=
  script (getenv_default env "PGHOST" "localhost")
    (getenv_default env "PGPORT" "5432")
    (getenv env "PGDATABASE") (getenv env "PGUSER") (getenv env "PGPASSWORD")
    v.

End app_full_crud.

(** * Vocabulary for the properties *)

(** The four entities the CRUD front-end mutates, and the keys a database
    state holds for each. *)
Inductive entity := E_User | E_Artist | E_Song | E_Playlist.

Definition ids (e : entity) (db : DB) : list Z :=
  match e with
  | E_User => userID <$> User_table db
  | E_Artist => artistID <$> Artist_table db
  | E_Song => song_id <$> Song_table db
  | E_Playlist => playlistID <$> Playlist_table db
  end.

Definition rows (e : entity) (db : DB) : nat :=
  match e with
  | E_User => length (User_table db)
  | E_Artist => length (Artist_table db)
  | E_Song => length (Song_table db)
  | E_Playlist => length (Playlist_table db)
  end.

(** The last value the sequence of entity [e] has handed out. *)
Definition last_key (e : entity) (sq : Sequences) : Z :=
  match e with
  | E_User => seq_user sq
  | E_Artist => seq_artist sq
  | E_Song => seq_song sq
  | E_Playlist => seq_playlist sq
  end.

(** The keys of entity [e] are values its sequence has handed out: none
    is beyond the last one.  An empty table is so, and the statements of
    the mutation helpers keep a table so. *)
Definition keys_from_sequence (e : entity) (s : Server) : Prop :=
  ∀ id, id ∈ ids e (tables s) → id ≤ last_key e (sequences s).

(** A call of one of the twelve mutation helpers. *)
Inductive mutation :=
  | insert_song_ (name : string) (date_released : Z)
  | update_song_ (sid : Z) (name : string) (date_released : Z)
  | delete_song_ (sid : Z)
  | insert_artist_ (name : string) (location : option string)
  | update_artist_ (aid : Z) (name : string) (location : option string)
  | delete_artist_ (aid : Z)
  | insert_user_ (username : string)
  | update_user_ (uid : Z) (username : string)
  | delete_user_ (uid : Z)
  | insert_playlist_ (name : string) (num_songs : Z)
  | update_playlist_ (pid : Z) (name : string) (num_songs : Z)
  | delete_playlist_ (pid : Z).

Definition call (PGUSER : option string) (m : mutation)
  : Py (option (gmap string value)) :=
  match m with
  | insert_song_ n d => app_full_crud.insert_song PGUSER n d
  | update_song_ sid n d => app_full_crud.update_song PGUSER sid n d
  | delete_song_ sid => app_full_crud.delete_song PGUSER sid
  | insert_artist_ n l => app_full_crud.insert_artist PGUSER n l
  | update_artist_ aid n l => app_full_crud.update_artist PGUSER aid n l
  | delete_artist_ aid => app_full_crud.delete_artist PGUSER aid
  | insert_user_ n => app_full_crud.insert_user PGUSER n
  | update_user_ uid n => app_full_crud.update_user PGUSER uid n
  | delete_user_ uid => app_full_crud.delete_user PGUSER uid
  | insert_playlist_ n ns => app_full_crud.insert_playlist PGUSER n ns
  | update_playlist_ pid n ns => app_full_crud.update_playlist PGUSER pid n ns
  | delete_playlist_ pid => app_full_crud.delete_playlist PGUSER pid
  end.

(** The statement a helper sends and the parameters it binds. *)
Definition statement_of (m : mutation) : stmt :=
  match m with
  | insert_song_ _ _ => INSERT_song
  | update_song_ _ _ _ => UPDATE_song
  | delete_song_ _ => DELETE_song
  | insert_artist_ _ _ => INSERT_artist
  | update_artist_ _ _ _ => UPDATE_artist
  | delete_artist_ _ => DELETE_artist
  | insert_user_ _ => INSERT_user
  | update_user_ _ _ => UPDATE_user
  | delete_user_ _ => DELETE_user
  | insert_playlist_ _ _ => INSERT_playlist
  | update_playlist_ _ _ _ => UPDATE_playlist
  | delete_playlist_ _ => DELETE_playlist
  end.

Definition params_of (m : mutation) : params :=
  match m with
  | insert_song_ n d => <["n" := VText n]> {[ "d" := VDate d ]}
  | update_song_ sid n d =>
      <["sid" := VInt sid]> (<["n" := VText n]> {[ "d" := VDate d ]})
  | delete_song_ sid => {[ "sid" := VInt sid ]}
  | insert_artist_ n l => <["n" := VText n]> {[ "l" := text_or_null l ]}
  | update_artist_ aid n l =>
      <["aid" := VInt aid]> (<["n" := VText n]> {[ "l" := text_or_null l ]})
  | delete_artist_ aid => {[ "aid" := VInt aid ]}
  | insert_user_ n => {[ "n" := VText n ]}
  | update_user_ uid n => <["uid" := VInt uid]> {[ "n" := VText n ]}
  | delete_user_ uid => {[ "uid" := VInt uid ]}
  | insert_playlist_ n ns => <["n" := VText n]> {[ "ns" := VInt ns ]}
  | update_playlist_ pid n ns =>
      <["pid" := VInt pid]> (<["n" := VText n]> {[ "ns" := VInt ns ]})
  | delete_playlist_ pid => {[ "pid" := VInt pid ]}
  end.

Definition delete_of (e : entity) (id : Z) : mutation :=
  match e with
  | E_User => delete_user_ id
  | E_Artist => delete_artist_ id
  | E_Song => delete_song_ id
  | E_Playlist => delete_playlist_ id
  end.

(** [after] holds the rows of [before], each as often as before, but
    for the rows keyed [id], which are replaced by [new]; where in the heap
    the rows lie is left open. *)
Definition rewritten {R : Type} (key : R → Z) (id : Z) (new : R)
    (before after : list R) : Prop :=
  after ≡ₚ (fun r => if decide (key r = id) then new else r) <$> before.

(** The store's own answer to the statement of [m] in world [w]. *)
Definition store_answer (m : mutation) (w : World) : Sequences * answer :=
  pg_exec (on_delete (server w)) (statement_of m) (params_of m)
    (sequences (server w)) (tables (server w)).

(** The session directives a fresh physical connection receives. *)
Definition directives (PGUSER : option string) : list string :=
  ["SET statement_timeout TO 8000";
   "SET search_path TO " +:+ fstr PGUSER +:+ ", public"].

(** What goes over the wire before the statement itself: nothing on a
    pooled connection, the directives on a new one. *)
Definition handshake (PGUSER : option string) (w : World)
  : list (string * params) :=
  match pool w with
  | Some _ => []
  | None => (fun t => (t, ∅)) <$> directives PGUSER
  end.

(** Whether the store took the statement. *)
Definition accepted {E A : Type} (x : E + A) : bool :=
  match x with inl _ => false | inr _ => true end.

(** The connection the pool holds once a statement has gone through: a
    connection that was pooled before keeps the directives it had; on a
    new one the listener's directives stay when the block commits
    ([kept]) and are undone when it rolls back. *)
Definition pooled (kept : bool) (PGUSER : option string) (w : World)
  : option Session :=
  Some (mkSession
          match pool w with
          | Some ss => settings ss
          | None => if kept then directives PGUSER else []
          end [] None).

(** The select list after [RETURNING], read off the statement text. *)
Fixpoint strip_prefix (p s : string) : option string :=
  match p, s with
  | EmptyString, _ => Some s
  | String a p', String b s' =>
      if Ascii.eqb a b then strip_prefix p' s' else None
  | String _ _, EmptyString => None
  end.

Fixpoint after (kw s : string) : option string :=
  match strip_prefix kw s with
  | Some rest => Some rest
  | None => match s with
            | EmptyString => None
            | String _ s' => after kw s'
            end
  end.

Fixpoint split_list (s cur : string) : list string :=
  match s with
  | EmptyString => [String.rev cur]
  | String "," (String " " s') => String.rev cur :: split_list s' EmptyString
  | String c s' => split_list s' (String c cur)
  end.

Definition returning_clause (sql : string) : list string :=
  match after "RETURNING " sql with
  | Some rest => split_list rest EmptyString
  | None => []
  end.

(** The list operations of the two applications: the viewer's tables and
    joined views, and the five [fetch_*] helpers of the CRUD front-end. *)
Inductive listing :=
  | list_users | list_songs | songs_with_artist | list_albums
  | albums_with_artist | list_artists | artist_song_counts | list_playlists
  | playlists_with_creator | playlist_picker | playlist_songs (pid : Z)
  | user_likes | album_tracks | most_liked_songs | user_activity
  | user_song_network | top_songs
  | fetch_users_ | fetch_artists_ | fetch_albums_ | fetch_songs_
  | fetch_playlists_.

(** Each one as its application calls it, [row_limit] being the value of
    the page's "Row limit" widget. *)
Definition list_ (PGUSER : option string) (l : listing) (row_limit : Z)
  : Py DataFrame :=
  match l with
  | list_users => app.fetch_df PGUSER V_users (app.lim row_limit)
  | list_songs => app.fetch_df PGUSER V_songs (app.lim row_limit)
  | songs_with_artist =>
      app.fetch_df PGUSER V_songs_artists (app.lim row_limit)
  | list_albums => app.fetch_df PGUSER V_albums (app.lim row_limit)
  | albums_with_artist =>
      app.fetch_df PGUSER V_albums_artists (app.lim row_limit)
  | list_artists => app.fetch_df PGUSER V_artists (app.lim row_limit)
  | artist_song_counts =>
      app.fetch_df PGUSER V_artist_song_counts (app.lim row_limit)
  | list_playlists => app.fetch_df PGUSER V_playlists (app.lim row_limit)
  | playlists_with_creator =>
      app.fetch_df PGUSER V_playlists_creators (app.lim row_limit)
  | playlist_picker => app.fetch_df PGUSER V_playlist_picker None
  | playlist_songs pid =>
      app.fetch_df PGUSER V_playlist_songs (Some {[ "pid" := VInt pid ]})
  | user_likes => app.fetch_df PGUSER V_user_likes (app.lim row_limit)
  | album_tracks => app.fetch_df PGUSER V_album_tracks (app.lim row_limit)
  | most_liked_songs => app.fetch_df PGUSER V_most_liked (app.lim row_limit)
  | user_activity => app.fetch_df PGUSER V_user_activity (app.lim row_limit)
  | user_song_network => app.fetch_df PGUSER V_network None
  | top_songs => app.fetch_df PGUSER V_top_songs None
  | fetch_users_ => app_full_crud.fetch_users PGUSER
  | fetch_artists_ => app_full_crud.fetch_artists PGUSER
  | fetch_albums_ => app_full_crud.fetch_albums PGUSER
  | fetch_songs_ => app_full_crud.fetch_songs PGUSER row_limit
  | fetch_playlists_ => app_full_crud.fetch_playlists PGUSER
  end.

(** The statement behind each listing and the parameters bound to it. *)
Definition listing_stmt (l : listing) : stmt :=
  match l with
  | list_users => V_users
  | list_songs => V_songs
  | songs_with_artist => V_songs_artists
  | list_albums => V_albums
  | albums_with_artist => V_albums_artists
  | list_artists => V_artists
  | artist_song_counts => V_artist_song_counts
  | list_playlists => V_playlists
  | playlists_with_creator => V_playlists_creators
  | playlist_picker => V_playlist_picker
  | playlist_songs _ => V_playlist_songs
  | user_likes => V_user_likes
  | album_tracks => V_album_tracks
  | most_liked_songs => V_most_liked
  | user_activity => V_user_activity
  | user_song_network => V_network
  | top_songs => V_top_songs
  | fetch_users_ => C_users
  | fetch_artists_ => C_artists
  | fetch_albums_ => C_albums
  | fetch_songs_ => C_songs
  | fetch_playlists_ => C_playlists
  end.

Definition listing_params (l : listing) (row_limit : Z) : params :=
  match l with
  | playlist_picker | user_song_network | top_songs
  | fetch_users_ | fetch_artists_ | fetch_albums_ | fetch_playlists_ => ∅
  | playlist_songs pid => {[ "pid" := VInt pid ]}
  | _ => {[ "lim" := VInt row_limit ]}
  end.

(** The most rows a listing can return: the page's row limit, a constant
    written into the statement, or no bound at all. *)
Definition bound_of (l : listing) (row_limit : Z) : option Z :=
  match l with
  | playlist_picker | playlist_songs _
  | fetch_users_ | fetch_artists_ | fetch_albums_ | fetch_playlists_ => None
  | user_song_network => Some 500
  | top_songs => Some 5
  | _ => Some row_limit
  end.

Inductive ordering :=
  | Unordered
  | Ascending (c : string)
  | Descending (c : string)
  | Ascending2 (c1 c2 : string).

(** The [ORDER BY] of each listing, by result column. *)
Definition ordering_of (l : listing) : ordering :=
  match l with
  | list_users | fetch_users_ => Ascending "userid"
  | list_songs | songs_with_artist | fetch_songs_ => Ascending "song_id"
  | list_albums | fetch_albums_ => Ascending "albumid"
  | albums_with_artist => Descending "release_date"
  | list_artists | fetch_artists_ => Ascending "artistid"
  | artist_song_counts => Descending "song_count"
  | list_playlists | playlists_with_creator | playlist_picker
  | fetch_playlists_ => Ascending "playlistid"
  | playlist_songs _ => Ascending "position"
  | user_likes => Descending "liked_date"
  | album_tracks => Ascending2 "album_name" "track_number"
  | most_liked_songs | top_songs => Descending "like_count"
  | user_activity => Descending "songs_liked"
  | user_song_network => Unordered
  end.

(** Order on cells of one type. *)
Definition value_le (a b : value) : Prop :=
  match a, b with
  | VInt x, VInt y | VDate x, VDate y => x ≤ y
  | VText x, VText y => String.le x y
  | _, _ => False
  end.

Definition pair_le (a b : value * value) : Prop :=
  a.1 ≠ b.1 ∧ value_le a.1 b.1 ∨ a.1 = b.1 ∧ value_le a.2 b.2.

(** A frame is ordered by a column when the column is there for every row
    and its cells are sorted. *)
Definition ordered_by (o : ordering) (df : DataFrame) : Prop :=
  match o with
  | Unordered => True
  | Ascending c =>
      length (df_column c df) = df_len df ∧ Sorted value_le (df_column c df)
  | Descending c =>
      length (df_column c df) = df_len df ∧
      Sorted (flip value_le) (df_column c df)
  | Ascending2 c1 c2 =>
      length (df_column c1 df) = df_len df ∧
      length (df_column c2 df) = df_len df ∧
      Sorted pair_le (zip (df_column c1 df) (df_column c2 df))
  end.

(** An operation of the data-access layer with the values its caller
    supplies. *)
Inductive operation :=
  | List_ (l : listing) (row_limit : Z)
  | Mutate_ (m : mutation).

(** Two calls of the same operation, whatever values they carry. *)
Definition listing_name (l : listing) : listing :=
  match l with playlist_songs _ => playlist_songs 0 | _ => l end.

Definition same_operation (o o' : operation) : Prop :=
  match o, o' with
  | List_ l _, List_ l' _ => listing_name l = listing_name l'
  | Mutate_ m, Mutate_ m' => statement_of m = statement_of m'
  | _, _ => False
  end.

Definition run (PGUSER : option string) (o : operation) : Py unit :=
  match o with
  | List_ l row_limit => _ ← list_ PGUSER l row_limit; ret tt
  | Mutate_ m => _ ← call PGUSER m; ret tt
  end.

(** The SQL texts a computation puts on the wire, in order. *)
Definition sent {A} (m : Py A) (w : World) : list string :=
  fst <$> drop (length (wire w)) (wire (m w).2).

Definition operation_stmt (o : operation) : stmt :=
  match o with
  | List_ l _ => listing_stmt l
  | Mutate_ m => statement_of m
  end.

(** Whatever [m] puts on the wire satisfies [P]. *)
Definition sends {A} (P : string * params → Prop) (m : Py A) : Prop :=
  ∀ w, ∃ new, wire (m w).2 = wire w ++ new ∧ Forall P new.

(** Every statement of the catalogue. *)
Definition catalogue : list stmt :=
  [V_users; V_songs; V_songs_artists; V_albums; V_albums_artists; V_artists;
   V_artist_song_counts; V_playlists; V_playlists_creators;
   V_playlist_picker; V_playlist_songs; V_user_likes; V_album_tracks;
   V_most_liked; V_user_activity; V_network; V_top_songs; V_avg_songs;
   C_users; C_artists; C_albums; C_songs; C_playlists;
   INSERT_song; UPDATE_song; DELETE_song;
   INSERT_artist; UPDATE_artist; DELETE_artist;
   INSERT_user; UPDATE_user; DELETE_user;
   INSERT_playlist; UPDATE_playlist; DELETE_playlist].

(** A wire entry whose [:lim], if it binds one, is an integer the
    "Row limit" widget can hold. *)
Definition lim_in_range (entry : string * params) : Prop :=
  ∀ v, entry.2 !! "lim" = Some v → ∃ n, v = VInt n ∧ 1 ≤ n ≤ 2000.

(** ** Sample worlds *)

Definition no_rows : DB := mkDB [] [] [] [] [] [] [] [] [] [] [].

(** A small catalogue: two artists, one of them without songs; two songs,
    one of them without a producing artist and without likes. *)
Definition sample_db : DB :=
  mkDB [mkUser 2 "bob"; mkUser 1 "amy"]
    [mkArtist 1 "Ann" None; mkArtist 2 "Ben" (Some "Testville")]
    [mkSong 1 "First" 19000; mkSong 2 "Test Song" 19723]
    [mkAlbum 1 "Debut" 19001]
    [mkPlaylist 1 "Mix" 1]
    [mkProduces 1 1] [mkRecords 1 1] [mkContains 1 1 1] [mkSaves 1 1 1]
    [mkCreates 1 1] [mkLikes 1 1 19100; mkLikes 2 1 19200].

Definition sample_world : World :=
  mkWorld (mkServer sample_db (mkSeq 2 2 2 1) NoAction None) None [] [] ∅.

(** The same world with the store unreachable. *)
Definition world_down : World :=
  mkWorld (mkServer sample_db (mkSeq 2 2 2 1) NoAction
             (Some "connection refused")) None [] [] ∅.

Definition sample_env : gmap string string :=
  <["PGDATABASE" := "music"]> (<["PGUSER" := "hawk"]>
    {[ "PGPASSWORD" := "secret" ]}).

(** [PGPASSWORD] is not set. *)
Definition partial_env : gmap string string :=
  <["PGDATABASE" := "music"]> {[ "PGUSER" := "hawk" ]}.


(** * Vocabulary for further properties *)

(** The keys of entity [e] that association rows point at. *)
Definition referenced (e : entity) (db : DB) : list Z :=
  match e with
  | E_User =>
      (cr_userID <$> Creates_table db) ++ (lk_userID <$> Likes_table db)
  | E_Artist =>
      (pr_artistID <$> Produces_table db) ++
      (rc_artistID <$> Records_table db)
  | E_Song =>
      (pr_song_id <$> Produces_table db) ++
      (ct_song_id <$> Contains_table db) ++
      (sv_song_id <$> Saves_table db) ++ (lk_song_id <$> Likes_table db)
  | E_Playlist =>
      (sv_playlistID <$> Saves_table db) ++
      (cr_playlistID <$> Creates_table db)
  end.

(** What a computation keeps: from a world in [P] it either ends normally
    in a world in [Q], or raises an exception in [Ex] leaving a world in
    [J]. *)
Definition holds {A} (P Q J : World → Prop) (Ex : exn → Prop) (m : Py A)
  : Prop :=
  ∀ w, P w → match (m w).1 with
             | Ok _ => Q (m w).2
             | Raise e => J (m w).2 ∧ Ex e
             end.

(** Exceptions other than the driver's. *)
Definition not_from_store (e : exn) : Prop :=
  match e with DBAPIError _ => False | _ => True end.

(** What the forms of the CRUD front-end hold back: nothing was submitted,
    the name field is blank, or the deletion is not confirmed. *)
Definition held_back (a : app_full_crud.action) : Prop :=
  match a with
  | app_full_crud.Idle => True
  | app_full_crud.Insert_User n | app_full_crud.Insert_Artist n _
  | app_full_crud.Insert_Song n _ | app_full_crud.Insert_Playlist n _ =>
      strip n = ""
  | app_full_crud.Delete_User _ c | app_full_crud.Delete_Artist _ c
  | app_full_crud.Delete_Song _ c | app_full_crud.Delete_Playlist _ c =>
      c = false
  | _ => False
  end.

(** The exceptions that end a run without a mutation behind them. *)
Definition no_rerun (e : exn) : Prop :=
  match e with DBAPIError _ | RerunException => False | _ => True end.

(** The three keys of the session state that hold flash records. *)
Definition flash_keys : list string :=
  ["just_inserted"; "just_updated"; "just_deleted"].

(** No flash record is waiting to be shown. *)
Definition calm (w : World) : Prop :=
  ∀ key rec, key ∈ flash_keys → session_state w !! key = Some rec →
             app_full_crud.rec_truthy (Some rec) = false.

(** A page element that is not a confirmation, or is one of the Users
    tab. *)
Definition user_confirmation (el : element) : Prop :=
  match el with
  | st_success msg _ =>
      msg ∈ ["Inserted user"; "Updated user"; "Deleted user"]
  | _ => True
  end.

(** The page has grown from that of [w0] by elements in [P] only. *)
Definition grown (P : element → Prop) (w0 w : World) : Prop :=
  ∃ new, page w = page w0 ++ new ∧ Forall P new.

(** The flash loop of a tab, as the source writes it: the keys in order,
    each with the word its confirmation starts with. *)
Definition flash_labels : list (string * string) :=
  [("just_inserted", "Inserted"); ("just_updated", "Updated");
   ("just_deleted", "Deleted")].

(** The confirmations a flash loop over [labels] owes for session state
    [st]. *)
Definition pending (what : string) (shown : gmap string value → list value)
    (st : gmap string (gmap string value)) (labels : list (string * string))
  : list element :=
  omap (fun km : string * string =>
          match st !! km.1 with
          | Some rec =>
              if app_full_crud.rec_truthy (Some rec)
              then Some (st_success (km.2 +:+ " " +:+ what) (shown rec))
              else None
          | None => None
          end) labels.

(** * [app.py]: the user-song network

    The loop that turns the frame of the network query into the graph the
    page draws. *)

(** [nx.Graph]: the attribute dict of every node, and the adjacency as a
    symmetric set of pairs. *)
Record Graph := mkGraph {
  nodes : gmap string (gmap string value);
  adj : gset (string * string)
}.

Definition empty_graph : Graph := mkGraph ∅ ∅.

Definition has_node (G : Graph) (n : string) : bool :=
  bool_decide (is_Some (nodes G !! n)).

(** [G.add_node(n, **attrs)]: a new node gets [attrs]; on a node that is
    there, [attrs] update its dict. *)
Definition add_node (G : Graph) (n : string) (attrs : gmap string value)
  : Graph :=
  mkGraph (<[n := attrs ∪ default ∅ (nodes G !! n)]> (nodes G)) (adj G).

(** [G.add_edge(u, v)]: both ends become nodes if they are not, and each
    becomes a neighbour of the other. *)
Definition add_edge (G : Graph) (u v : string) : Graph :=
  let ns := <[u := default ∅ (nodes G !! u)]> (nodes G) in
  mkGraph (<[v := default ∅ (ns !! v)]> ns) ({[ (u, v); (v, u) ]} ∪ adj G).

Definition has_edge (G : Graph) (u v : string) : Prop := (u, v) ∈ adj G.

Definition user_attrs (user : string) : gmap string value :=
  <["color" := VText "#0CECA1"]> (<["size" := VInt 25]>
    {[ "title" := VText ("User: " +:+ user) ]}).

Definition song_attrs (song artist : string) : gmap string value :=
  <["color" := VText "#8980DF"]> (<["size" := VInt 20]>
    {[ "title" := VText ("Song: " +:+ song +:+ String (ascii_of_nat 10)
                           ("Artist: " +:+ artist)) ]}).

(** The body of the loop for one row. *)
Definition add_row (G : Graph) (row : string * string * string) : Graph :=
  let user := row.1.1 in
  let song := row.1.2 in
  let artist := row.2 in
  let G1 := if negb (has_node G user)
            then add_node G user (user_attrs user) else G in
  let song_label := song in
  let G2 := if negb (has_node G1 song_label)
            then add_node G1 song_label (song_attrs song artist) else G1 in
  add_edge G2 user song_label.

(** [row['username']], [row['songname']] and [row['artist_name']] of every
    row of the frame.  The three columns hold text in every frame the
    network query returns; a frame where they do not is outside this
    model ([None]). *)
Definition text_cell (row : list value) (i : nat) : option string :=
  match row !! i with Some (VText s) => Some s | _ => None end.

Definition iterrows (df : DataFrame)
  : option (list (string * string * string)) :=
  (i ← col_index "username" (columns df);
   j ← col_index "songname" (columns df);
   k ← col_index "artist_name" (columns df);
   mapM (fun row => u ← text_cell row i; s ← text_cell row j;
                    a ← text_cell row k; Some (u, s, a)) (data df))%stdpp.

(** [G = nx.Graph()] and the loop over [df_rel.iterrows()]. *)
Definition user_song_graph (df_rel : DataFrame) : option Graph :=
  foldl add_row empty_graph <$> iterrows df_rel.

(** An insert form of the CRUD front-end submitted with a name. *)
Definition submits_insert (a : app_full_crud.action) : bool :=
  match a with
  | app_full_crud.Insert_User n | app_full_crud.Insert_Artist n _
  | app_full_crud.Insert_Song n _ | app_full_crud.Insert_Playlist n _ =>
      truthy (Some (strip n))
  | _ => false
  end.

(** A step that always ends normally and leaves the store and the session
    state as they are. *)
Definition inert {A} (m : Py A) : Prop :=
  ∀ w, (∃ a, (m w).1 = Ok a) ∧ server (m w).2 = server w ∧
       session_state (m w).2 = session_state w.

(** A wire entry whose [:ns], if it binds one, is an integer the "Number of
    Songs" widget can hold. *)
Definition song_count_in_range (entry : string * params) : Prop :=
  ∀ v, entry.2 !! "ns" = Some v → ∃ n, v = VInt n ∧ 0 ≤ n.

(** * Properties *)
(** ** The plumbing *)

Ltac run_py :=
  repeat (unfold app_full_crud.mutate, app_full_crud.fetch_df, app.fetch_df,
            engine_begin, engine_connect, try_finally, try_except, checkout,
            bind, reach, begin_, read_sql, conn_execute, send, commit,
            rollback, ret, raise, show, cursor_execute, in_force,
            app_full_crud._set_search_path, app._set_statement_timeout;
          simpl).

(** A mutation helper against a reachable store: the statement runs once,
    in a transaction of its own; its effect is committed when the store
    accepts it and discarded when the store refuses it, and the refusal
    reaches the caller as an exception.  The directives of a new
    connection share the fate of that transaction. *)
Lemma mutate_up PGUSER sql ps w :
  outage (server w) = None →
  let ans := pg_exec (on_delete (server w)) sql ps (sequences (server w))
               (tables (server w)) in
  let out := app_full_crud.mutate PGUSER sql ps w in
  match ans.2 with
  | inl msg =>
      out.1 = Raise (DBAPIError msg) ∧
      tables (server out.2) = tables (server w)
  | inr (df, db') =>
      out.1 = Ok (if negb (df_empty df) then iloc0_to_dict df else None) ∧
      tables (server out.2) = db'
  end ∧
  sequences (server out.2) = ans.1 ∧
  outage (server out.2) = None ∧
  on_delete (server out.2) = on_delete (server w) ∧
  pool out.2 = pooled (accepted ans.2) PGUSER w ∧
  wire out.2 = wire w ++ handshake PGUSER w ++ [(sql_text sql, ps)] ∧
  page out.2 = page w ∧
  session_state out.2 = session_state w.
Proof.
  intros Hup.
  destruct w as [[db sq fk out] [ss|] wr pg st]; simpl in Hup; subst out;
    run_py; unfold pooled, handshake; simpl;
    destruct (pg_exec fk sql ps sq db) as [sq' [msg|[df db']]]; simpl;
    rewrite ?app_nil_r, <- ?(assoc_L (++)); auto 10.
Qed.

(** The same helper against a store that is out: the driver's error
    reaches the caller, nothing was sent and nothing changed. *)
Lemma mutate_down PGUSER sql ps w msg :
  outage (server w) = Some msg →
  let out := app_full_crud.mutate PGUSER sql ps w in
  out.1 = Raise (DBAPIError msg) ∧
  server out.2 = server w ∧ pool out.2 = None ∧ wire out.2 = wire w ∧
  page out.2 = page w ∧ session_state out.2 = session_state w.
Proof.
  intros Hdown.
  destruct w as [[db sq fk out] [ss|] wr pg st]; simpl in Hdown; subst out;
    run_py; auto 10.
Qed.

(** [fetch_df] against a reachable store: the store's result set, or the
    empty frame and an error box when the store refuses the statement.
    Nothing is committed either way, the directives of a new connection
    included. *)
Lemma fetch_df_up PGUSER sql ps w :
  outage (server w) = None →
  let ans := pg_exec (on_delete (server w)) sql (default ∅ ps)
               (sequences (server w)) (tables (server w)) in
  let out := app.fetch_df PGUSER sql ps w in
  match ans.2 with
  | inl msg =>
      out.1 = Ok empty_frame ∧
      page out.2 = page w ++ [st_error ("DB error: " +:+ msg)]
  | inr (df, _) => out.1 = Ok df ∧ page out.2 = page w
  end ∧
  tables (server out.2) = tables (server w) ∧
  sequences (server out.2) = ans.1 ∧
  outage (server out.2) = None ∧
  on_delete (server out.2) = on_delete (server w) ∧
  pool out.2 = pooled false PGUSER w ∧
  wire out.2 = wire w ++ handshake PGUSER w ++ [(sql_text sql, default ∅ ps)] ∧
  session_state out.2 = session_state w.
Proof.
  intros Hup.
  destruct w as [[db sq fk out] [ss|] wr pg st]; simpl in Hup; subst out;
    run_py; unfold pooled, handshake; simpl;
    destruct (pg_exec fk sql (default ∅ ps) sq db) as [sq' [msg|[df db']]];
    simpl; rewrite ?app_nil_r, <- ?(assoc_L (++)); auto 10.
Qed.

Lemma fetch_df_down PGUSER sql ps w msg :
  outage (server w) = Some msg →
  let out := app.fetch_df PGUSER sql ps w in
  out.1 = Ok empty_frame ∧
  page out.2 = page w ++ [st_error ("DB error: " +:+ msg)] ∧
  server out.2 = server w ∧ pool out.2 = None ∧ wire out.2 = wire w ∧
  session_state out.2 = session_state w.
Proof.
  intros Hdown.
  destruct w as [[db sq fk out] [ss|] wr pg st]; simpl in Hdown; subst out;
    run_py; auto 10.
Qed.

Lemma crud_fetch_df_up PGUSER sql ps w :
  outage (server w) = None →
  let ans := pg_exec (on_delete (server w)) sql (default ∅ ps)
               (sequences (server w)) (tables (server w)) in
  let out := app_full_crud.fetch_df PGUSER sql ps w in
  match ans.2 with
  | inl msg =>
      out.1 = Ok empty_frame ∧
      page out.2 = page w ++ [st_error ("Query failed: " +:+ msg)]
  | inr (df, _) => out.1 = Ok df ∧ page out.2 = page w
  end ∧
  tables (server out.2) = tables (server w) ∧
  sequences (server out.2) = ans.1 ∧
  outage (server out.2) = None ∧
  on_delete (server out.2) = on_delete (server w) ∧
  pool out.2 = pooled false PGUSER w ∧
  wire out.2 = wire w ++ handshake PGUSER w ++ [(sql_text sql, default ∅ ps)] ∧
  session_state out.2 = session_state w.
Proof.
  intros Hup.
  destruct w as [[db sq fk out] [ss|] wr pg st]; simpl in Hup; subst out;
    run_py; unfold pooled, handshake; simpl;
    destruct (pg_exec fk sql (default ∅ ps) sq db) as [sq' [msg|[df db']]];
    simpl; rewrite ?app_nil_r, <- ?(assoc_L (++)); auto 10.
Qed.

Lemma crud_fetch_df_down PGUSER sql ps w msg :
  outage (server w) = Some msg →
  let out := app_full_crud.fetch_df PGUSER sql ps w in
  out.1 = Ok empty_frame ∧
  page out.2 = page w ++ [st_error ("Query failed: " +:+ msg)] ∧
  server out.2 = server w ∧ pool out.2 = None ∧ wire out.2 = wire w ∧
  session_state out.2 = session_state w.
Proof.
  intros Hdown.
  destruct w as [[db sq fk out] [ss|] wr pg st]; simpl in Hdown; subst out;
    run_py; auto 10.
Qed.

(** ** Store failures (claim C1) *)

(** Reads never raise: whatever the store does, [fetch_df] hands its caller
    a frame. *)
Lemma fetch_df_never_raises PGUSER sql ps w :
  (∃ df, (app.fetch_df PGUSER sql ps w).1 = Ok df) ∧
  (∃ df, (app_full_crud.fetch_df PGUSER sql ps w).1 = Ok df).
Proof.
  destruct (outage (server w)) as [msg|] eqn:Hout.
  - destruct (fetch_df_down PGUSER sql ps w msg Hout) as (-> & _).
    destruct (crud_fetch_df_down PGUSER sql ps w msg Hout) as (-> & _).
    eauto.
  - pose proof (fetch_df_up PGUSER sql ps w Hout) as [H1 _].
    pose proof (crud_fetch_df_up PGUSER sql ps w Hout) as [H2 _].
    simpl in H1, H2.
    destruct (pg_exec _ _ _ _ _).2 as [m|[df db']];
      destruct H1 as [-> _]; destruct H2 as [-> _]; eauto.
Qed.

(** Mutations do raise: with the store out, each of the twelve helpers
    passes the driver's error on to its caller and shows nothing. *)
Lemma mutation_raises_when_store_is_out PGUSER m w msg :
  outage (server w) = Some msg →
  (call PGUSER m w).1 = Raise (DBAPIError msg) ∧
  page (call PGUSER m w).2 = page w.
Proof.
  intros Hout.
  assert (call PGUSER m = app_full_crud.mutate PGUSER (statement_of m)
                            (params_of m)) as -> by (by destruct m).
  destruct (mutate_down PGUSER (statement_of m) (params_of m) w msg Hout)
    as (? & _ & _ & _ & ? & _); auto.
Qed.

(** C1, at the failing input: [insert_song("Test Song", 2024-01-01)] while
    the store refuses connections.  The listing of the same table reports
    the failure and returns the empty frame; the insert helper lets the
    exception through to its caller and reports nothing. *)
Theorem insert_song_lets_store_failure_escape :
  let read := app_full_crud.fetch_songs (Some "hawk") 200 world_down in
  let write := call (Some "hawk") (insert_song_ "Test Song" 19723) world_down in
  read.1 = Ok empty_frame ∧
  page read.2 = [st_error "Query failed: connection refused"] ∧
  write.1 = Raise (DBAPIError "connection refused") ∧
  page write.2 = [].
Proof. vm_compute. auto. Qed.

(** ** What a mutation helper returns (claim C10) *)

Ltac eval_params :=
  repeat match goal with
    | |- context [param_int ?ps ?k] =>
        let v := eval vm_compute in (param_int ps k) in
        change (param_int ps k) with v
    | |- context [param_text ?ps ?k] =>
        let v := eval vm_compute in (param_text ps k) in
        change (param_text ps k) with v
    | |- context [param_text_opt ?ps ?k] =>
        let v := eval vm_compute in (param_text_opt ps k) in
        change (param_text_opt ps k) with v
    | |- context [param_date ?ps ?k] =>
        let v := eval vm_compute in (param_date ps k) in
        change (param_date ps k) with v
    end.

Lemma param_location_insert n l :
  param_text_opt (<["n" := VText n]> {[ "l" := text_or_null l ]}) "l" = inr l.
Proof. by destruct l. Qed.

Lemma param_location_update aid n l :
  param_text_opt
    (<["aid" := VInt aid]> (<["n" := VText n]> {[ "l" := text_or_null l ]}))
    "l" = inr l.
Proof. by destruct l. Qed.

(** Unfolds the store's answer to the statement of a given helper call. *)
Ltac answer :=
  unfold store_answer, statement_of, params_of, pg_exec;
  rewrite ?param_location_insert, ?param_location_update;
  eval_params; cbn [on_ok].

Lemma call_mutate PGUSER m :
  call PGUSER m =
  app_full_crud.mutate PGUSER (statement_of m) (params_of m).
Proof. by destruct m. Qed.

(** The frame a mutation statement answers with is labelled by its
    [RETURNING] list, and every row has a cell per label. *)
Lemma returned_frame_shape m w df db' :
  (store_answer m w).2 = inr (df, db') →
  columns df = fold_ident <$> returning_clause (sql_text (statement_of m)) ∧
  Forall (fun r => length r = length (columns df)) (data df).
Proof.
  destruct m; answer; intros H;
    repeat match type of H with
      | context [pk_insert ?k ?r ?t] =>
          unfold pk_insert in H; destruct (decide (k r ∈ k <$> t))
      | context [match ?l with [] => _ | _ :: _ => _ end] => destruct l
      | context [on_ok ?x _] => destruct x; cbn [on_ok] in H
      end;
    simpl in H; try discriminate; injection H as <- <-;
    (split; [reflexivity|]); simpl;
    repeat first
      [ apply Forall_nil_2
      | apply Forall_cons_2; [reflexivity|]
      | apply Forall_fmap, Forall_true; intros []; reflexivity ].
Qed.

Lemma returning_clause_nonempty m :
  returning_clause (sql_text (statement_of m)) ≠ [].
Proof. destruct m; vm_compute; discriminate. Qed.

(** C10: with the store reachable, a mutation helper raises when the store
    refuses its statement; otherwise it returns [None] when the statement
    returned no row, and else one record, made from the first returned row
    alone, whose keys are exactly the columns of the [RETURNING] clause (as
    the store labels them, in lower case). *)
Theorem mutation_returns_first_returned_row PGUSER (m : mutation) (w : World) :
  outage (server w) = None →
  let out := (call PGUSER m w).1 in
  match (store_answer m w).2 with
  | inl msg => out = Raise (DBAPIError msg)
  | inr (df, _) =>
      columns df =
        fold_ident <$> returning_clause (sql_text (statement_of m)) ∧
      match data df with
      | [] => out = Ok None
      | row :: _ =>
          ∃ rec : gmap string value,
            out = Ok (Some rec) ∧
            rec = list_to_map (zip (columns df) row) ∧
            dom rec = list_to_set (columns df)
      end
  end.
Proof.
  intros Hup out. subst out. rewrite call_mutate.
  pose proof (mutate_up PGUSER (statement_of m) (params_of m) w Hup) as [H _].
  simpl in H. fold (store_answer m w) in H.
  destruct (store_answer m w).2 as [msg|[df db']] eqn:Hans; [tauto|].
  destruct H as [-> _].
  destruct (returned_frame_shape m w df db' Hans) as [Hcols Hlen].
  split; [done|].
  pose proof (returning_clause_nonempty m) as Hne.
  unfold df_empty, iloc0_to_dict.
  destruct (columns df) as [|c cs] eqn:Hc.
  { destruct (returning_clause _); [done|discriminate]. }
  destruct (data df) as [|row rest]; [done|].
  eexists; split; [reflexivity|]. split; [reflexivity|].
  rewrite dom_list_to_map_L, fst_zip; [done|].
  apply Forall_cons_1 in Hlen as [Hlen _]. by rewrite Hlen.
Qed.

Lemma mutation_returns_first_returned_row_witness :
  outage (server sample_world) = None ∧
  (call (Some "hawk") (delete_playlist_ 99) sample_world).1 = Ok None ∧
  ∃ rec : gmap string value,
    (call (Some "hawk") (update_user_ 1 "amy2") sample_world).1 =
      Ok (Some rec) ∧
    dom rec = list_to_set ["userid"; "username"].
Proof.
  split; [reflexivity|]. split.
  - exact (proj2 (mutation_returns_first_returned_row (Some "hawk")
                    (delete_playlist_ 99) sample_world eq_refl : _ ∧ _)).
  - destruct (proj2 (mutation_returns_first_returned_row (Some "hawk")
                       (update_user_ 1 "amy2") sample_world eq_refl : _ ∧ _))
      as (rec & H1 & _ & H2).
    exists rec. split; [exact H1|exact H2].
Defined.

(** ** Start-up (claim C8) *)

Lemma absent_not_truthy (env : gmap string string) k :
  env !! k = None ∨ env !! k = Some "" → truthy (getenv env k) = false.
Proof. unfold getenv. by intros [-> | ->]. Qed.

(** C8: when one of [PGDATABASE], [PGUSER], [PGPASSWORD] is unset or empty,
    either script shows the error box and stops there: nothing has gone
    over the wire and neither the pool nor the store has been touched. *)
Theorem missing_credential_halts_startup
    (env : gmap string string) (k : string) (w : World) :
  k ∈ ["PGDATABASE"; "PGUSER"; "PGPASSWORD"] →
  env !! k = None ∨ env !! k = Some "" →
  (∀ v, let out := app.main env v w in
        out.1 = Raise StopException ∧ wire out.2 = wire w ∧
        pool out.2 = pool w ∧ server out.2 = server w ∧
        ∃ msg, page out.2 = page w ++ [st_error msg]) ∧
  (∀ v, let out := app_full_crud.main env v w in
        out.1 = Raise StopException ∧ wire out.2 = wire w ∧
        pool out.2 = pool w ∧ server out.2 = server w ∧
        ∃ msg, page out.2 = page w ++ [st_error msg]).
Proof.
  intros Hk Habsent. apply absent_not_truthy in Habsent.
  assert (all [truthy (getenv env "PGDATABASE"); truthy (getenv env "PGUSER");
               truthy (getenv env "PGPASSWORD")] = false) as Hall.
  { unfold all. simpl. rewrite !elem_of_cons, elem_of_nil in Hk.
    destruct Hk as [-> | [-> | [-> | []]]]; rewrite Habsent;
      rewrite ?andb_false_r; reflexivity. }
  split; intros v; unfold app.main, app.script, app_full_crud.main,
    app_full_crud.script; rewrite Hall; unfold bind, show, st_stop, raise;
    simpl; eauto 10.
Qed.

Lemma missing_credential_halts_startup_witness :
  "PGPASSWORD" ∈ ["PGDATABASE"; "PGUSER"; "PGPASSWORD"] ∧
  (partial_env !! "PGPASSWORD" = None ∨
   partial_env !! "PGPASSWORD" = Some "") ∧
  (app.main partial_env (app.mkVisitor true None 0 app.User_Likes)
     sample_world).1 = Raise StopException ∧
  (app_full_crud.main partial_env
     (app_full_crud.mkVisitor None (app_full_crud.Insert_User "eve"))
     sample_world).1 = Raise StopException.
Proof.
  assert ("PGPASSWORD" ∈ ["PGDATABASE"; "PGUSER"; "PGPASSWORD"]) as Hk
    by (rewrite !elem_of_cons; auto).
  assert (partial_env !! "PGPASSWORD" = None ∨
          partial_env !! "PGPASSWORD" = Some "") as Habsent
    by (left; reflexivity).
  destruct (missing_credential_halts_startup partial_env "PGPASSWORD"
              sample_world Hk Habsent) as [H1 H2].
  split; [exact Hk|]. split; [exact Habsent|].
  split; [exact (proj1 (H1 _)) | exact (proj1 (H2 _))].
Defined.

(** ** Transactions and deletions (claim C3) *)

Lemma filter_key_absent {R} (key : R → Z) (id : Z) (l : list R) :
  id ∉ key <$> l →
  filter (fun r => key r = id) l = [] ∧ filter (fun r => key r ≠ id) l = l.
Proof.
  induction l as [|r l IH]; [done|].
  rewrite fmap_cons, not_elem_of_cons. intros [Hne Hl].
  destruct (IH Hl) as [IH1 IH2].
  rewrite !filter_cons. destruct (decide (key r = id)); [congruence|].
  destruct (decide (key r ≠ id)); [|done]. by rewrite IH1, IH2.
Qed.

Lemma filter_key_gone {R} (key : R → Z) (id : Z) (l : list R) :
  id ∉ key <$> filter (fun r => key r ≠ id) l.
Proof.
  rewrite list_elem_of_fmap. intros (r & -> & Hr).
  apply list_elem_of_filter in Hr as [Hr _]. done.
Qed.

Lemma with_same_table db :
  with_users db (User_table db) = db ∧
  with_artists db (Artist_table db) = db ∧
  with_songs db (Song_table db) = db ∧
  with_playlists db (Playlist_table db) = db.
Proof. by destruct db. Qed.

(** Deleting a key the table does not hold: the store answers with no row
    and leaves the database as it was. *)
Lemma delete_absent_answer e id w :
  id ∉ ids e (tables (server w)) →
  ∃ df, store_answer (delete_of e id) w =
          (sequences (server w), inr (df, tables (server w))) ∧
        data df = [].
Proof.
  destruct (with_same_table (tables (server w))) as (Hu & Ha & Hs & Hp).
  destruct e; simpl; intros Habs; apply filter_key_absent in Habs as [H1 H2];
    answer; unfold pk_delete; cbn [fst snd]; rewrite H1, H2; cbn [on_ok];
    rewrite ?Hu, ?Ha, ?Hs, ?Hp; eexists; (split; [reflexivity|done]).
Qed.

(** Once the store has accepted a delete, the key is gone. *)
Lemma delete_accepted_gone e id w df db' :
  (store_answer (delete_of e id) w).2 = inr (df, db') →
  id ∉ ids e db'.
Proof.
  destruct e; simpl; answer; unfold pk_delete; cbn [fst snd]; intros H;
    match type of H with context [on_ok ?x _] => destruct x end;
    cbn [on_ok] in H; try discriminate; injection H as _ <-; simpl;
    apply filter_key_gone.
Qed.

(** C3: every mutation helper is one transaction - when it returns, the
    committed tables are exactly what the store made of its statement;
    when it raises, they are what they were; no transaction stays open
    either way.  With the store reachable, deleting a key that does not
    exist returns [None] and changes no table, and so does deleting a
    second time a key that has just been deleted. *)
Theorem mutations_are_single_transactions PGUSER (w : World) :
  (∀ m, let out := call PGUSER m w in
        match out.1 with
        | Ok _ => ∃ df, (store_answer m w).2 = inr (df, tables (server out.2))
        | Raise _ => tables (server out.2) = tables (server w)
        end ∧
        ∀ ss, pool out.2 = Some ss → transaction ss = None) ∧
  (∀ e id,
      outage (server w) = None →
      id ∉ ids e (tables (server w)) →
      let out := call PGUSER (delete_of e id) w in
      out.1 = Ok None ∧ tables (server out.2) = tables (server w)) ∧
  (∀ e id r,
      outage (server w) = None →
      let first := call PGUSER (delete_of e id) w in
      first.1 = Ok r →
      let second := call PGUSER (delete_of e id) first.2 in
      second.1 = Ok None ∧
      tables (server second.2) = tables (server first.2)).
Proof.
  assert (∀ w e id,
             outage (server w) = None →
             id ∉ ids e (tables (server w)) →
             (call PGUSER (delete_of e id) w).1 = Ok None ∧
             tables (server (call PGUSER (delete_of e id) w).2) =
               tables (server w)) as Habsent.
  { clear w. intros w e id Hup Hid. rewrite call_mutate.
    destruct (delete_absent_answer e id w Hid) as (df & Hans & Hdf).
    pose proof (mutate_up PGUSER (statement_of (delete_of e id))
                  (params_of (delete_of e id)) w Hup) as [H _].
    simpl in H. fold (store_answer (delete_of e id) w) in H.
    rewrite Hans in H. cbn [snd] in H. destruct H as [-> ->].
    unfold df_empty. rewrite Hdf. by destruct (columns df). }
  split; [|split].
  - intros m out. subst out. rewrite call_mutate.
    destruct (outage (server w)) as [msg|] eqn:Hout.
    + destruct (mutate_down PGUSER (statement_of m) (params_of m) w msg Hout)
        as (-> & -> & -> & _). split; [done|]. discriminate.
    + pose proof (mutate_up PGUSER (statement_of m) (params_of m) w Hout)
        as (H & _ & _ & _ & Hpool & _).
      simpl in H. fold (store_answer m w) in H.
      split.
      * destruct (store_answer m w).2 as [msg|[df db']];
          destruct H as [-> <-]; eauto.
      * rewrite Hpool. unfold pooled. by intros ss [= <-].
  - intros e id. apply Habsent.
  - intros e id r Hup first Hfirst second. subst first second.
    rewrite call_mutate in Hfirst.
    pose proof (mutate_up PGUSER (statement_of (delete_of e id))
                  (params_of (delete_of e id)) w Hup) as (H & _ & Hup' & _).
    simpl in H. fold (store_answer (delete_of e id) w) in H.
    destruct (store_answer (delete_of e id) w).2 as [msg|[df db']] eqn:Hans.
    { destruct H as [H _]. rewrite H in Hfirst. discriminate. }
    destruct H as [_ Htab].
    rewrite <- call_mutate in Hup', Htab.
    apply Habsent; [exact Hup'|]. rewrite Htab.
    by eapply delete_accepted_gone.
Qed.

Lemma mutations_are_single_transactions_witness :
  outage (server sample_world) = None ∧
  (99 ∉ ids E_Playlist (tables (server sample_world))) ∧
  ((call (Some "hawk") (delete_playlist_ 99) sample_world).1 = Ok None) ∧
  tables (server (call (Some "hawk") (delete_playlist_ 99) sample_world).2) =
    sample_db.
Proof.
  assert (99 ∉ ids E_Playlist (tables (server sample_world))) as Hid.
  { simpl. rewrite list_elem_of_singleton. discriminate. }
  split; [reflexivity|]. split; [exact Hid|].
  exact (proj1 (proj2 (mutations_are_single_transactions (Some "hawk")
                         sample_world))
           E_Playlist 99 eq_refl Hid).
Defined.

(** ** Updates (claim C4) *)

Lemma pk_update_rewritten {R} (key : R → Z) id (f : R → R) new tbl :
  (∀ r, key r = id → f r = new) →
  rewritten key id new tbl (pk_update key id f tbl).1.
Proof.
  intros Hf. unfold pk_update, rewritten. cbn [fst].
  induction tbl as [|r tbl IH]; [done|].
  rewrite !filter_cons, fmap_cons.
  destruct (decide (key r = id)) as [Hk|Hk].
  - rewrite decide_False by auto. rewrite fmap_cons, <- Permutation_middle.
    rewrite (Hf r Hk). by f_equiv.
  - rewrite decide_True by done. simpl. by f_equiv.
Qed.

Lemma pk_update_length {R} (key : R → Z) id (f : R → R) tbl :
  length (pk_update key id f tbl).1 = length tbl.
Proof.
  unfold pk_update. cbn [fst].
  rewrite length_app, length_fmap, Nat.add_comm, <- length_app.
  apply Permutation_length, filter_app_complement.
Qed.

Lemma filter_key_present {R} (key : R → Z) id (l : list R) :
  id ∈ key <$> l →
  ∃ r rest, filter (fun r => key r = id) l = r :: rest ∧ key r = id.
Proof.
  rewrite list_elem_of_fmap. intros (r & -> & Hr).
  destruct (filter (fun r0 => key r0 = key r) l) as [|r' rest] eqn:Hf.
  - assert (r ∈ filter (fun r0 => key r0 = key r) l) as Hin
      by (by apply list_elem_of_filter).
    rewrite Hf in Hin. by apply elem_of_nil in Hin.
  - exists r', rest. split; [done|].
    assert (r' ∈ filter (fun r0 => key r0 = key r) l) as Hin
      by (rewrite Hf; apply elem_of_cons; auto).
    by apply list_elem_of_filter in Hin as [? _].
Qed.

Ltac updated PGUSER w Hup m :=
  let H := fresh "H" in
  rewrite call_mutate;
  pose proof (mutate_up PGUSER (statement_of m) (params_of m) w Hup)
    as [H _];
  simpl in H; revert H;
  change (pg_exec (on_delete (server w)) (statement_of m) (params_of m)
            (sequences (server w)) (tables (server w)))
    with (store_answer m w);
  answer; unfold pk_update; cbn [fst snd].

(** C4: with the store reachable and the key present, an update helper
    returns the new projection of the row; the entity's table holds the
    same rows as before, each as often, except that the rows with that key
    now carry the new fields (where the store puts the new row version is
    left open); the row count is unchanged; no other table is touched. *)
Theorem update_changes_only_the_target PGUSER (w : World) :
  outage (server w) = None →
  let db := tables (server w) in
  (∀ sid n d,
      sid ∈ ids E_Song db →
      let out := call PGUSER (update_song_ sid n d) w in
      let db' := tables (server out.2) in
      out.1 = Ok (Some (list_to_map [("song_id", VInt sid);
                                     ("songname", VText n);
                                     ("dayreleased", VDate d)])) ∧
      rewritten song_id sid (mkSong sid n d) (Song_table db) (Song_table db') ∧
      rows E_Song db' = rows E_Song db ∧
      db' = with_songs db (Song_table db')) ∧
  (∀ aid n l,
      aid ∈ ids E_Artist db →
      let out := call PGUSER (update_artist_ aid n l) w in
      let db' := tables (server out.2) in
      out.1 = Ok (Some (list_to_map [("artistid", VInt aid);
                                     ("artist_name", VText n);
                                     ("artist_location", text_or_null l)])) ∧
      rewritten artistID aid (mkArtist aid n l)
        (Artist_table db) (Artist_table db') ∧
      rows E_Artist db' = rows E_Artist db ∧
      db' = with_artists db (Artist_table db')) ∧
  (∀ uid n,
      uid ∈ ids E_User db →
      let out := call PGUSER (update_user_ uid n) w in
      let db' := tables (server out.2) in
      out.1 = Ok (Some (list_to_map [("userid", VInt uid);
                                     ("username", VText n)])) ∧
      rewritten userID uid (mkUser uid n) (User_table db) (User_table db') ∧
      rows E_User db' = rows E_User db ∧
      db' = with_users db (User_table db')) ∧
  (∀ pid n ns,
      pid ∈ ids E_Playlist db →
      let out := call PGUSER (update_playlist_ pid n ns) w in
      let db' := tables (server out.2) in
      out.1 = Ok (Some (list_to_map [("playlistid", VInt pid);
                                     ("playlist_name", VText n);
                                     ("num_songs", VInt ns)])) ∧
      rewritten playlistID pid (mkPlaylist pid n ns)
        (Playlist_table db) (Playlist_table db') ∧
      rows E_Playlist db' = rows E_Playlist db ∧
      db' = with_playlists db (Playlist_table db')).
Proof.
  intros Hup db. subst db. split; [|split; [|split]].
  - intros sid n d Hid out db'. subst out db'. simpl in Hid.
    destruct (filter_key_present song_id sid _ Hid) as (r & rest & Hf & Hr).
    updated PGUSER w Hup (update_song_ sid n d).
    intros [H1 H2]. rewrite H1, H2.
    split; [rewrite Hf; simpl; by rewrite Hr|]. split; [|split].
    + apply (pk_update_rewritten song_id sid
               (fun r => mkSong (song_id r) n d)).
      by intros ? ->.
    + apply (pk_update_length song_id sid
               (fun r => mkSong (song_id r) n d)).
    + by destruct (tables (server w)).
  - intros aid n l Hid out db'. subst out db'. simpl in Hid.
    destruct (filter_key_present artistID aid _ Hid) as (r & rest & Hf & Hr).
    updated PGUSER w Hup (update_artist_ aid n l).
    intros [H1 H2]. rewrite H1, H2.
    split; [rewrite Hf; simpl; by rewrite Hr|]. split; [|split].
    + apply (pk_update_rewritten artistID aid
               (fun r => mkArtist (artistID r) n l)).
      by intros ? ->.
    + apply (pk_update_length artistID aid
               (fun r => mkArtist (artistID r) n l)).
    + by destruct (tables (server w)).
  - intros uid n Hid out db'. subst out db'. simpl in Hid.
    destruct (filter_key_present userID uid _ Hid) as (r & rest & Hf & Hr).
    updated PGUSER w Hup (update_user_ uid n).
    intros [H1 H2]. rewrite H1, H2.
    split; [rewrite Hf; simpl; by rewrite Hr|]. split; [|split].
    + apply (pk_update_rewritten userID uid (fun r => mkUser (userID r) n)).
      by intros ? ->.
    + apply (pk_update_length userID uid (fun r => mkUser (userID r) n)).
    + by destruct (tables (server w)).
  - intros pid n ns Hid out db'. subst out db'. simpl in Hid.
    destruct (filter_key_present playlistID pid _ Hid)
      as (r & rest & Hf & Hr).
    updated PGUSER w Hup (update_playlist_ pid n ns).
    intros [H1 H2]. rewrite H1, H2.
    split; [rewrite Hf; simpl; by rewrite Hr|]. split; [|split].
    + apply (pk_update_rewritten playlistID pid
               (fun r => mkPlaylist (playlistID r) n ns)).
      by intros ? ->.
    + apply (pk_update_length playlistID pid
               (fun r => mkPlaylist (playlistID r) n ns)).
    + by destruct (tables (server w)).
Qed.

Lemma update_changes_only_the_target_witness :
  outage (server sample_world) = None ∧
  1 ∈ ids E_User (tables (server sample_world)) ∧
  ((call (Some "hawk") (update_user_ 1 "amy2") sample_world).1 =
     Ok (Some (list_to_map [("userid", VInt 1);
                            ("username", VText "amy2")]))) ∧
  rows E_User
    (tables (server (call (Some "hawk") (update_user_ 1 "amy2")
                       sample_world).2)) = 2%nat.
Proof.
  assert (1 ∈ ids E_User (tables (server sample_world))) as Hid
    by (simpl; rewrite !elem_of_cons; auto).
  destruct (proj1 (proj2 (proj2 (update_changes_only_the_target (Some "hawk")
                                   sample_world eq_refl)))
              1 "amy2" Hid) as (H1 & _ & H3 & _).
  split; [reflexivity|]. split; [exact Hid|]. split; [exact H1|exact H3].
Defined.

(** ** Inserts (claim C5) *)

Lemma order_by_elem {A} (R : relation A) `{∀ x y, Decision (R x y)}
    (l : list A) (x : A) :
  x ∈ order_by R l ↔ x ∈ l.
Proof. unfold order_by. by rewrite merge_sort_Permutation. Qed.

Lemma order_by_length {A} (R : relation A) `{∀ x y, Decision (R x y)}
    (l : list A) :
  length (order_by R l) = length l.
Proof. unfold order_by. by rewrite merge_sort_Permutation. Qed.

(** A row of the table is in the listing when the limit is no smaller
    than the table. *)
Lemma listed_when_limit_suffices {A} (R : relation A)
    `{∀ x y, Decision (R x y)} (row : A → list value) (l : list A) x lim :
  x ∈ l → Z.of_nat (length l) ≤ lim →
  row x ∈ row <$> limit lim (order_by R l).
Proof.
  intros Hx Hlim. apply list_elem_of_fmap_2. unfold limit.
  rewrite take_ge; [by apply order_by_elem|].
  rewrite order_by_length. lia.
Qed.

Lemma fresh_key e s :
  keys_from_sequence e s → last_key e (sequences s) + 1 ∉ ids e (tables s).
Proof. intros Hle Hin. apply Hle in Hin. lia. Qed.

Lemma limited_lim n k :
  0 ≤ n → limited {[ "lim" := VInt n ]} k = inr (k n).
Proof.
  intros Hn. unfold limited.
  change (param_int {[ "lim" := VInt n ]} "lim") with (@inr string Z n).
  cbv beta iota. destruct (decide (n < 0)); [lia|done].
Qed.

Ltac inserted PGUSER w Hup m :=
  let H := fresh "H" in
  let Hsq := fresh "Hsq" in
  let Hup' := fresh "Hup'" in
  rewrite call_mutate;
  pose proof (mutate_up PGUSER (statement_of m) (params_of m) w Hup)
    as (H & Hsq & Hup' & _);
  cbv zeta in H, Hsq; revert H Hsq;
  change (pg_exec (on_delete (server w)) (statement_of m) (params_of m)
            (sequences (server w)) (tables (server w)))
    with (store_answer m w);
  answer; unfold pk_insert; cbn [fst snd].

(** The listing that follows a mutation, the store still being up. *)
Ltac listed PGUSER sql ps Hup' :=
  let Hf := fresh "Hf" in
  pose proof (crud_fetch_df_up PGUSER sql ps _ Hup') as [Hf _];
  cbn [default from_option id] in Hf; unfold pg_exec, pg_select in Hf;
  rewrite ?limited_lim in Hf by lia; cbn [on_ok snd] in Hf;
  destruct Hf as [Hf _];
  eexists; split; [exact Hf|]; cbn [data frame statement_of params_of].

(** A helper that returned had a store to talk to. *)
Lemma returned_so_up PGUSER m w rec :
  (call PGUSER m w).1 = Ok rec → outage (server w) = None.
Proof.
  intros Hrec. destruct (outage (server w)) as [msg|] eqn:Hout; [|done].
  rewrite call_mutate in Hrec.
  destruct (mutate_down PGUSER (statement_of m) (params_of m) w msg Hout)
    as [Hd _].
  congruence.
Qed.

(** The keys stay values of the sequence under every call of a mutation
    helper, whether the call returns or raises: an insert draws the next
    value and uses it as the key, an update keeps the keys, a delete
    drops some. *)
Lemma refs_keep_entities fk db :
  (∀ id db', delete_song_refs fk id db = inr db' →
     User_table db' = User_table db ∧ Artist_table db' = Artist_table db ∧
     Song_table db' = Song_table db ∧
     Playlist_table db' = Playlist_table db) ∧
  (∀ id db', delete_artist_refs fk id db = inr db' →
     User_table db' = User_table db ∧ Artist_table db' = Artist_table db ∧
     Song_table db' = Song_table db ∧
     Playlist_table db' = Playlist_table db) ∧
  (∀ id db', delete_user_refs fk id db = inr db' →
     User_table db' = User_table db ∧ Artist_table db' = Artist_table db ∧
     Song_table db' = Song_table db ∧
     Playlist_table db' = Playlist_table db) ∧
  (∀ id db', delete_playlist_refs fk id db = inr db' →
     User_table db' = User_table db ∧ Artist_table db' = Artist_table db ∧
     Song_table db' = Song_table db ∧
     Playlist_table db' = Playlist_table db).
Proof.
  unfold delete_song_refs, delete_artist_refs, delete_user_refs,
    delete_playlist_refs.
  repeat split;
    repeat match goal with
      | H : context [release ?fk ?ref ?id ?l] |- _ =>
          destruct (release fk ref id l); cbn [on_ok] in H; [done|]
      end;
    match goal with H : inr _ = inr _ |- _ => injection H as <- end; done.
Qed.

Lemma store_answer_keeps_keys m w e :
  keys_from_sequence e (server w) →
  ∀ id, id ∈ ids e (match (store_answer m w).2 with
                    | inl _ => tables (server w)
                    | inr (_, db') => db'
                    end) →
        id ≤ last_key e (store_answer m w).1.
Proof.
  intros Hkeys id. unfold keys_from_sequence in Hkeys.
  destruct (refs_keep_entities (on_delete (server w)) (tables (server w)))
    as (Hs & Ha & Hu & Hp).
  destruct m; answer; unfold pk_insert; cbn [fst snd];
    repeat match goal with
      | |- context [decide ?P] => destruct (decide P); cbn [on_ok fst snd]
      | |- context [match (pk_delete ?k ?i ?t).2 with _ => _ end] =>
          destruct (pk_delete k i t).2 eqn:?; cbn [on_ok fst snd]
      | |- context [delete_song_refs ?f ?i ?d] =>
          pose proof (Hs i); destruct (delete_song_refs f i d);
          cbn [on_ok fst snd]
      | |- context [delete_artist_refs ?f ?i ?d] =>
          pose proof (Ha i); destruct (delete_artist_refs f i d);
          cbn [on_ok fst snd]
      | |- context [delete_user_refs ?f ?i ?d] =>
          pose proof (Hu i); destruct (delete_user_refs f i d);
          cbn [on_ok fst snd]
      | |- context [delete_playlist_refs ?f ?i ?d] =>
          pose proof (Hp i); destruct (delete_playlist_refs f i d);
          cbn [on_ok fst snd]
      end;
    repeat match goal with
      | H : ∀ db', inr ?d = inr db' → _ |- _ =>
          destruct (H d eq_refl) as (? & ? & ? & ?); clear H
      end;
    destruct e; simpl; intros Hid;
    repeat match goal with
      | H : ?t ?d = ?t (tables (server w)) |- _ => rewrite H in *; clear H
      end;
    rewrite ?fmap_app, ?elem_of_app in Hid; simpl in Hid;
    rewrite ?list_elem_of_singleton in Hid;
    try (specialize (Hkeys id); simpl in Hkeys);
    first [ by auto
          | by (destruct Hid as [Hid| ->]; [apply Hkeys in Hid|]; lia)
          | by (apply Hkeys in Hid; lia)
          | by (apply Hkeys; destruct Hid as [Hid|Hid];
                [|rewrite <- list_fmap_compose in Hid];
                apply list_elem_of_fmap in Hid as (r & -> & Hr);
                apply list_elem_of_filter in Hr as [_ Hr]; simpl;
                apply list_elem_of_fmap_2)
          | by (apply Hkeys; apply list_elem_of_fmap in Hid as (r & -> & Hr);
                apply list_elem_of_filter in Hr as [_ Hr];
                apply list_elem_of_fmap_2) ].
Qed.

Lemma mutations_keep_keys_from_sequence PGUSER m w e :
  keys_from_sequence e (server w) →
  keys_from_sequence e (server (call PGUSER m w).2).
Proof.
  intros Hkeys. rewrite call_mutate.
  destruct (outage (server w)) as [msg|] eqn:Hout.
  - destruct (mutate_down PGUSER (statement_of m) (params_of m) w msg Hout)
      as (_ & -> & _).
    done.
  - pose proof (mutate_up PGUSER (statement_of m) (params_of m) w Hout)
      as (H & Hsq & _).
    cbv zeta in H, Hsq.
    change (pg_exec (on_delete (server w)) (statement_of m) (params_of m)
              (sequences (server w)) (tables (server w)))
      with (store_answer m w) in H, Hsq.
    pose proof (store_answer_keeps_keys m w e Hkeys) as Hans.
    intros id. rewrite Hsq.
    destruct (store_answer m w).2 as [msg|[df db']];
      destruct H as [_ ->]; apply Hans.
Qed.

(** C5: an insert helper binds no key: whenever it returns, the record
    it returns is the new row under the next value of the table's
    sequence, a key no row had before, the sequence has moved on to that
    value, and the listing of the table then holds the row (for songs,
    when the limit is no smaller than the table).  And it does return,
    with the store reachable, when the keys of the table are values its
    sequence has handed out - which is then so again of the table with the
    new row. *)
Theorem insert_assigns_a_new_key_and_is_listed PGUSER (w : World) :
  let db := tables (server w) in
  let sq := sequences (server w) in
  (∀ n d,
      let id := seq_song sq + 1 in
      let out := call PGUSER (insert_song_ n d) w in
      let rec := list_to_map [("song_id", VInt id); ("songname", VText n);
                              ("dayreleased", VDate d)] in
      (∀ r, out.1 = Ok r →
          r = Some rec ∧ (id ∉ ids E_Song db) ∧
          seq_song (sequences (server out.2)) = id ∧
          ∀ limit,
            Z.of_nat (rows E_Song (tables (server out.2))) ≤ limit →
            ∃ df, (app_full_crud.fetch_songs PGUSER limit out.2).1 = Ok df ∧
                  [VInt id; VText n; VDate d] ∈ data df) ∧
      (outage (server w) = None → keys_from_sequence E_Song (server w) →
          out.1 = Ok (Some rec) ∧
          keys_from_sequence E_Song (server out.2))) ∧
  (∀ n l,
      let id := seq_artist sq + 1 in
      let out := call PGUSER (insert_artist_ n l) w in
      let rec := list_to_map [("artistid", VInt id);
                              ("artist_name", VText n);
                              ("artist_location", text_or_null l)] in
      (∀ r, out.1 = Ok r →
          r = Some rec ∧ (id ∉ ids E_Artist db) ∧
          seq_artist (sequences (server out.2)) = id ∧
          ∃ df, (app_full_crud.fetch_artists PGUSER out.2).1 = Ok df ∧
                [VInt id; VText n; text_or_null l] ∈ data df) ∧
      (outage (server w) = None → keys_from_sequence E_Artist (server w) →
          out.1 = Ok (Some rec) ∧
          keys_from_sequence E_Artist (server out.2))) ∧
  (∀ n,
      let id := seq_user sq + 1 in
      let out := call PGUSER (insert_user_ n) w in
      let rec := list_to_map [("userid", VInt id); ("username", VText n)] in
      (∀ r, out.1 = Ok r →
          r = Some rec ∧ (id ∉ ids E_User db) ∧
          seq_user (sequences (server out.2)) = id ∧
          ∃ df, (app_full_crud.fetch_users PGUSER out.2).1 = Ok df ∧
                [VInt id; VText n] ∈ data df) ∧
      (outage (server w) = None → keys_from_sequence E_User (server w) →
          out.1 = Ok (Some rec) ∧
          keys_from_sequence E_User (server out.2))) ∧
  (∀ n ns,
      let id := seq_playlist sq + 1 in
      let out := call PGUSER (insert_playlist_ n ns) w in
      let rec := list_to_map [("playlistid", VInt id);
                              ("playlist_name", VText n);
                              ("num_songs", VInt ns)] in
      (∀ r, out.1 = Ok r →
          r = Some rec ∧ (id ∉ ids E_Playlist db) ∧
          seq_playlist (sequences (server out.2)) = id ∧
          ∃ df, (app_full_crud.fetch_playlists PGUSER out.2).1 = Ok df ∧
                [VInt id; VText n; VInt ns] ∈ data df) ∧
      (outage (server w) = None → keys_from_sequence E_Playlist (server w) →
          out.1 = Ok (Some rec) ∧
          keys_from_sequence E_Playlist (server out.2))).
Proof.
  intros db sq. subst db sq. split; [|split; [|split]].
  - intros n d id out rec. subst id out rec. split.
    + intros r Hr. pose proof (returned_so_up _ _ _ _ Hr) as Hup.
      revert Hr. inserted PGUSER w Hup (insert_song_ n d).
      destruct (decide _) as [|Hnew]; cbn [on_ok];
        intros [H1 H2] Hsq Hr; [congruence|].
      rewrite H1 in Hr. injection Hr as <-. rewrite Hsq.
      split; [done|]. split; [done|]. split; [done|].
      intros limit Hlimit. unfold rows in Hlimit. rewrite H2 in Hlimit.
      unfold app_full_crud.fetch_songs.
      listed PGUSER C_songs (Some ({[ "lim" := VInt limit ]} : params)) Hup'.
      rewrite H2.
      apply (listed_when_limit_suffices _ song_row _
               (mkSong (seq_song (sequences (server w)) + 1) n d));
        [|exact Hlimit].
      apply elem_of_app. right. apply list_elem_of_singleton. done.
    + intros Hup Hkeys.
      split; [|by apply mutations_keep_keys_from_sequence].
      apply fresh_key in Hkeys.
      inserted PGUSER w Hup (insert_song_ n d).
      destruct (decide _) as [|_]; [done|]. cbn [on_ok]. by intros [-> _] _.
  - intros n l id out rec. subst id out rec. split.
    + intros r Hr. pose proof (returned_so_up _ _ _ _ Hr) as Hup.
      revert Hr. inserted PGUSER w Hup (insert_artist_ n l).
      destruct (decide _) as [|Hnew]; cbn [on_ok];
        intros [H1 H2] Hsq Hr; [congruence|].
      rewrite H1 in Hr. injection Hr as <-. rewrite Hsq.
      split; [done|]. split; [done|]. split; [done|].
      unfold app_full_crud.fetch_artists.
      listed PGUSER C_artists (@None params) Hup'.
      rewrite H2.
      apply (list_elem_of_fmap_2 artist_row _
               (mkArtist (seq_artist (sequences (server w)) + 1) n l)).
      apply order_by_elem, elem_of_app. right.
      by apply list_elem_of_singleton.
    + intros Hup Hkeys.
      split; [|by apply mutations_keep_keys_from_sequence].
      apply fresh_key in Hkeys.
      inserted PGUSER w Hup (insert_artist_ n l).
      destruct (decide _) as [|_]; [done|]. cbn [on_ok]. by intros [-> _] _.
  - intros n id out rec. subst id out rec. split.
    + intros r Hr. pose proof (returned_so_up _ _ _ _ Hr) as Hup.
      revert Hr. inserted PGUSER w Hup (insert_user_ n).
      destruct (decide _) as [|Hnew]; cbn [on_ok];
        intros [H1 H2] Hsq Hr; [congruence|].
      rewrite H1 in Hr. injection Hr as <-. rewrite Hsq.
      split; [done|]. split; [done|]. split; [done|].
      unfold app_full_crud.fetch_users.
      listed PGUSER C_users (@None params) Hup'.
      rewrite H2.
      apply (list_elem_of_fmap_2 user_row _
               (mkUser (seq_user (sequences (server w)) + 1) n)).
      apply order_by_elem, elem_of_app. right.
      by apply list_elem_of_singleton.
    + intros Hup Hkeys.
      split; [|by apply mutations_keep_keys_from_sequence].
      apply fresh_key in Hkeys.
      inserted PGUSER w Hup (insert_user_ n).
      destruct (decide _) as [|_]; [done|]. cbn [on_ok]. by intros [-> _] _.
  - intros n ns id out rec. subst id out rec. split.
    + intros r Hr. pose proof (returned_so_up _ _ _ _ Hr) as Hup.
      revert Hr. inserted PGUSER w Hup (insert_playlist_ n ns).
      destruct (decide _) as [|Hnew]; cbn [on_ok];
        intros [H1 H2] Hsq Hr; [congruence|].
      rewrite H1 in Hr. injection Hr as <-. rewrite Hsq.
      split; [done|]. split; [done|]. split; [done|].
      unfold app_full_crud.fetch_playlists.
      listed PGUSER C_playlists (@None params) Hup'.
      rewrite H2.
      apply (list_elem_of_fmap_2 playlist_row _
               (mkPlaylist (seq_playlist (sequences (server w)) + 1) n ns)).
      apply order_by_elem, elem_of_app. right.
      by apply list_elem_of_singleton.
    + intros Hup Hkeys.
      split; [|by apply mutations_keep_keys_from_sequence].
      apply fresh_key in Hkeys.
      inserted PGUSER w Hup (insert_playlist_ n ns).
      destruct (decide _) as [|_]; [done|]. cbn [on_ok]. by intros [-> _] _.
Qed.

Lemma insert_assigns_a_new_key_and_is_listed_witness :
  outage (server sample_world) = None ∧
  keys_from_sequence E_Artist (server sample_world) ∧
  ((call (Some "hawk") (insert_artist_ "Test Artist" (Some "Testville"))
      sample_world).1 =
     Ok (Some (list_to_map [("artistid", VInt 3);
                            ("artist_name", VText "Test Artist");
                            ("artist_location", VText "Testville")]))) ∧
  (3 ∉ ids E_Artist (tables (server sample_world))) ∧
  keys_from_sequence E_Artist
    (server (call (Some "hawk")
               (insert_artist_ "Test Artist" (Some "Testville"))
               sample_world).2).
Proof.
  assert (keys_from_sequence E_Artist (server sample_world)) as Hkeys.
  { intros id. simpl. rewrite !elem_of_cons, elem_of_nil.
    intros [-> | [-> | []]]; lia. }
  destruct (proj1 (proj2 (insert_assigns_a_new_key_and_is_listed (Some "hawk")
                            sample_world))
              "Test Artist" (Some "Testville")) as [Hret Hdoes].
  destruct (Hdoes eq_refl Hkeys) as [H1 H2].
  destruct (Hret _ H1) as (_ & H3 & _).
  split; [reflexivity|]. split; [exact Hkeys|].
  split; [exact H1|]. split; [exact H3|exact H2].
Defined.

(** ** Joined views (claim C2) *)

Section joins.
Context {A B : Type} (on : A → B → bool).

Lemma inner_join_elem (l : list A) (r : list B) a b :
  (a, b) ∈ inner_join on l r ↔ a ∈ l ∧ b ∈ r ∧ on a b = true.
Proof.
  unfold inner_join. rewrite list_elem_of_bind. split.
  - intros (a' & Hin & Ha'). apply list_elem_of_fmap in Hin as (b' & [= -> ->] & Hb).
    apply list_elem_of_filter in Hb as [? ?]. done.
  - intros (Ha & Hb & Hon). exists a. split; [|done].
    apply list_elem_of_fmap. exists b. split; [done|].
    by apply list_elem_of_filter.
Qed.

Lemma left_join_left (l : list A) (r : list B) x :
  x ∈ left_join on l r → x.1 ∈ l.
Proof.
  unfold left_join. rewrite list_elem_of_bind. intros (a & Hin & Ha).
  destruct (filter (fun b => on a b = true) r) as [|b m].
  - apply list_elem_of_singleton in Hin as ->. done.
  - apply list_elem_of_fmap in Hin as (b' & -> & _). done.
Qed.

Lemma left_join_matched (l : list A) (r : list B) a b :
  (a, Some b) ∈ left_join on l r → b ∈ r ∧ on a b = true.
Proof.
  unfold left_join. rewrite list_elem_of_bind. intros (a' & Hin & Ha').
  destruct (filter (fun b => on a' b = true) r) as [|b0 m] eqn:Hf.
  - apply list_elem_of_singleton in Hin. discriminate.
  - apply list_elem_of_fmap in Hin as (b' & [= -> ->] & Hb).
    rewrite <- Hf in Hb. by apply list_elem_of_filter in Hb as [? ?].
Qed.

(** The join drops no left row. *)
Lemma left_join_keeps (l : list A) (r : list B) a :
  a ∈ l → ∃ ob, (a, ob) ∈ left_join on l r.
Proof.
  intros Ha. unfold left_join.
  destruct (filter (fun b => on a b = true) r) as [|b m] eqn:Hf.
  - exists None. apply list_elem_of_bind. exists a. rewrite Hf.
    split; [by apply list_elem_of_singleton|done].
  - exists (Some b). apply list_elem_of_bind. exists a. rewrite Hf.
    split; [|done]. apply list_elem_of_fmap. exists b.
    split; [done|]. apply elem_of_cons. auto.
Qed.
End joins.

Section groups.
Context {A K : Type} `{EqDecision K} (key : A → K).

Lemma group_by_elem (l : list A) x :
  x ∈ l → (key x, filter (fun y => key y = key x) l) ∈ group_by key l.
Proof.
  intros Hx. unfold group_by. apply list_elem_of_fmap. exists (key x).
  split; [done|]. apply elem_of_remove_dups. by apply list_elem_of_fmap_2.
Qed.

(** No more groups than there are rows in any list that carries all the
    keys. *)
Lemma group_by_length {C} (l : list A) (k : C → K) (src : list C) :
  (∀ x, x ∈ l → ∃ c, c ∈ src ∧ key x = k c) →
  (length (group_by key l) ≤ length src)%nat.
Proof.
  intros Hsrc. unfold group_by. rewrite length_fmap.
  rewrite <- (length_fmap k src). apply submseteq_length, NoDup_submseteq.
  - apply NoDup_remove_dups.
  - intros kx Hkx. apply elem_of_remove_dups, list_elem_of_fmap in Hkx
      as (x & -> & Hx).
    destruct (Hsrc x Hx) as (c & Hc & ->). by apply list_elem_of_fmap_2.
Qed.
End groups.

Lemma count_some_none {A B} (col : A → option B) (l : list A) :
  (∀ x, x ∈ l → col x = None) → count_some col l = 0.
Proof.
  intros Hnone. unfold count_some.
  replace (filter (fun a => is_Some (col a)) l) with (@nil A); [done|].
  symmetry. induction l as [|a l IH]; [done|].
  rewrite filter_cons. destruct (decide (is_Some (col a))) as [Hs|_].
  - rewrite (Hnone a) in Hs by (apply elem_of_cons; auto).
    by apply is_Some_None in Hs.
  - apply IH. intros x Hx. apply Hnone, elem_of_cons. auto.
Qed.

Lemma artist_counted db a :
  a ∈ Artist_table db →
  ∃ c, (artist_name a, c) ∈ artist_song_count_rows db ∧
       (artistID a ∉ pr_artistID <$> Produces_table db → c = 0).
Proof.
  intros Ha. unfold artist_song_count_rows.
  set (on := fun (a : Artist) (p : Produces) =>
               eqz (artistID a) (pr_artistID p)).
  set (key := fun x : Artist * option Produces =>
                (artistID x.1, artist_name x.1)).
  destruct (left_join_keeps on _ (Produces_table db) a Ha) as (ob & Hj).
  pose proof (group_by_elem key _ _ Hj) as Hg.
  eexists. split.
  - apply list_elem_of_fmap. eexists. split; [|exact Hg]. reflexivity.
  - intros Hnone. cbn [snd]. apply count_some_none.
    intros [a' [p|]] Hx; [|done]. exfalso. apply Hnone.
    apply list_elem_of_filter in Hx as [Hk Hx].
    apply left_join_matched in Hx as [Hp Hon].
    unfold on, eqz in Hon. apply bool_decide_eq_true in Hon.
    unfold key in Hk. simpl in Hk. injection Hk as Hid _.
    rewrite <- Hid, Hon. by apply list_elem_of_fmap_2.
Qed.

Lemma artist_song_count_rows_length db :
  (length (artist_song_count_rows db) ≤ length (Artist_table db))%nat.
Proof.
  unfold artist_song_count_rows. rewrite length_fmap.
  apply (group_by_length _ _ (fun a => (artistID a, artist_name a))).
  intros x Hx. exists x.1. split; [|done]. by eapply left_join_left.
Qed.

Lemma most_liked_counted db s p a :
  (s, p, a) ∈ song_produces_artist db →
  ∃ c, (songName s, artist_name a, c) ∈ most_liked_rows db ∧
       (song_id s ∉ lk_song_id <$> Likes_table db → c = 0).
Proof.
  intros Hspa. unfold most_liked_rows.
  set (on := fun (x : Song * Produces * Artist) (l : Likes) =>
               eqz (song_id x.1.1) (lk_song_id l)).
  set (key := fun x : Song * Produces * Artist * option Likes =>
                (song_id x.1.1.1, songName x.1.1.1, artist_name x.1.2)).
  destruct (left_join_keeps on _ (Likes_table db) _ Hspa) as (ob & Hj).
  pose proof (group_by_elem key _ _ Hj) as Hg.
  eexists. split.
  - apply list_elem_of_fmap. eexists. split; [|exact Hg]. reflexivity.
  - intros Hnone. cbn [snd]. apply count_some_none.
    intros [x [l|]] Hx; [|done]. exfalso. apply Hnone.
    apply list_elem_of_filter in Hx as [Hk Hx].
    apply left_join_matched in Hx as [Hl Hon].
    unfold on, eqz in Hon. apply bool_decide_eq_true in Hon.
    unfold key in Hk. simpl in Hk. injection Hk as Hid _ _.
    rewrite <- Hid, Hon. by apply list_elem_of_fmap_2.
Qed.

Lemma most_liked_rows_length db :
  (length (most_liked_rows db) ≤ length (song_produces_artist db))%nat.
Proof.
  unfold most_liked_rows. rewrite length_fmap.
  apply (group_by_length _ _
           (fun x : Song * Produces * Artist =>
              (song_id x.1.1, songName x.1.1, artist_name x.2))).
  intros x Hx. exists x.1. split; [|done]. by eapply left_join_left.
Qed.

(** The credits: a song, a [Produces] row for it, and the artist of that
    row. *)
Lemma credit_elem db s p a :
  (s, p, a) ∈ song_produces_artist db ↔
  s ∈ Song_table db ∧ p ∈ Produces_table db ∧ a ∈ Artist_table db ∧
  song_id s = pr_song_id p ∧ pr_artistID p = artistID a.
Proof.
  unfold song_produces_artist. rewrite !inner_join_elem. unfold eqz. simpl.
  rewrite !bool_decide_eq_true. tauto.
Qed.

(** The viewer's listing against a reachable store, limit in range. *)
Ltac viewed PGUSER sql row_limit w Hup :=
  let Hf := fresh "Hf" in
  pose proof (fetch_df_up PGUSER sql (app.lim row_limit) w Hup) as [Hf _];
  unfold app.lim in Hf;
  cbn [default from_option id] in Hf; unfold pg_exec, pg_select in Hf;
  rewrite ?limited_lim in Hf by lia; cbn [on_ok snd] in Hf;
  destruct Hf as [Hf _];
  eexists; split; [exact Hf|]; cbn [data frame].

(** C2, as the code has it: with the store reachable and the row limit no
    smaller than the number of artists, artist-song-counts has a row for
    every artist, with count 0 for an artist no [Produces] row names; with
    the row limit no smaller than the number of credits, most-liked-songs
    has a row for every credit (a song with one of its artists), with count
    0 for a song nobody likes. *)
Theorem left_joins_keep_their_left_rows PGUSER (w : World) (row_limit : Z) :
  outage (server w) = None →
  let db := tables (server w) in
  (Z.of_nat (length (Artist_table db)) ≤ row_limit →
   ∃ df, (list_ PGUSER artist_song_counts row_limit w).1 = Ok df ∧
         ∀ a, a ∈ Artist_table db →
              ∃ c, [VText (artist_name a); VInt c] ∈ data df ∧
                   (artistID a ∉ pr_artistID <$> Produces_table db →
                    c = 0)) ∧
  (Z.of_nat (length (song_produces_artist db)) ≤ row_limit →
   ∃ df, (list_ PGUSER most_liked_songs row_limit w).1 = Ok df ∧
         ∀ s p a,
           s ∈ Song_table db → p ∈ Produces_table db → a ∈ Artist_table db →
           song_id s = pr_song_id p → pr_artistID p = artistID a →
           ∃ c, [VText (songName s); VText (artist_name a); VInt c]
                  ∈ data df ∧
                (song_id s ∉ lk_song_id <$> Likes_table db → c = 0)).
Proof.
  intros Hup db. subst db. split; intros Hlim; unfold list_.
  - viewed PGUSER V_artist_song_counts row_limit w Hup.
    intros a Ha. destruct (artist_counted _ a Ha) as (c & Hc & Hzero).
    exists c. split; [|exact Hzero].
    apply (list_elem_of_fmap_2 (fun x : string * Z => [VText x.1; VInt x.2])
             _ (artist_name a, c)).
    unfold limit. rewrite take_ge; [by apply order_by_elem|].
    rewrite order_by_length.
    pose proof (artist_song_count_rows_length (tables (server w))). lia.
  - viewed PGUSER V_most_liked row_limit w Hup.
    intros s p a Hs Hp Ha Hsp Hpa.
    assert ((s, p, a) ∈ song_produces_artist (tables (server w))) as Hspa
      by (by apply credit_elem).
    destruct (most_liked_counted _ s p a Hspa) as (c & Hc & Hzero).
    exists c. split; [|exact Hzero].
    apply (list_elem_of_fmap_2
             (fun x : string * string * Z =>
                [VText x.1.1; VText x.1.2; VInt x.2])
             _ (songName s, artist_name a, c)).
    unfold limit. rewrite take_ge; [by apply order_by_elem|].
    rewrite order_by_length.
    pose proof (most_liked_rows_length (tables (server w))). lia.
Qed.

Lemma left_joins_keep_their_left_rows_witness :
  outage (server sample_world) = None ∧
  Z.of_nat (length (Artist_table (tables (server sample_world)))) ≤ 200 ∧
  ∃ df, (list_ (Some "hawk") artist_song_counts 200 sample_world).1 = Ok df ∧
        [VText "Ben"; VInt 0] ∈ data df.
Proof.
  assert (Z.of_nat (length (Artist_table (tables (server sample_world))))
          ≤ 200) as Hlim by (simpl; lia).
  split; [reflexivity|]. split; [exact Hlim|].
  destruct (proj1 (left_joins_keep_their_left_rows (Some "hawk") sample_world
                     200 eq_refl) Hlim) as (df & Hdf & Hall).
  exists df. split; [exact Hdf|].
  destruct (Hall (mkArtist 2 "Ben" (Some "Testville"))) as (c & Hc & Hzero).
  { simpl. rewrite !elem_of_cons. auto. }
  rewrite Hzero in Hc; [exact Hc|].
  simpl. rewrite list_elem_of_singleton. discriminate.
Defined.

(** C2 as stated fails on the sample catalogue: "Test Song" has no
    [Produces] row, and most-liked-songs has no row for it, whatever the
    limit. *)
Lemma most_liked_songs_drops_a_song_without_artist :
  ∃ df, (list_ (Some "hawk") most_liked_songs 200 sample_world).1 = Ok df ∧
        mkSong 2 "Test Song" 19723 ∈ Song_table (tables (server sample_world)) ∧
        ∀ row, row ∈ data df → row !! 0%nat ≠ Some (VText "Test Song").
Proof.
  eexists. split; [vm_compute; reflexivity|]. split.
  - simpl. rewrite !elem_of_cons. auto.
  - intros row Hrow. simpl in Hrow.
    apply list_elem_of_singleton in Hrow as ->. discriminate.
Qed.

(** ** Bounds and order of the listings (claim C6) *)

Lemma Sorted_take {A} (R : relation A) (l : list A) n :
  Sorted R l → Sorted R (take n l).
Proof.
  intros Hl. revert n. induction Hl as [|x l Hl IH Hhd]; intros [|n]; simpl;
    try constructor; auto.
  destruct Hhd; destruct n; simpl; constructor; auto.
Qed.

Lemma order_by_sorted {A} (R : relation A) `{∀ x y, Decision (R x y)}
    `{!Total R} (l : list A) :
  Sorted R (order_by R l).
Proof. apply Sorted_merge_sort, _. Qed.

Lemma column_of_frame {A} cols (proj : A → list value) (rs : list A) c i :
  col_index c (fold_ident <$> cols) = Some i →
  df_column c (frame cols (proj <$> rs)) =
  (fun x => nth i (proj x) VNull) <$> rs.
Proof.
  intros Hi. unfold df_column, frame. simpl. rewrite Hi.
  by rewrite <- list_fmap_compose.
Qed.

Lemma zip_fmap_same {A B C} (f : A → B) (g : A → C) (l : list A) :
  zip (f <$> l) (g <$> l) = (fun x => (f x, g x)) <$> l.
Proof.
  induction l as [|x l IH]; [done|].
  rewrite !fmap_cons. simpl. by rewrite IH.
Qed.

Lemma frame_len {A} cols (proj : A → list value) (rs : list A) :
  df_len (frame cols (proj <$> rs)) = length rs.
Proof. unfold df_len, frame. simpl. by rewrite length_fmap. Qed.

Lemma limit_length {A} n (l : list A) :
  0 ≤ n → Z.of_nat (length (limit n l)) ≤ n.
Proof. intros Hn. unfold limit. rewrite length_take. lia. Qed.

(** What a listing hands back: the empty frame (the store is out, or it
    refused the statement), or the result set the store computed. *)
Lemma listing_outcome PGUSER l row_limit w :
  let out := list_ PGUSER l row_limit w in
  out.1 = Ok empty_frame ∨
  ∃ df, pg_select (listing_stmt l) (listing_params l row_limit)
          (tables (server w)) = inr df ∧
        out.1 = Ok df.
Proof.
  destruct (outage (server w)) as [msg|] eqn:Hout.
  - left. destruct l; unfold list_, app_full_crud.fetch_users,
      app_full_crud.fetch_artists, app_full_crud.fetch_albums,
      app_full_crud.fetch_songs, app_full_crud.fetch_playlists;
      first [ by apply (fetch_df_down PGUSER _ _ w msg Hout)
            | by apply (crud_fetch_df_down PGUSER _ _ w msg Hout) ].
  - destruct l; unfold list_, app_full_crud.fetch_users,
      app_full_crud.fetch_artists, app_full_crud.fetch_albums,
      app_full_crud.fetch_songs, app_full_crud.fetch_playlists, app.lim;
      cbn [listing_stmt listing_params];
      match goal with
      | |- context [app.fetch_df _ ?s ?ps] =>
          pose proof (fetch_df_up PGUSER s ps w Hout) as [H _]
      | |- context [app_full_crud.fetch_df _ ?s ?ps] =>
          pose proof (crud_fetch_df_up PGUSER s ps w Hout) as [H _]
      end;
      cbn [default from_option id] in H; unfold pg_exec in H;
      cbn [snd] in H;
      match type of H with
      | context [pg_select ?s ?ps ?db] =>
          destruct (pg_select s ps db) as [e|df]; cbn [on_ok] in H;
          destruct H as [H _]; [by left | right; by exists df]
      end.
Qed.

Ltac sorted_rows :=
  unfold limit;
  first [ apply Sorted_take, order_by_sorted, _
        | apply order_by_sorted, _ ].

Ltac column c :=
  erewrite (column_of_frame _ _ _ c) by (vm_compute; reflexivity).

(** The result set of each listing respects the bound and the order its
    statement spells out. *)
Lemma select_bounded_ordered l row_limit db df :
  0 ≤ row_limit →
  pg_select (listing_stmt l) (listing_params l row_limit) db = inr df →
  (∀ n, bound_of l row_limit = Some n → Z.of_nat (df_len df) ≤ n) ∧
  ordered_by (ordering_of l) df.
Proof.
  intros Hlim.
  destruct l; cbn [listing_stmt listing_params bound_of ordering_of];
    unfold pg_select; rewrite ?limited_lim by lia;
    try change (param_int {[ "pid" := VInt pid ]} "pid")
          with (@inr string Z pid);
    cbn [on_ok]; intros [= <-]; (split; [intros n [= <-]|]);
    rewrite ?frame_len; try (apply limit_length; lia);
    unfold ordered_by; try exact I.
  all: try (column "userid" || column "song_id" || column "albumid"
            || column "release_date" || column "artistid"
            || column "song_count" || column "playlistid"
            || column "position" || column "liked_date"
            || column "like_count" || column "songs_liked").
  all: try (rewrite frame_len, length_fmap; split; [done|];
            eapply Sorted_fmap; [|sorted_rows];
            intros x y Hxy; exact Hxy).
  (* album tracks: two sort keys *)
  column "album_name". column "track_number".
  rewrite frame_len, !length_fmap, zip_fmap_same. do 2 (split; [done|]).
  eapply Sorted_fmap; [|sorted_rows].
  intros x y [[Hne Hle]|[Heq Hle]]; [left|right]; split; simpl;
    first [congruence | exact Hle].
Qed.

Lemma empty_frame_ordered o : ordered_by o empty_frame.
Proof. destruct o; simpl; auto using Sorted_nil. Qed.

(** C6, as the code has it: every listing returns a frame; the frame has
    no more rows than the listing's bound - the page's row limit for the
    viewer's tables and joined views and for [fetch_songs], the constant in
    the statement for the network and top-songs queries, none for the
    playlist picker, the playlist contents and the other four [fetch_*]
    helpers - and is sorted the way the statement orders it: by primary key
    for the tables, by the join's leading key or the business column for
    the joined views, not at all for the network query. *)
Theorem listings_are_bounded_and_ordered
    PGUSER (l : listing) (row_limit : Z) (w : World) :
  0 ≤ row_limit →
  ∃ df, (list_ PGUSER l row_limit w).1 = Ok df ∧
        (∀ n, bound_of l row_limit = Some n → Z.of_nat (df_len df) ≤ n) ∧
        ordered_by (ordering_of l) df.
Proof.
  intros Hlim.
  destruct (listing_outcome PGUSER l row_limit w) as [Hempty|(df & Hsel & Hdf)].
  - exists empty_frame. split; [exact Hempty|]. split.
    + intros n Hn. change (df_len empty_frame) with 0%nat.
      destruct l; simpl in Hn; try discriminate; injection Hn as <-; lia.
    + apply empty_frame_ordered.
  - exists df. split; [exact Hdf|].
    by apply (select_bounded_ordered l row_limit (tables (server w))).
Qed.

Lemma listings_are_bounded_and_ordered_witness :
  0 ≤ 1 ∧
  ∃ df, (list_ (Some "hawk") list_users 1 sample_world).1 = Ok df ∧
        Z.of_nat (df_len df) ≤ 1 ∧
        ordered_by (Ascending "userid") df.
Proof.
  assert (0 ≤ 1) as Hlim by lia.
  destruct (listings_are_bounded_and_ordered (Some "hawk") list_users 1
              sample_world Hlim) as (df & Hdf & Hbound & Hord).
  split; [exact Hlim|]. exists df. split; [exact Hdf|].
  split; [exact (Hbound 1 eq_refl)|exact Hord].
Defined.

(** C6 as stated fails: with the row limit at 1, [fetch_users] of the CRUD
    front-end still returns both users of the sample catalogue. *)
Lemma fetch_users_ignores_the_row_limit :
  ∃ df, (list_ (Some "hawk") fetch_users_ 1 sample_world).1 = Ok df ∧
        df_len df = 2%nat ∧ 1 < Z.of_nat (df_len df).
Proof.
  eexists. split; [vm_compute; reflexivity|]. split; reflexivity.
Qed.

(** ** The SQL text on the wire (claim C7) *)

Lemma run_world PGUSER o w :
  (run PGUSER o w).2 =
  match o with
  | List_ l row_limit => (list_ PGUSER l row_limit w).2
  | Mutate_ m => (call PGUSER m w).2
  end.
Proof.
  destruct o as [l row_limit|m]; unfold run, bind, ret.
  - by destruct (list_ PGUSER l row_limit w) as [[]].
  - by destruct (call PGUSER m w) as [[]].
Qed.

Lemma list_as_fetch PGUSER l row_limit w :
  wire (list_ PGUSER l row_limit w).2 =
  match outage (server w) with
  | Some _ => wire w
  | None => wire w ++ handshake PGUSER w ++
            [(sql_text (listing_stmt l), listing_params l row_limit)]
  end.
Proof.
  destruct (outage (server w)) as [msg|] eqn:Hout.
  - destruct l; unfold list_, app_full_crud.fetch_users,
      app_full_crud.fetch_artists, app_full_crud.fetch_albums,
      app_full_crud.fetch_songs, app_full_crud.fetch_playlists;
      first [ by apply (fetch_df_down PGUSER _ _ w msg Hout)
            | by apply (crud_fetch_df_down PGUSER _ _ w msg Hout) ].
  - destruct l; unfold list_, app_full_crud.fetch_users,
      app_full_crud.fetch_artists, app_full_crud.fetch_albums,
      app_full_crud.fetch_songs, app_full_crud.fetch_playlists, app.lim;
      cbn [listing_stmt listing_params];
      match goal with
      | |- context [app.fetch_df _ ?s ?ps] =>
          destruct (fetch_df_up PGUSER s ps w Hout)
            as (_ & _ & _ & _ & _ & _ & H & _)
      | |- context [app_full_crud.fetch_df _ ?s ?ps] =>
          destruct (crud_fetch_df_up PGUSER s ps w Hout)
            as (_ & _ & _ & _ & _ & _ & H & _)
      end; exact H.
Qed.

(** What one operation sends: nothing when the store is out, else the
    directives (on a new connection) and the text of its statement. *)
Lemma sent_run PGUSER o w :
  sent (run PGUSER o) w =
  match outage (server w) with
  | Some _ => []
  | None => (fst <$> handshake PGUSER w) ++ [sql_text (operation_stmt o)]
  end.
Proof.
  unfold sent. rewrite run_world. destruct o as [l row_limit|m].
  - rewrite list_as_fetch. destruct (outage (server w)).
    + by rewrite drop_all.
    + by rewrite drop_app_length, fmap_app.
  - rewrite call_mutate. destruct (outage (server w)) as [msg|] eqn:Hout.
    + destruct (mutate_down PGUSER (statement_of m) (params_of m) w msg Hout)
        as (_ & _ & _ & -> & _). by rewrite drop_all.
    + destruct (mutate_up PGUSER (statement_of m) (params_of m) w Hout)
        as (_ & _ & _ & _ & _ & -> & _).
      by rewrite drop_app_length, fmap_app.
Qed.

Lemma in_catalogue s : s ∈ catalogue.
Proof.
  unfold catalogue.
  destruct s;
    repeat first [apply list_elem_of_here | apply list_elem_of_further].
Qed.

(** C7: the SQL texts an operation of the data-access layer puts on the
    wire do not depend on the values its caller supplies - two calls of
    the same operation send the same texts - and each of them is either a
    statement of the fixed catalogue or one of the two session directives,
    of which only [SET search_path] is built from something ([PGUSER], a
    value of the server's environment). *)
Theorem sql_text_is_independent_of_input
    PGUSER (w : World) (o o' : operation) :
  same_operation o o' →
  sent (run PGUSER o) w = sent (run PGUSER o') w ∧
  (∀ t, t ∈ sent (run PGUSER o) w →
        t ∈ directives PGUSER ∨ t ∈ sql_text <$> catalogue) ∧
  directives PGUSER =
    ["SET statement_timeout TO 8000";
     "SET search_path TO " +:+ fstr PGUSER +:+ ", public"].
Proof.
  intros Hsame. rewrite !sent_run. split; [|split; [|reflexivity]].
  - destruct (outage (server w)); [done|]. do 2 f_equal.
    destruct o as [l ?|m], o' as [l' ?|m']; simpl in Hsame; try done.
    + simpl. destruct l, l'; simpl in Hsame; try discriminate; reflexivity.
    + simpl. by rewrite Hsame.
  - destruct (outage (server w)); [by intros t ?%elem_of_nil|].
    intros t [Ht|Ht]%elem_of_app.
    + left. unfold handshake in Ht. destruct (pool w).
      * by apply elem_of_nil in Ht.
      * by rewrite <- list_fmap_compose, list_fmap_id in Ht.
    + right. apply list_elem_of_singleton in Ht as ->.
      apply list_elem_of_fmap_2, in_catalogue.
Qed.

Lemma sql_text_is_independent_of_input_witness :
  same_operation (Mutate_ (insert_user_ "night_hawk_rocks"))
                 (Mutate_ (insert_user_ "x'); DROP TABLE User_table; --")) ∧
  sent (run (Some "hawk") (Mutate_ (insert_user_ "night_hawk_rocks")))
       sample_world =
  sent (run (Some "hawk")
          (Mutate_ (insert_user_ "x'); DROP TABLE User_table; --")))
       sample_world.
Proof.
  assert (same_operation (Mutate_ (insert_user_ "night_hawk_rocks"))
            (Mutate_ (insert_user_ "x'); DROP TABLE User_table; --")))
    as Hsame by reflexivity.
  split; [exact Hsame|].
  exact (proj1 (sql_text_is_independent_of_input (Some "hawk") sample_world
                  _ _ Hsame)).
Defined.

(** ** The row limit on the wire (claim C9) *)

Section sending.
Context (P : string * params → Prop).

Lemma sends_quiet {A} (m : Py A) :
  (∀ w, wire (m w).2 = wire w) → sends P m.
Proof.
  intros Hq w. exists []. by rewrite Hq, (right_id_L [] (++)).
Qed.

Lemma sends_ret {A} (a : A) : sends P (ret a).
Proof. by apply sends_quiet. Qed.

Lemma sends_raise {A} e : sends P (@raise A e).
Proof. by apply sends_quiet. Qed.

Lemma sends_show e : sends P (show e).
Proof. by apply sends_quiet. Qed.

Lemma sends_bind {A B} (m : Py A) (k : A → Py B) :
  sends P m → (∀ a, sends P (k a)) → sends P (bind m k).
Proof.
  intros Hm Hk w. unfold bind. destruct (Hm w) as (new & Hw & Hnew).
  destruct (m w) as [[a|e] w1]; simpl in Hw.
  - destruct (Hk a w1) as (new' & Hw' & Hnew').
    exists (new ++ new'). rewrite Hw', Hw, (assoc_L (++)).
    split; [done|]. by apply Forall_app.
  - by exists new.
Qed.

Lemma sends_when b (m : Py unit) : sends P m → sends P (when b m).
Proof. destruct b; [done|]. intros _. apply sends_ret. Qed.

Context (PGUSER : option string).
Hypothesis directives_ok : ∀ t, P (t, ∅).

Lemma handshake_ok w : Forall P (handshake PGUSER w).
Proof.
  unfold handshake. destruct (pool w); [constructor|].
  apply Forall_fmap, Forall_true. intros t. apply directives_ok.
Qed.

Lemma sends_fetch_df sql ps :
  P (sql_text sql, default ∅ ps) → sends P (app.fetch_df PGUSER sql ps).
Proof.
  intros Hsql w. destruct (outage (server w)) as [msg|] eqn:Hout.
  - destruct (fetch_df_down PGUSER sql ps w msg Hout)
      as (_ & _ & _ & _ & Hw & _).
    exists []. by rewrite Hw, (right_id_L [] (++)).
  - destruct (fetch_df_up PGUSER sql ps w Hout)
      as (_ & _ & _ & _ & _ & _ & Hw & _).
    eexists. split; [exact Hw|]. apply Forall_app. split.
    + apply handshake_ok.
    + by apply Forall_singleton.
Qed.

Lemma sends_crud_fetch_df sql ps :
  P (sql_text sql, default ∅ ps) →
  sends P (app_full_crud.fetch_df PGUSER sql ps).
Proof.
  intros Hsql w. destruct (outage (server w)) as [msg|] eqn:Hout.
  - destruct (crud_fetch_df_down PGUSER sql ps w msg Hout)
      as (_ & _ & _ & _ & Hw & _).
    exists []. by rewrite Hw, (right_id_L [] (++)).
  - destruct (crud_fetch_df_up PGUSER sql ps w Hout)
      as (_ & _ & _ & _ & _ & _ & Hw & _).
    eexists. split; [exact Hw|]. apply Forall_app. split.
    + apply handshake_ok.
    + by apply Forall_singleton.
Qed.

Lemma sends_mutate sql ps :
  P (sql_text sql, ps) → sends P (app_full_crud.mutate PGUSER sql ps).
Proof.
  intros Hsql w. destruct (outage (server w)) as [msg|] eqn:Hout.
  - destruct (mutate_down PGUSER sql ps w msg Hout)
      as (_ & _ & _ & Hw & _).
    exists []. by rewrite Hw, (right_id_L [] (++)).
  - destruct (mutate_up PGUSER sql ps w Hout)
      as (_ & _ & _ & _ & _ & Hw & _).
    eexists. split; [exact Hw|]. apply Forall_app. split.
    + apply handshake_ok.
    + by apply Forall_singleton.
Qed.
End sending.

Lemma number_input_range entered :
  1 ≤ number_input 1 (Some 2000) 200 entered ≤ 2000.
Proof.
  unfold number_input. destruct entered as [v|]; [|lia].
  destruct (bool_decide (1 ≤ v)) eqn:H1; [|simpl; lia].
  destruct (bool_decide (v ≤ 2000)) eqn:H2; [|simpl; lia].
  apply bool_decide_eq_true in H1, H2. simpl. lia.
Qed.

Lemma lim_in_range_no_lim t (ps : params) :
  ps !! "lim" = None → lim_in_range (t, ps).
Proof. intros Hno v Hv. simpl in Hv. congruence. Qed.

Lemma lim_in_range_lim t n :
  1 ≤ n ≤ 2000 → lim_in_range (t, {[ "lim" := VInt n ]}).
Proof.
  intros Hn v Hv. simpl in Hv. rewrite lookup_singleton_eq in Hv.
  injection Hv as <-. eauto.
Qed.

(** The parameters of one wire entry never carry an out-of-range limit. *)
Ltac entry :=
  unfold app.lim; cbn [default from_option id];
  first [ apply lim_in_range_lim, number_input_range
        | apply lim_in_range_no_lim; reflexivity ].

Ltac sending_step :=
  lazymatch goal with
  | |- sends _ (ret _) => apply sends_ret
  | |- sends _ (raise _) => apply sends_raise
  | |- sends _ (show _) => apply sends_show
  | |- sends _ (when _ _) => apply sends_when
  | |- sends _ (bind _ _) => apply sends_bind; [|intros ?]
  | |- sends _ (app.fetch_df _ _ _) =>
      apply sends_fetch_df; [intros ?; entry | entry]
  | |- sends _ (app_full_crud.fetch_df _ _ _) =>
      apply sends_crud_fetch_df; [intros ?; entry | entry]
  | |- sends _ (app_full_crud.mutate _ _ _) =>
      apply sends_mutate; [intros ?; entry | entry]
  | |- sends _ (if ?b then _ else _) => destruct b
  | |- sends _ (match ?x with _ => _ end) => destruct x
  end.

Lemma sends_make_url P PGHOST PGPORT PGDATABASE PGUSER PGPASSWORD PGSSLMODE :
  sends P (app.make_url PGHOST PGPORT PGDATABASE PGUSER PGPASSWORD PGSSLMODE).
Proof.
  apply sends_quiet. intros w. unfold app.make_url.
  by destruct (py_int PGPORT).
Qed.

Lemma sends_create_engine P PGHOST PGPORT PGDATABASE PGUSER PGPASSWORD :
  sends P (app_full_crud.create_engine PGHOST PGPORT PGDATABASE PGUSER
             PGPASSWORD).
Proof.
  apply sends_quiet. intros w.
  unfold app_full_crud.create_engine, app_full_crud.make_url, bind.
  by destruct (py_int PGPORT).
Qed.

Lemma sends_flash P what shown : sends P (app_full_crud.flash what shown).
Proof.
  assert (∀ key msg, sends P (app_full_crud.flash_one what shown key msg))
    as Hone.
  { intros key msg. apply sends_quiet. intros w.
    unfold app_full_crud.flash_one.
    destruct (session_state w !! key); [|done].
    by destruct (app_full_crud.rec_truthy _). }
  unfold app_full_crud.flash. repeat sending_step; apply Hone.
Qed.

Lemma sends_remember P key rec : sends P (app_full_crud.remember key rec).
Proof.
  unfold app_full_crud.remember, st_rerun.
  destruct rec; [|apply sends_ret].
  destruct (app_full_crud.rec_truthy _); [|apply sends_ret].
  apply sends_bind; [by apply sends_quiet|intros ?; apply sends_raise].
Qed.

Ltac sending :=
  repeat lazymatch goal with
    | |- sends _ (app.make_url _ _ _ _ _ _) => apply sends_make_url
    | |- sends _ (app_full_crud.create_engine _ _ _ _ _) =>
        apply sends_create_engine
    | |- sends _ (app_full_crud.flash _ _) => apply sends_flash
    | |- sends _ (app_full_crud.remember _ _) => apply sends_remember
    | |- _ => sending_step
    end.

Lemma sends_viewer_script env v :
  sends lim_in_range (app.main env v).
Proof.
  unfold app.main, app.script, app.tab1, app.tab2, app.tab3, app.tab4,
    app.tab5, app.tab6, app.visualizations, app.get_engine, st_stop.
  cbv zeta. sending.
Qed.

Lemma sends_crud_script env v :
  sends lim_in_range (app_full_crud.main env v).
Proof.
  unfold app_full_crud.main, app_full_crud.script, st_stop. cbv zeta.
  destruct (app_full_crud.act v);
    unfold app_full_crud.tab1, app_full_crud.tab2, app_full_crud.tab3,
      app_full_crud.tab4, app_full_crud.tab5,
      app_full_crud.fetch_users, app_full_crud.fetch_artists,
      app_full_crud.fetch_albums, app_full_crud.fetch_songs,
      app_full_crud.fetch_playlists,
      app_full_crud.insert_song, app_full_crud.update_song,
      app_full_crud.delete_song, app_full_crud.insert_artist,
      app_full_crud.update_artist, app_full_crud.delete_artist,
      app_full_crud.insert_user, app_full_crud.update_user,
      app_full_crud.delete_user, app_full_crud.insert_playlist,
      app_full_crud.update_playlist, app_full_crud.delete_playlist;
    cbv zeta; sending.
Qed.

(** C9: whatever the visitor enters in the "Row limit" field, every
    statement either script puts on the wire in one run binds [:lim], if at
    all, to an integer between 1 and 2000. *)
Theorem row_limit_on_the_wire_is_in_range
    (env : gmap string string) (w : World) :
  (∀ v, Forall lim_in_range
          (drop (length (wire w)) (wire (app.main env v w).2))) ∧
  (∀ v, Forall lim_in_range
          (drop (length (wire w)) (wire (app_full_crud.main env v w).2))).
Proof.
  assert (∀ A (m : Py A), sends lim_in_range m →
            Forall lim_in_range (drop (length (wire w)) (wire (m w).2)))
    as Hdrop.
  { intros A m Hm. destruct (Hm w) as (new & -> & Hnew).
    by rewrite drop_app_length. }
  split; intros v; apply Hdrop;
    [apply sends_viewer_script | apply sends_crud_script].
Qed.

(** The limits do reach the wire: the default 200 when the field is left
    alone or given an entry outside the range, and an entry inside the
    range as it is. *)
Lemma row_limit_reaches_the_wire :
  wire (app_full_crud.fetch_songs (Some "hawk")
          (number_input 1 (Some 2000) 200 None) sample_world).2 !! 2%nat =
    Some ("SELECT song_id, songName, dayReleased FROM Song ORDER BY song_id LIMIT :lim",
          {[ "lim" := VInt 200 ]}) ∧
  number_input 1 (Some 2000) 200 (Some 50) = 50 ∧
  number_input 1 (Some 2000) 200 (Some 5000) = 200.
Proof. repeat split; vm_compute; reflexivity. Qed.

(** * Further properties of the two applications *)

(** ** Deleting, and inserting and deleting again *)

Lemma release_unreferenced {C} fk (ref : C → Z) id (children : list C) :
  id ∉ ref <$> children → release fk ref id children = inr children.
Proof.
  intros Hno. unfold release. destruct fk.
  - by destruct (decide (id ∈ ref <$> children)).
  - by destruct (filter_key_absent ref id children Hno) as [_ ->].
Qed.

Lemma delete_refs_unreferenced fk e id db :
  id ∉ referenced e db →
  match e with
  | E_User => delete_user_refs fk id db
  | E_Artist => delete_artist_refs fk id db
  | E_Song => delete_song_refs fk id db
  | E_Playlist => delete_playlist_refs fk id db
  end = inr db.
Proof.
  destruct e; simpl; rewrite ?not_elem_of_app; intros Hno;
    unfold delete_user_refs, delete_artist_refs, delete_song_refs,
      delete_playlist_refs;
    rewrite !release_unreferenced by tauto; cbn [on_ok]; by destruct db.
Qed.

Ltac deleted PGUSER w Hup m :=
  let H := fresh "H" in
  rewrite call_mutate;
  pose proof (mutate_up PGUSER (statement_of m) (params_of m) w Hup)
    as [H _];
  simpl in H; revert H;
  change (pg_exec (on_delete (server w)) (statement_of m) (params_of m)
            (sequences (server w)) (tables (server w)))
    with (store_answer m w);
  answer; unfold pk_delete; cbn [fst snd].

Ltac delete_present PGUSER w Hup m e id Hf Hno :=
  deleted PGUSER w Hup m;
  rewrite Hf, (delete_refs_unreferenced _ e id _ Hno); cbn [on_ok];
  intros [-> ->]; split; reflexivity.

Lemma delete_present_song PGUSER w sid r rest :
  outage (server w) = None →
  filter (fun r => song_id r = sid) (Song_table (tables (server w))) =
    r :: rest →
  sid ∉ referenced E_Song (tables (server w)) →
  let out := call PGUSER (delete_song_ sid) w in
  out.1 = Ok (Some (list_to_map (zip (fold_ident <$> song_columns)
                                   (song_row r)))) ∧
  tables (server out.2) =
    with_songs (tables (server w))
      (filter (fun r => song_id r ≠ sid) (Song_table (tables (server w)))).
Proof.
  intros Hup Hf Hno out. subst out.
  delete_present PGUSER w Hup (delete_song_ sid) E_Song sid Hf Hno.
Qed.

Lemma delete_present_artist PGUSER w aid r rest :
  outage (server w) = None →
  filter (fun r => artistID r = aid) (Artist_table (tables (server w))) =
    r :: rest →
  aid ∉ referenced E_Artist (tables (server w)) →
  let out := call PGUSER (delete_artist_ aid) w in
  out.1 = Ok (Some (list_to_map (zip (fold_ident <$> artist_columns)
                                   (artist_row r)))) ∧
  tables (server out.2) =
    with_artists (tables (server w))
      (filter (fun r => artistID r ≠ aid)
         (Artist_table (tables (server w)))).
Proof.
  intros Hup Hf Hno out. subst out.
  delete_present PGUSER w Hup (delete_artist_ aid) E_Artist aid Hf Hno.
Qed.

Lemma delete_present_user PGUSER w uid r rest :
  outage (server w) = None →
  filter (fun r => userID r = uid) (User_table (tables (server w))) =
    r :: rest →
  uid ∉ referenced E_User (tables (server w)) →
  let out := call PGUSER (delete_user_ uid) w in
  out.1 = Ok (Some (list_to_map (zip (fold_ident <$> user_columns)
                                   (user_row r)))) ∧
  tables (server out.2) =
    with_users (tables (server w))
      (filter (fun r => userID r ≠ uid) (User_table (tables (server w)))).
Proof.
  intros Hup Hf Hno out. subst out.
  delete_present PGUSER w Hup (delete_user_ uid) E_User uid Hf Hno.
Qed.

Lemma delete_present_playlist PGUSER w pid r rest :
  outage (server w) = None →
  filter (fun r => playlistID r = pid)
    (Playlist_table (tables (server w))) = r :: rest →
  pid ∉ referenced E_Playlist (tables (server w)) →
  let out := call PGUSER (delete_playlist_ pid) w in
  out.1 = Ok (Some (list_to_map (zip (fold_ident <$> playlist_columns)
                                   (playlist_row r)))) ∧
  tables (server out.2) =
    with_playlists (tables (server w))
      (filter (fun r => playlistID r ≠ pid)
         (Playlist_table (tables (server w)))).
Proof.
  intros Hup Hf Hno out. subst out.
  delete_present PGUSER w Hup (delete_playlist_ pid) E_Playlist pid Hf Hno.
Qed.

Lemma first_hit {R} (key : R → Z) id (l : list R) r rest :
  filter (fun r => key r = id) l = r :: rest → r ∈ l ∧ key r = id.
Proof.
  intros Hf. assert (r ∈ filter (fun r => key r = id) l) as Hin
    by (rewrite Hf; apply list_elem_of_here).
  apply list_elem_of_filter in Hin. tauto.
Qed.

(** X1: with the store reachable, deleting a key that is in the table and that
    no association row points at returns the projection of a row that
    carried the key and removes the rows with that key; the other rows
    keep their order and no other table changes. *)
Theorem delete_removes_exactly_the_target PGUSER (w : World) :
  outage (server w) = None →
  let db := tables (server w) in
  (∀ sid,
      sid ∈ ids E_Song db → sid ∉ referenced E_Song db →
      let out := call PGUSER (delete_song_ sid) w in
      (∃ r, r ∈ Song_table db ∧ song_id r = sid ∧
            out.1 = Ok (Some (list_to_map
                                [("song_id", VInt sid);
                                 ("songname", VText (songName r));
                                 ("dayreleased", VDate (dayReleased r))]))) ∧
      tables (server out.2) =
        with_songs db (filter (fun r => song_id r ≠ sid) (Song_table db))) ∧
  (∀ aid,
      aid ∈ ids E_Artist db → aid ∉ referenced E_Artist db →
      let out := call PGUSER (delete_artist_ aid) w in
      (∃ r, r ∈ Artist_table db ∧ artistID r = aid ∧
            out.1 = Ok (Some (list_to_map
                                [("artistid", VInt aid);
                                 ("artist_name", VText (artist_name r));
                                 ("artist_location",
                                  text_or_null (artist_location r))]))) ∧
      tables (server out.2) =
        with_artists db
          (filter (fun r => artistID r ≠ aid) (Artist_table db))) ∧
  (∀ uid,
      uid ∈ ids E_User db → uid ∉ referenced E_User db →
      let out := call PGUSER (delete_user_ uid) w in
      (∃ r, r ∈ User_table db ∧ userID r = uid ∧
            out.1 = Ok (Some (list_to_map
                                [("userid", VInt uid);
                                 ("username", VText (userName r))]))) ∧
      tables (server out.2) =
        with_users db (filter (fun r => userID r ≠ uid) (User_table db))) ∧
  (∀ pid,
      pid ∈ ids E_Playlist db → pid ∉ referenced E_Playlist db →
      let out := call PGUSER (delete_playlist_ pid) w in
      (∃ r, r ∈ Playlist_table db ∧ playlistID r = pid ∧
            out.1 = Ok (Some (list_to_map
                                [("playlistid", VInt pid);
                                 ("playlist_name", VText (playlist_name r));
                                 ("num_songs", VInt (num_songs r))]))) ∧
      tables (server out.2) =
        with_playlists db
          (filter (fun r => playlistID r ≠ pid) (Playlist_table db))).
Proof.
  intros Hup db. subst db. split; [|split; [|split]].
  - intros sid Hid Hno out. subst out. simpl in Hid.
    destruct (filter_key_present song_id sid _ Hid) as (r & rest & Hf & Hr).
    destruct (delete_present_song PGUSER w sid r rest Hup Hf Hno) as [H1 H2].
    split; [|exact H2]. exists r. destruct (first_hit _ _ _ _ _ Hf).
    split; [done|]. split; [done|]. by rewrite H1, <- Hr.
  - intros aid Hid Hno out. subst out. simpl in Hid.
    destruct (filter_key_present artistID aid _ Hid) as (r & rest & Hf & Hr).
    destruct (delete_present_artist PGUSER w aid r rest Hup Hf Hno)
      as [H1 H2].
    split; [|exact H2]. exists r. destruct (first_hit _ _ _ _ _ Hf).
    split; [done|]. split; [done|]. by rewrite H1, <- Hr.
  - intros uid Hid Hno out. subst out. simpl in Hid.
    destruct (filter_key_present userID uid _ Hid) as (r & rest & Hf & Hr).
    destruct (delete_present_user PGUSER w uid r rest Hup Hf Hno) as [H1 H2].
    split; [|exact H2]. exists r. destruct (first_hit _ _ _ _ _ Hf).
    split; [done|]. split; [done|]. by rewrite H1, <- Hr.
  - intros pid Hid Hno out. subst out. simpl in Hid.
    destruct (filter_key_present playlistID pid _ Hid)
      as (r & rest & Hf & Hr).
    destruct (delete_present_playlist PGUSER w pid r rest Hup Hf Hno)
      as [H1 H2].
    split; [|exact H2]. exists r. destruct (first_hit _ _ _ _ _ Hf).
    split; [done|]. split; [done|]. by rewrite H1, <- Hr.
Qed.

Lemma delete_removes_exactly_the_target_witness :
  outage (server sample_world) = None ∧
  2 ∈ ids E_Artist (tables (server sample_world)) ∧
  (2 ∉ referenced E_Artist (tables (server sample_world))) ∧
  tables (server (call (Some "hawk") (delete_artist_ 2) sample_world).2) =
    with_artists sample_db [mkArtist 1 "Ann" None].
Proof.
  assert (2 ∈ ids E_Artist (tables (server sample_world))) as Hid
    by (simpl; rewrite !elem_of_cons; auto).
  assert (2 ∉ referenced E_Artist (tables (server sample_world))) as Hno.
  { simpl. rewrite !elem_of_cons, elem_of_nil. intros [|[|[]]]; discriminate. }
  split; [reflexivity|]. split; [exact Hid|]. split; [exact Hno|].
  exact (proj2 (proj1 (proj2 (delete_removes_exactly_the_target (Some "hawk")
                                sample_world eq_refl))
                  2 Hid Hno)).
Defined.

Ltac insert_step PGUSER w Hup m :=
  let H := fresh "H" in
  let H' := fresh "H" in
  pose proof (mutate_up PGUSER (statement_of m) (params_of m) w Hup)
    as (H & _ & H' & _);
  rewrite <- (call_mutate PGUSER m) in H, H';
  cbv zeta in H; revert H;
  change (pg_exec (on_delete (server w)) (statement_of m) (params_of m)
            (sequences (server w)) (tables (server w)))
    with (store_answer m w);
  answer; unfold pk_insert; cbn [fst snd];
  destruct (decide _) as [|_]; [done|]; cbn [on_ok];
  intros [-> ->]; auto.

Lemma insert_song_step PGUSER w n d :
  outage (server w) = None →
  let r := mkSong (seq_song (sequences (server w)) + 1) n d in
  song_id r ∉ ids E_Song (tables (server w)) →
  let out := call PGUSER (insert_song_ n d) w in
  out.1 = Ok (Some (list_to_map (zip (fold_ident <$> song_columns)
                                   (song_row r)))) ∧
  tables (server out.2) =
    with_songs (tables (server w)) (Song_table (tables (server w)) ++ [r]) ∧
  outage (server out.2) = None.
Proof.
  intros Hup r Hnew out. subst r out. simpl in Hnew.
  insert_step PGUSER w Hup (insert_song_ n d).
Qed.

Lemma insert_artist_step PGUSER w n l :
  outage (server w) = None →
  let r := mkArtist (seq_artist (sequences (server w)) + 1) n l in
  artistID r ∉ ids E_Artist (tables (server w)) →
  let out := call PGUSER (insert_artist_ n l) w in
  out.1 = Ok (Some (list_to_map (zip (fold_ident <$> artist_columns)
                                   (artist_row r)))) ∧
  tables (server out.2) =
    with_artists (tables (server w))
      (Artist_table (tables (server w)) ++ [r]) ∧
  outage (server out.2) = None.
Proof.
  intros Hup r Hnew out. subst r out. simpl in Hnew.
  insert_step PGUSER w Hup (insert_artist_ n l).
Qed.

Lemma insert_user_step PGUSER w n :
  outage (server w) = None →
  let r := mkUser (seq_user (sequences (server w)) + 1) n in
  userID r ∉ ids E_User (tables (server w)) →
  let out := call PGUSER (insert_user_ n) w in
  out.1 = Ok (Some (list_to_map (zip (fold_ident <$> user_columns)
                                   (user_row r)))) ∧
  tables (server out.2) =
    with_users (tables (server w)) (User_table (tables (server w)) ++ [r]) ∧
  outage (server out.2) = None.
Proof.
  intros Hup r Hnew out. subst r out. simpl in Hnew.
  insert_step PGUSER w Hup (insert_user_ n).
Qed.

Lemma insert_playlist_step PGUSER w n ns :
  outage (server w) = None →
  let r := mkPlaylist (seq_playlist (sequences (server w)) + 1) n ns in
  playlistID r ∉ ids E_Playlist (tables (server w)) →
  let out := call PGUSER (insert_playlist_ n ns) w in
  out.1 = Ok (Some (list_to_map (zip (fold_ident <$> playlist_columns)
                                   (playlist_row r)))) ∧
  tables (server out.2) =
    with_playlists (tables (server w))
      (Playlist_table (tables (server w)) ++ [r]) ∧
  outage (server out.2) = None.
Proof.
  intros Hup r Hnew out. subst r out. simpl in Hnew.
  insert_step PGUSER w Hup (insert_playlist_ n ns).
Qed.

Lemma filter_appended {R} (key : R → Z) (l : list R) r :
  key r ∉ key <$> l →
  filter (fun x => key x = key r) (l ++ [r]) = [r] ∧
  filter (fun x => key x ≠ key r) (l ++ [r]) = l.
Proof.
  intros Hnew. destruct (filter_key_absent key (key r) l Hnew) as [H1 H2].
  rewrite !list.filter_app, H1, H2, !filter_cons, !filter_nil.
  destruct (decide (key r = key r)); [|done].
  destruct (decide (key r ≠ key r)); [done|].
  by rewrite (right_id_L [] (++)).
Qed.

Lemma ahead_is_new e db sq :
  (∀ id, id ∈ ids e db ++ referenced e db → id ≤ last_key e sq) →
  (last_key e sq + 1 ∉ ids e db) ∧ (last_key e sq + 1 ∉ referenced e db).
Proof.
  intros Hle. split; intros Hin;
    (assert (last_key e sq + 1 ≤ last_key e sq) by
       (apply Hle, elem_of_app; auto)); lia.
Qed.

(** X2: insert and delete undo each other: with the store reachable and the
    sequence ahead of every key in use (in the table or in an association
    row), deleting the key an insert helper has just returned gives back
    the same record and leaves all tables as they were before the insert. *)
Theorem insert_then_delete_restores_the_tables PGUSER (w : World) :
  outage (server w) = None →
  let db := tables (server w) in
  let sq := sequences (server w) in
  (∀ n d,
      (∀ id, id ∈ ids E_Song db ++ referenced E_Song db → id ≤ seq_song sq) →
      let first := call PGUSER (insert_song_ n d) w in
      let second := call PGUSER (delete_song_ (seq_song sq + 1)) first.2 in
      second.1 = first.1 ∧ (∃ rec, first.1 = Ok (Some rec)) ∧
      tables (server second.2) = db) ∧
  (∀ n l,
      (∀ id, id ∈ ids E_Artist db ++ referenced E_Artist db →
             id ≤ seq_artist sq) →
      let first := call PGUSER (insert_artist_ n l) w in
      let second := call PGUSER (delete_artist_ (seq_artist sq + 1)) first.2 in
      second.1 = first.1 ∧ (∃ rec, first.1 = Ok (Some rec)) ∧
      tables (server second.2) = db) ∧
  (∀ n,
      (∀ id, id ∈ ids E_User db ++ referenced E_User db → id ≤ seq_user sq) →
      let first := call PGUSER (insert_user_ n) w in
      let second := call PGUSER (delete_user_ (seq_user sq + 1)) first.2 in
      second.1 = first.1 ∧ (∃ rec, first.1 = Ok (Some rec)) ∧
      tables (server second.2) = db) ∧
  (∀ n ns,
      (∀ id, id ∈ ids E_Playlist db ++ referenced E_Playlist db →
             id ≤ seq_playlist sq) →
      let first := call PGUSER (insert_playlist_ n ns) w in
      let second :=
        call PGUSER (delete_playlist_ (seq_playlist sq + 1)) first.2 in
      second.1 = first.1 ∧ (∃ rec, first.1 = Ok (Some rec)) ∧
      tables (server second.2) = db).
Proof.
  intros Hup db sq. subst db sq.
  destruct (with_same_table (tables (server w))) as (Hu & Ha & Hs & Hp).
  split; [|split; [|split]].
  - intros n d Hseq first second. subst first second.
    destruct (ahead_is_new E_Song _ _ Hseq) as [Hnew Hno].
    destruct (insert_song_step PGUSER w n d Hup Hnew) as (H1 & H2 & Hup').
    set (r := mkSong (seq_song (sequences (server w)) + 1) n d) in *.
    destruct (filter_appended song_id (Song_table (tables (server w))) r Hnew)
      as [Hf Hf'].
    destruct (delete_present_song PGUSER _ (song_id r) r [] Hup') as [H3 H4].
    { by rewrite H2. } { by rewrite H2. }
    subst r. cbn [song_id artistID userID playlistID] in *.
    rewrite H2 in H4. cbn [Song_table with_songs] in H4. rewrite Hf' in H4.
    split; [by rewrite H3, H1|]. split; [eauto|].
    rewrite H4. by destruct (tables (server w)).
  - intros n l Hseq first second. subst first second.
    destruct (ahead_is_new E_Artist _ _ Hseq) as [Hnew Hno].
    destruct (insert_artist_step PGUSER w n l Hup Hnew) as (H1 & H2 & Hup').
    set (r := mkArtist (seq_artist (sequences (server w)) + 1) n l) in *.
    destruct (filter_appended artistID (Artist_table (tables (server w))) r
                Hnew) as [Hf Hf'].
    destruct (delete_present_artist PGUSER _ (artistID r) r [] Hup')
      as [H3 H4].
    { by rewrite H2. } { by rewrite H2. }
    subst r. cbn [song_id artistID userID playlistID] in *.
    rewrite H2 in H4. cbn [Artist_table with_artists] in H4. rewrite Hf' in H4.
    split; [by rewrite H3, H1|]. split; [eauto|].
    rewrite H4. by destruct (tables (server w)).
  - intros n Hseq first second. subst first second.
    destruct (ahead_is_new E_User _ _ Hseq) as [Hnew Hno].
    destruct (insert_user_step PGUSER w n Hup Hnew) as (H1 & H2 & Hup').
    set (r := mkUser (seq_user (sequences (server w)) + 1) n) in *.
    destruct (filter_appended userID (User_table (tables (server w))) r Hnew)
      as [Hf Hf'].
    destruct (delete_present_user PGUSER _ (userID r) r [] Hup') as [H3 H4].
    { by rewrite H2. } { by rewrite H2. }
    subst r. cbn [song_id artistID userID playlistID] in *.
    rewrite H2 in H4. cbn [User_table with_users] in H4. rewrite Hf' in H4.
    split; [by rewrite H3, H1|]. split; [eauto|].
    rewrite H4. by destruct (tables (server w)).
  - intros n ns Hseq first second. subst first second.
    destruct (ahead_is_new E_Playlist _ _ Hseq) as [Hnew Hno].
    destruct (insert_playlist_step PGUSER w n ns Hup Hnew)
      as (H1 & H2 & Hup').
    set (r := mkPlaylist (seq_playlist (sequences (server w)) + 1) n ns) in *.
    destruct (filter_appended playlistID
                (Playlist_table (tables (server w))) r Hnew) as [Hf Hf'].
    destruct (delete_present_playlist PGUSER _ (playlistID r) r [] Hup')
      as [H3 H4].
    { by rewrite H2. } { by rewrite H2. }
    subst r. cbn [song_id artistID userID playlistID] in *.
    rewrite H2 in H4. cbn [Playlist_table with_playlists] in H4. rewrite Hf' in H4.
    split; [by rewrite H3, H1|]. split; [eauto|].
    rewrite H4. by destruct (tables (server w)).
Qed.

Lemma insert_then_delete_restores_the_tables_witness :
  outage (server sample_world) = None ∧
  (∀ id, id ∈ ids E_Playlist (tables (server sample_world)) ++
              referenced E_Playlist (tables (server sample_world)) →
         id ≤ seq_playlist (sequences (server sample_world))) ∧
  tables (server (call (Some "hawk") (delete_playlist_ 2)
                    (call (Some "hawk") (insert_playlist_ "Road trip" 0)
                       sample_world).2).2) = sample_db.
Proof.
  assert (∀ id, id ∈ ids E_Playlist (tables (server sample_world)) ++
                     referenced E_Playlist (tables (server sample_world)) →
                id ≤ seq_playlist (sequences (server sample_world))) as Hseq.
  { intros id. simpl. rewrite !elem_of_cons, elem_of_nil.
    intros [-> | [-> | [-> | []]]]; lia. }
  split; [reflexivity|]. split; [exact Hseq|].
  exact (proj2 (proj2 (proj2 (proj2 (proj2
           (insert_then_delete_restores_the_tables (Some "hawk") sample_world
              eq_refl))) "Road trip" 0 Hseq))).
Defined.

(** ** Updating twice *)

Lemma filter_key_split {R} (key : R → Z) id (f : R → R) (tbl : list R) :
  (∀ r, key (f r) = key r) →
  let moved := filter (fun r => key r ≠ id) tbl ++
               (f <$> filter (fun r => key r = id) tbl) in
  filter (fun r => key r ≠ id) moved = filter (fun r => key r ≠ id) tbl ∧
  filter (fun r => key r = id) moved =
    f <$> filter (fun r => key r = id) tbl.
Proof.
  intros Hkey moved. subst moved. rewrite !list.filter_app.
  assert (filter (fun r => key r ≠ id) (filter (fun r => key r ≠ id) tbl) =
          filter (fun r => key r ≠ id) tbl) as ->.
  { induction tbl as [|r tbl IH]; [done|]. rewrite filter_cons.
    destruct (decide (key r ≠ id)); [|done].
    by rewrite filter_cons_True, IH. }
  assert (filter (fun r => key r = id) (filter (fun r => key r ≠ id) tbl) =
          []) as ->.
  { induction tbl as [|r tbl IH]; [done|]. rewrite filter_cons.
    destruct (decide (key r ≠ id)); [|done].
    by rewrite filter_cons_False. }
  assert (filter (fun r => key r ≠ id)
            (f <$> filter (fun r => key r = id) tbl) = []) as ->.
  { induction tbl as [|r tbl IH]; [done|]. rewrite filter_cons.
    destruct (decide (key r = id)); [|done].
    rewrite fmap_cons, filter_cons_False; [done|]. rewrite Hkey. auto. }
  assert (filter (fun r => key r = id)
            (f <$> filter (fun r => key r = id) tbl) =
          f <$> filter (fun r => key r = id) tbl) as ->.
  { induction tbl as [|r tbl IH]; [done|]. rewrite filter_cons.
    destruct (decide (key r = id)); [|done].
    rewrite fmap_cons, filter_cons_True by (by rewrite Hkey).
    by rewrite IH. }
  by rewrite app_nil_r.
Qed.

Lemma pk_update_twice {R} (key : R → Z) id (f1 f2 : R → R) tbl :
  (∀ r, key (f1 r) = key r) → (∀ r, f2 (f1 r) = f2 r) →
  pk_update key id f2 (pk_update key id f1 tbl).1 = pk_update key id f2 tbl.
Proof.
  intros Hkey Hf. unfold pk_update. cbn [fst].
  destruct (filter_key_split key id f1 tbl Hkey) as [-> ->].
  rewrite <- list_fmap_compose.
  by rewrite (list_fmap_ext (f2 ∘ f1) f2 _ (fun _ r _ => Hf r)).
Qed.

Ltac update_step PGUSER w Hup m :=
  let H := fresh "H" in
  let H' := fresh "H" in
  pose proof (mutate_up PGUSER (statement_of m) (params_of m) w Hup)
    as (H & _ & H' & _);
  rewrite <- (call_mutate PGUSER m) in H, H';
  cbv zeta in H; revert H;
  change (pg_exec (on_delete (server w)) (statement_of m) (params_of m)
            (sequences (server w)) (tables (server w)))
    with (store_answer m w);
  answer; cbn [fst snd]; intros [-> ->]; auto.

Lemma update_song_step PGUSER w sid n d :
  outage (server w) = None →
  let u := pk_update song_id sid (fun r => mkSong (song_id r) n d)
             (Song_table (tables (server w))) in
  let df := returning ["song_id"; "songName"; "dayReleased"] song_row u.2 in
  let out := call PGUSER (update_song_ sid n d) w in
  out.1 = Ok (if negb (df_empty df) then iloc0_to_dict df else None) ∧
  tables (server out.2) = with_songs (tables (server w)) u.1 ∧
  outage (server out.2) = None.
Proof.
  intros Hup u df out. subst u df out.
  update_step PGUSER w Hup (update_song_ sid n d).
Qed.

Lemma update_artist_step PGUSER w aid n l :
  outage (server w) = None →
  let u := pk_update artistID aid (fun r => mkArtist (artistID r) n l)
             (Artist_table (tables (server w))) in
  let df := returning ["artistID"; "artist_name"; "artist_location"]
              artist_row u.2 in
  let out := call PGUSER (update_artist_ aid n l) w in
  out.1 = Ok (if negb (df_empty df) then iloc0_to_dict df else None) ∧
  tables (server out.2) = with_artists (tables (server w)) u.1 ∧
  outage (server out.2) = None.
Proof.
  intros Hup u df out. subst u df out.
  update_step PGUSER w Hup (update_artist_ aid n l).
Qed.

Lemma update_user_step PGUSER w uid n :
  outage (server w) = None →
  let u := pk_update userID uid (fun r => mkUser (userID r) n)
             (User_table (tables (server w))) in
  let df := returning ["userID"; "userName"] user_row u.2 in
  let out := call PGUSER (update_user_ uid n) w in
  out.1 = Ok (if negb (df_empty df) then iloc0_to_dict df else None) ∧
  tables (server out.2) = with_users (tables (server w)) u.1 ∧
  outage (server out.2) = None.
Proof.
  intros Hup u df out. subst u df out.
  update_step PGUSER w Hup (update_user_ uid n).
Qed.

Lemma update_playlist_step PGUSER w pid n ns :
  outage (server w) = None →
  let u := pk_update playlistID pid (fun r => mkPlaylist (playlistID r) n ns)
             (Playlist_table (tables (server w))) in
  let df := returning ["playlistID"; "playlist_name"; "num_songs"]
              playlist_row u.2 in
  let out := call PGUSER (update_playlist_ pid n ns) w in
  out.1 = Ok (if negb (df_empty df) then iloc0_to_dict df else None) ∧
  tables (server out.2) = with_playlists (tables (server w)) u.1 ∧
  outage (server out.2) = None.
Proof.
  intros Hup u df out. subst u df out.
  update_step PGUSER w Hup (update_playlist_ pid n ns).
Qed.

(** X3: the last update wins: with the store reachable, updating a key and
    then updating it again returns what the second update alone would have
    returned and leaves the tables as the second update alone would have
    left them, whether or not the key exists. *)
Theorem second_update_overrides_the_first PGUSER (w : World) :
  outage (server w) = None →
  (∀ sid n1 d1 n2 d2,
      let w1 := (call PGUSER (update_song_ sid n1 d1) w).2 in
      let both := call PGUSER (update_song_ sid n2 d2) w1 in
      let last := call PGUSER (update_song_ sid n2 d2) w in
      both.1 = last.1 ∧ tables (server both.2) = tables (server last.2)) ∧
  (∀ aid n1 l1 n2 l2,
      let w1 := (call PGUSER (update_artist_ aid n1 l1) w).2 in
      let both := call PGUSER (update_artist_ aid n2 l2) w1 in
      let last := call PGUSER (update_artist_ aid n2 l2) w in
      both.1 = last.1 ∧ tables (server both.2) = tables (server last.2)) ∧
  (∀ uid n1 n2,
      let w1 := (call PGUSER (update_user_ uid n1) w).2 in
      let both := call PGUSER (update_user_ uid n2) w1 in
      let last := call PGUSER (update_user_ uid n2) w in
      both.1 = last.1 ∧ tables (server both.2) = tables (server last.2)) ∧
  (∀ pid n1 ns1 n2 ns2,
      let w1 := (call PGUSER (update_playlist_ pid n1 ns1) w).2 in
      let both := call PGUSER (update_playlist_ pid n2 ns2) w1 in
      let last := call PGUSER (update_playlist_ pid n2 ns2) w in
      both.1 = last.1 ∧ tables (server both.2) = tables (server last.2)).
Proof.
  intros Hup. split; [|split; [|split]].
  - intros sid n1 d1 n2 d2 w1 both last. subst w1 both last.
    destruct (update_song_step PGUSER w sid n1 d1 Hup) as (_ & T1 & Hup1).
    destruct (update_song_step PGUSER _ sid n2 d2 Hup1) as (-> & -> & _).
    destruct (update_song_step PGUSER w sid n2 d2 Hup) as (-> & -> & _).
    rewrite T1. cbn [Song_table with_songs].
    rewrite (pk_update_twice song_id sid) by done. by destruct (tables _).
  - intros aid n1 l1 n2 l2 w1 both last. subst w1 both last.
    destruct (update_artist_step PGUSER w aid n1 l1 Hup) as (_ & T1 & Hup1).
    destruct (update_artist_step PGUSER _ aid n2 l2 Hup1) as (-> & -> & _).
    destruct (update_artist_step PGUSER w aid n2 l2 Hup) as (-> & -> & _).
    rewrite T1. cbn [Artist_table with_artists].
    rewrite (pk_update_twice artistID aid) by done. by destruct (tables _).
  - intros uid n1 n2 w1 both last. subst w1 both last.
    destruct (update_user_step PGUSER w uid n1 Hup) as (_ & T1 & Hup1).
    destruct (update_user_step PGUSER _ uid n2 Hup1) as (-> & -> & _).
    destruct (update_user_step PGUSER w uid n2 Hup) as (-> & -> & _).
    rewrite T1. cbn [User_table with_users].
    rewrite (pk_update_twice userID uid) by done. by destruct (tables _).
  - intros pid n1 ns1 n2 ns2 w1 both last. subst w1 both last.
    destruct (update_playlist_step PGUSER w pid n1 ns1 Hup)
      as (_ & T1 & Hup1).
    destruct (update_playlist_step PGUSER _ pid n2 ns2 Hup1)
      as (-> & -> & _).
    destruct (update_playlist_step PGUSER w pid n2 ns2 Hup) as (-> & -> & _).
    rewrite T1. cbn [Playlist_table with_playlists].
    rewrite (pk_update_twice playlistID pid) by done. by destruct (tables _).
Qed.

Lemma second_update_overrides_the_first_witness :
  outage (server sample_world) = None ∧
  tables (server (call (Some "hawk") (update_user_ 1 "amy2")
                    (call (Some "hawk") (update_user_ 1 "amy1")
                       sample_world).2).2) =
  tables (server (call (Some "hawk") (update_user_ 1 "amy2") sample_world).2).
Proof.
  split; [reflexivity|].
  exact (proj2 (proj1 (proj2 (proj2 (second_update_overrides_the_first
                                       (Some "hawk") sample_world eq_refl)))
                  1 "amy1" "amy2")).
Defined.

(** ** What the aggregates count *)

Lemma count_some_app {A B} (col : A → option B) (l1 l2 : list A) :
  count_some col (l1 ++ l2) = count_some col l1 + count_some col l2.
Proof.
  unfold count_some. rewrite list.filter_app, length_app. lia.
Qed.

Lemma filter_keeps_all {A} (P : A → Prop) `{∀ x, Decision (P x)} (l : list A) :
  Forall P l → filter P l = l.
Proof.
  induction 1 as [|x l Hx _ IH]; [done|].
  by rewrite filter_cons, decide_True, IH.
Qed.

Lemma filter_keeps_none {A} (P : A → Prop) `{∀ x, Decision (P x)}
    (l : list A) :
  Forall (fun x => ¬ P x) l → filter P l = [].
Proof.
  induction 1 as [|x l Hx _ IH]; [done|].
  by rewrite filter_cons, decide_False, IH.
Qed.

Section counting.
Context {A B K : Type} `{EqDecision K}.
Context (on : A → B → bool) (kA : A → K).
Implicit Types (l : list A) (r : list B).

Lemma inner_join_cons a l r :
  inner_join on (a :: l) r =
  ((fun b => (a, b)) <$> filter (fun b => on a b = true) r) ++
  inner_join on l r.
Proof. reflexivity. Qed.

Lemma left_join_cons a l r :
  left_join on (a :: l) r =
  match filter (fun b => on a b = true) r with
  | [] => [(a, None)]
  | m => (fun b => (a, Some b)) <$> m
  end ++ left_join on l r.
Proof. reflexivity. Qed.

Lemma filter_fmap_left {C D} k (a : A) (g : C → A * D) (m : list C) :
  (∀ c, (g c).1 = a) →
  filter (fun x : A * D => kA x.1 = k) (g <$> m) =
  if decide (kA a = k) then g <$> m else [].
Proof.
  intros Hg. induction m as [|c m IH]; [by destruct (decide (kA a = k))|].
  rewrite fmap_cons, filter_cons, IH, Hg.
  by destruct (decide (kA a = k)).
Qed.

(** [COUNT(col)] over the group of key [k] of a left join counts the
    matched pairs whose left row has that key. *)
Lemma count_left_join_group {C} (g : B → C) k l r :
  count_some (fun x : A * option B => g <$> x.2)
    (filter (fun x => kA x.1 = k) (left_join on l r)) =
  Z.of_nat (length (filter (fun x => kA x.1 = k) (inner_join on l r))).
Proof.
  induction l as [|a l IH]; [done|].
  rewrite left_join_cons, inner_join_cons, !list.filter_app, count_some_app,
    length_app, IH, Nat2Z.inj_add.
  f_equal.
  rewrite (filter_fmap_left k a (fun b => (a, b))) by done.
  destruct (filter (fun b => on a b = true) r) as [|b m].
  - rewrite filter_cons, filter_nil. simpl.
    by destruct (decide (kA a = k)).
  - rewrite (filter_fmap_left k a (fun b => (a, Some b))) by done.
    destruct (decide (kA a = k)); [|done].
    unfold count_some. rewrite !length_fmap.
    rewrite filter_keeps_all; [by rewrite length_fmap|].
    apply Forall_fmap, Forall_true. intros b'. simpl. eauto.
Qed.

(** With distinct keys on the left, those pairs are the matches of the one
    left row that has the key. *)
Lemma inner_join_group_distinct a l r :
  NoDup (kA <$> l) → a ∈ l →
  length (filter (fun x => kA x.1 = kA a) (inner_join on l r)) =
  length (filter (fun b => on a b = true) r).
Proof.
  induction l as [|a0 l IH]; intros Hnd Ha; [by apply elem_of_nil in Ha|].
  rewrite fmap_cons in Hnd. apply list.NoDup_cons in Hnd as [Hnew Hnd].
  rewrite inner_join_cons, list.filter_app, length_app.
  rewrite (filter_fmap_left (kA a) a0 (fun b => (a0, b))) by done.
  assert (∀ a', a' ∈ l → kA a' ≠ kA a0) as Hother.
  { intros a' Ha' Heq. apply Hnew. rewrite <- Heq.
    by apply list_elem_of_fmap_2. }
  destruct (decide (kA a0 = kA a)) as [Heq|Hne].
  - assert (a = a0) as ->.
    { apply elem_of_cons in Ha as [->|Ha]; [done|].
      by destruct (Hother a Ha). }
    rewrite length_fmap.
    rewrite (filter_keeps_none (fun x : A * B => kA x.1 = kA a0));
      [simpl; lia|].
    apply list.Forall_forall. intros [a' b] Hin Hk.
    apply inner_join_elem in Hin as (Ha' & _). by apply (Hother a').
  - apply elem_of_cons in Ha as [->|Ha]; [done|]. simpl. by apply IH.
Qed.
End counting.

Section covering.
Context {A X K C : Type} `{EqDecision K}.
Context (kA : A → K) (key : X → K).

(** One group per left row, when the left rows have distinct keys and the
    grouped rows carry exactly their keys. *)
Lemma group_by_cover (f : K → list X → C) (l : list A) (rows : list X) :
  NoDup (kA <$> l) →
  (∀ x, x ∈ rows → ∃ a, a ∈ l ∧ key x = kA a) →
  (∀ a, a ∈ l → ∃ x, x ∈ rows ∧ key x = kA a) →
  (fun g => f g.1 g.2) <$> group_by key rows ≡ₚ
  (fun a => f (kA a) (filter (fun x => key x = kA a) rows)) <$> l.
Proof.
  intros Hnd Hfrom Hto. unfold group_by.
  replace ((fun a => f (kA a) (filter (fun x => key x = kA a) rows)) <$> l)
    with ((fun k => f k (filter (fun x => key x = k) rows)) <$> (kA <$> l))
    by (by rewrite <- list_fmap_compose).
  rewrite <- list_fmap_compose.
  change ((fun g : K * list X => f g.1 g.2) ∘
          (fun k => (k, filter (fun x => key x = k) rows)))
    with (fun k => f k (filter (fun x => key x = k) rows)).
  apply fmap_Permutation, NoDup_Permutation;
    [apply NoDup_remove_dups|done|].
  intros k. rewrite elem_of_remove_dups, !list_elem_of_fmap. split.
  - intros (x & -> & Hx). destruct (Hfrom x Hx) as (a & Ha & ->). eauto.
  - intros (a & -> & Ha). destruct (Hto a Ha) as (x & Hx & <-). eauto.
Qed.
End covering.

Lemma left_join_has {A B} (on : A → B → bool) l r a b :
  a ∈ l → b ∈ r → on a b = true → (a, Some b) ∈ left_join on l r.
Proof.
  intros Ha Hb Hon. unfold left_join. apply list_elem_of_bind. exists a.
  split; [|done].
  assert (b ∈ filter (fun b => on a b = true) r) as Hin
    by (by apply list_elem_of_filter).
  destruct (filter (fun b => on a b = true) r) as [|b0 m];
    [by apply elem_of_nil in Hin|].
  by apply (list_elem_of_fmap_2 (fun b => (a, Some b))).
Qed.

Lemma NoDup_key_pair {A K1 K2} (k1 : A → K1) (k2 : A → K2) (l : list A) :
  NoDup (k1 <$> l) → NoDup ((fun a => (k1 a, k2 a)) <$> l).
Proof.
  intros Hnd. apply (NoDup_fmap_1 fst). by rewrite <- list_fmap_compose.
Qed.

Lemma eqz_true x y : eqz x y = true ↔ x = y.
Proof. unfold eqz. apply bool_decide_eq_true. Qed.

(** Artist-song-counts, before [ORDER BY] and [LIMIT]: one row per artist,
    holding the number of [Produces] rows that name the artist. *)
Lemma artist_song_count_rows_exact db :
  NoDup (artistID <$> Artist_table db) →
  artist_song_count_rows db ≡ₚ
  (fun a => (artist_name a,
             Z.of_nat (length (filter (fun p => pr_artistID p = artistID a)
                                 (Produces_table db))))) <$> Artist_table db.
Proof.
  intros Hnd. unfold artist_song_count_rows.
  set (on := fun (a : Artist) (p : Produces) =>
               eqz (artistID a) (pr_artistID p)).
  set (kA := fun a : Artist => (artistID a, artist_name a)).
  etransitivity;
    [apply (group_by_cover kA (fun x : Artist * option Produces => kA x.1)
              (fun k g => (k.2, count_some (fun x => pr_song_id <$> x.2) g))
              (Artist_table db))|].
  - by apply NoDup_key_pair.
  - intros x Hx. exists x.1. split; [by eapply left_join_left|done].
  - intros a Ha. destruct (left_join_keeps on _ (Produces_table db) a Ha)
      as (ob & Hj). by exists (a, ob).
  - apply reflexive_eq, Forall_fmap_ext, list.Forall_forall.
    intros a Ha. f_equal.
    rewrite (count_left_join_group on kA pr_song_id).
    rewrite (inner_join_group_distinct on kA) by (done || by apply NoDup_key_pair).
    do 2 f_equal. apply list_filter_iff. intros p. unfold on.
    rewrite eqz_true. split; congruence.
Qed.

Lemma limit_all {A} (R : relation A) `{∀ x y, Decision (R x y)}
    (l : list A) n :
  Z.of_nat (length l) ≤ n → limit n (order_by R l) ≡ₚ l.
Proof.
  intros Hn. unfold limit. rewrite take_ge by (rewrite order_by_length; lia).
  apply merge_sort_Permutation.
Qed.

(** X5: artist-song-counts returns, in some order, one row per artist with the
    artist's name and the number of [Produces] rows naming the artist, when
    the store is reachable, artist ids are distinct and the row limit is
    no smaller than the number of artists. *)
Theorem artist_song_counts_are_exact PGUSER (w : World) (row_limit : Z) :
  outage (server w) = None →
  let db := tables (server w) in
  NoDup (artistID <$> Artist_table db) →
  Z.of_nat (length (Artist_table db)) ≤ row_limit →
  ∃ df, (list_ PGUSER artist_song_counts row_limit w).1 = Ok df ∧
        data df ≡ₚ
        (fun a => [VText (artist_name a);
                   VInt (Z.of_nat
                           (length (filter (fun p => pr_artistID p = artistID a)
                                      (Produces_table db))))]) <$>
        Artist_table db.
Proof.
  intros Hup db Hnd Hlim. subst db. unfold list_.
  viewed PGUSER V_artist_song_counts row_limit w Hup.
  rewrite limit_all
    by (pose proof (artist_song_count_rows_length (tables (server w))); lia).
  rewrite artist_song_count_rows_exact by done.
  by rewrite <- list_fmap_compose.
Qed.

Lemma artist_song_counts_are_exact_witness :
  outage (server sample_world) = None ∧
  NoDup (artistID <$> Artist_table (tables (server sample_world))) ∧
  Z.of_nat (length (Artist_table (tables (server sample_world)))) ≤ 200 ∧
  ∃ df, (list_ (Some "hawk") artist_song_counts 200 sample_world).1 = Ok df ∧
        data df ≡ₚ [[VText "Ann"; VInt 1]; [VText "Ben"; VInt 0]].
Proof.
  assert (NoDup (artistID <$> Artist_table (tables (server sample_world))))
    as Hnd by (apply (bool_decide_unpack _); vm_compute; exact I).
  assert (Z.of_nat (length (Artist_table (tables (server sample_world))))
          ≤ 200) as Hlim by (simpl; lia).
  split; [reflexivity|]. split; [exact Hnd|]. split; [exact Hlim|].
  exact (artist_song_counts_are_exact (Some "hawk") sample_world 200 eq_refl
           Hnd Hlim).
Defined.

(** Most-liked-songs, before [ORDER BY] and [LIMIT]: one row per credit,
    holding the number of [Likes] rows for the credit's song. *)
Lemma most_liked_rows_exact db :
  NoDup ((fun x : Song * Produces * Artist =>
            (song_id x.1.1, songName x.1.1, artist_name x.2)) <$>
         song_produces_artist db) →
  most_liked_rows db ≡ₚ
  (fun x => (songName x.1.1, artist_name x.2,
             Z.of_nat (length (filter (fun l => lk_song_id l = song_id x.1.1)
                                 (Likes_table db))))) <$>
  song_produces_artist db.
Proof.
  intros Hnd. unfold most_liked_rows.
  set (on := fun (x : Song * Produces * Artist) (l : Likes) =>
               eqz (song_id x.1.1) (lk_song_id l)).
  set (kA := fun x : Song * Produces * Artist =>
               (song_id x.1.1, songName x.1.1, artist_name x.2)).
  etransitivity;
    [apply (group_by_cover kA
              (fun x : Song * Produces * Artist * option Likes => kA x.1)
              (fun k g => (k.1.2, k.2,
                           count_some (fun x => lk_userID <$> x.2) g))
              (song_produces_artist db))|].
  - done.
  - intros x Hx. exists x.1. split; [by eapply left_join_left|done].
  - intros a Ha. destruct (left_join_keeps on _ (Likes_table db) a Ha)
      as (ob & Hj). by exists (a, ob).
  - apply reflexive_eq, Forall_fmap_ext, list.Forall_forall.
    intros a Ha. f_equal.
    rewrite (count_left_join_group on kA lk_userID).
    rewrite (inner_join_group_distinct on kA) by done.
    do 2 f_equal. apply list_filter_iff. intros p. unfold on.
    rewrite eqz_true. split; congruence.
Qed.

(** X6: most-liked-songs returns, in some order, one row per credit (a song
    with one of its artists) with the number of [Likes] rows for the song,
    when the store is reachable, no two credits share song and artist name,
    and the row limit is no smaller than the number of credits. *)
Theorem most_liked_counts_are_exact PGUSER (w : World) (row_limit : Z) :
  outage (server w) = None →
  let db := tables (server w) in
  NoDup ((fun x : Song * Produces * Artist =>
            (song_id x.1.1, songName x.1.1, artist_name x.2)) <$>
         song_produces_artist db) →
  Z.of_nat (length (song_produces_artist db)) ≤ row_limit →
  ∃ df, (list_ PGUSER most_liked_songs row_limit w).1 = Ok df ∧
        data df ≡ₚ
        (fun x : Song * Produces * Artist =>
           [VText (songName x.1.1); VText (artist_name x.2);
            VInt (Z.of_nat
                    (length (filter (fun l => lk_song_id l = song_id x.1.1)
                               (Likes_table db))))]) <$>
        song_produces_artist db.
Proof.
  intros Hup db Hnd Hlim. subst db. unfold list_.
  viewed PGUSER V_most_liked row_limit w Hup.
  rewrite limit_all
    by (pose proof (most_liked_rows_length (tables (server w))); lia).
  rewrite most_liked_rows_exact by done.
  by rewrite <- list_fmap_compose.
Qed.

Lemma most_liked_counts_are_exact_witness :
  outage (server sample_world) = None ∧
  NoDup ((fun x : Song * Produces * Artist =>
            (song_id x.1.1, songName x.1.1, artist_name x.2)) <$>
         song_produces_artist (tables (server sample_world))) ∧
  Z.of_nat (length (song_produces_artist (tables (server sample_world))))
  ≤ 200 ∧
  ∃ df, (list_ (Some "hawk") most_liked_songs 200 sample_world).1 = Ok df ∧
        data df ≡ₚ [[VText "First"; VText "Ann"; VInt 2]].
Proof.
  assert (NoDup ((fun x : Song * Produces * Artist =>
                    (song_id x.1.1, songName x.1.1, artist_name x.2)) <$>
                 song_produces_artist (tables (server sample_world))))
    as Hnd by (apply (bool_decide_unpack _); vm_compute; exact I).
  assert (Z.of_nat
            (length (song_produces_artist (tables (server sample_world))))
          ≤ 200) as Hlim by (vm_compute; discriminate).
  split; [reflexivity|]. split; [exact Hnd|]. split; [exact Hlim|].
  exact (most_liked_counts_are_exact (Some "hawk") sample_world 200 eq_refl
           Hnd Hlim).
Defined.

Lemma remove_dups_length_ext {A} `{EqDecision A} (l1 l2 : list A) :
  (∀ x, x ∈ l1 ↔ x ∈ l2) →
  length (remove_dups l1) = length (remove_dups l2).
Proof.
  intros Hiff. apply Permutation_length, NoDup_Permutation;
    try apply NoDup_remove_dups.
  intros x. by rewrite !elem_of_remove_dups.
Qed.

(** User-activity, before [ORDER BY] and [LIMIT]: one row per user,
    holding the number of different songs among the user's [Likes] rows and
    of different playlists among the user's [Creates] rows. *)
Lemma user_activity_rows_exact db :
  NoDup (userID <$> User_table db) →
  user_activity_rows db ≡ₚ
  (fun u =>
     (userName u,
      Z.of_nat (length (remove_dups
                          (lk_song_id <$>
                           filter (fun l => lk_userID l = userID u)
                             (Likes_table db)))),
      Z.of_nat (length (remove_dups
                          (cr_playlistID <$>
                           filter (fun c => cr_userID c = userID u)
                             (Creates_table db)))))) <$>
  User_table db.
Proof.
  intros Hnd. unfold user_activity_rows.
  set (on1 := fun (u : User) (l : Likes) => eqz (userID u) (lk_userID l)).
  set (on2 := fun (x : User * option Likes) (c : Creates) =>
                eqz (userID x.1) (cr_userID c)).
  set (kA := fun u : User => (userID u, userName u)).
  set (LJ1 := left_join on1 (User_table db) (Likes_table db)).
  set (LJ2 := left_join on2 LJ1 (Creates_table db)).
  etransitivity;
    [apply (group_by_cover kA
              (fun x : User * option Likes * option Creates => kA x.1.1)
              (fun k g =>
                 (k.2, count_distinct (fun x => lk_song_id <$> x.1.2) g,
                  count_distinct (fun x => cr_playlistID <$> x.2) g))
              (User_table db))|].
  - by apply NoDup_key_pair.
  - intros x Hx. exists x.1.1. split; [|done].
    eapply left_join_left, left_join_left, Hx.
  - intros u Hu.
    destruct (left_join_keeps on1 _ (Likes_table db) u Hu) as (ol & Hj1).
    destruct (left_join_keeps on2 _ (Creates_table db) _ Hj1) as (oc & Hj2).
    by exists (u, ol, oc).
  - apply reflexive_eq, Forall_fmap_ext, list.Forall_forall.
    intros u Hu. unfold count_distinct.
    f_equal; [f_equal|]; apply (f_equal Z.of_nat).
    + apply remove_dups_length_ext. intros sid.
      rewrite list_elem_of_omap, list_elem_of_fmap. split.
      * intros ([[u' [l|]] oc] & Hx & Hcol); [|done].
        injection Hcol as <-.
        apply list_elem_of_filter in Hx as [Hk Hx].
        apply left_join_left in Hx. apply left_join_matched in Hx as [Hl Hon].
        apply eqz_true in Hon. exists l. split; [done|].
        apply list_elem_of_filter. split; [|done].
        injection Hk as Hid _. simpl in *. congruence.
      * intros (l & -> & Hl). apply list_elem_of_filter in Hl as [Hid Hl].
        assert ((u, Some l) ∈ LJ1) as Hj1
          by (apply left_join_has; [done..|by apply eqz_true]).
        destruct (left_join_keeps on2 _ (Creates_table db) _ Hj1)
          as (oc & Hj2).
        exists (u, Some l, oc). split; [|done].
        by apply list_elem_of_filter.
    + apply remove_dups_length_ext. intros pid.
      rewrite list_elem_of_omap, list_elem_of_fmap. split.
      * intros ([[u' ol] [c|]] & Hx & Hcol); [|done].
        injection Hcol as <-.
        apply list_elem_of_filter in Hx as [Hk Hx].
        apply left_join_matched in Hx as [Hc Hon].
        apply eqz_true in Hon. exists c. split; [done|].
        apply list_elem_of_filter. split; [|done].
        injection Hk as Hid _. simpl in *. congruence.
      * intros (c & -> & Hc). apply list_elem_of_filter in Hc as [Hid Hc].
        destruct (left_join_keeps on1 _ (Likes_table db) u Hu) as (ol & Hj1).
        exists (u, ol, Some c). split; [|done].
        apply list_elem_of_filter. split; [done|].
        apply left_join_has; [done..|by apply eqz_true].
Qed.

(** X7: user-activity returns, in some order, one row per user with the user's
    name, the number of different songs the user likes and the number of
    different playlists the user created, when the store is reachable, user
    ids are distinct and the row limit is no smaller than the number of
    users: joining [Likes] and [Creates] side by side inflates neither
    count. *)
Theorem user_activity_counts_are_exact PGUSER (w : World) (row_limit : Z) :
  outage (server w) = None →
  let db := tables (server w) in
  NoDup (userID <$> User_table db) →
  Z.of_nat (length (User_table db)) ≤ row_limit →
  ∃ df, (list_ PGUSER user_activity row_limit w).1 = Ok df ∧
        data df ≡ₚ
        (fun u =>
           [VText (userName u);
            VInt (Z.of_nat
                    (length (remove_dups
                               (lk_song_id <$>
                                filter (fun l => lk_userID l = userID u)
                                  (Likes_table db)))));
            VInt (Z.of_nat
                    (length (remove_dups
                               (cr_playlistID <$>
                                filter (fun c => cr_userID c = userID u)
                                  (Creates_table db)))))]) <$>
        User_table db.
Proof.
  intros Hup db Hnd Hlim. subst db. unfold list_.
  viewed PGUSER V_user_activity row_limit w Hup.
  rewrite limit_all
    by (rewrite user_activity_rows_exact, length_fmap by done; lia).
  rewrite user_activity_rows_exact by done.
  by rewrite <- list_fmap_compose.
Qed.

Lemma user_activity_counts_are_exact_witness :
  outage (server sample_world) = None ∧
  NoDup (userID <$> User_table (tables (server sample_world))) ∧
  Z.of_nat (length (User_table (tables (server sample_world)))) ≤ 200 ∧
  ∃ df, (list_ (Some "hawk") user_activity 200 sample_world).1 = Ok df ∧
        data df ≡ₚ [[VText "bob"; VInt 1; VInt 0];
                    [VText "amy"; VInt 1; VInt 1]].
Proof.
  assert (NoDup (userID <$> User_table (tables (server sample_world))))
    as Hnd by (apply (bool_decide_unpack _); vm_compute; exact I).
  assert (Z.of_nat (length (User_table (tables (server sample_world))))
          ≤ 200) as Hlim by (simpl; lia).
  split; [reflexivity|]. split; [exact Hnd|]. split; [exact Hlim|].
  exact (user_activity_counts_are_exact (Some "hawk") sample_world 200
           eq_refl Hnd Hlim).
Defined.

Section summing.
Context {A B K : Type} `{EqDecision K}.
Context (on : A → B → bool) (kA : A → K).

(** The pairs of a join whose left row has key [k], counted left row by
    left row. *)
Lemma inner_join_group_sum k (l : list A) (r : list B) :
  length (filter (fun x => kA x.1 = k) (inner_join on l r)) =
  sum_list ((fun a => length (filter (fun b => on a b = true) r)) <$>
            filter (fun a => kA a = k) l).
Proof.
  induction l as [|a l IH]; [done|].
  rewrite inner_join_cons, list.filter_app, length_app, IH.
  rewrite (filter_fmap_left kA k a (fun b => (a, b))) by done.
  rewrite filter_cons.
  destruct (decide (kA a = k)); [|done].
  by rewrite fmap_cons, length_fmap.
Qed.
End summing.

(** The viewer's parameterless queries against a reachable store. *)
Ltac charted PGUSER sql w Hup :=
  let Hf := fresh "Hf" in
  pose proof (fetch_df_up PGUSER sql None w Hup) as [Hf _];
  cbn [default from_option id] in Hf; unfold pg_exec, pg_select in Hf;
  cbn [on_ok snd] in Hf;
  destruct Hf as [Hf _].

(** X8: the top-songs chart has one slice per song title, not per song: at
    most five different titles of the [Song] table, each with the likes of
    all songs that carry the title added up; and every title is there when
    there are no more than five. *)
Theorem top_songs_chart_adds_up_likes_by_title PGUSER (w : World)
    (row_limit : Z) :
  outage (server w) = None →
  let db := tables (server w) in
  ∃ df titles,
    (list_ PGUSER top_songs row_limit w).1 = Ok df ∧
    NoDup titles ∧ (length titles ≤ 5)%nat ∧
    (∀ t, t ∈ titles → t ∈ songName <$> Song_table db) ∧
    ((length (remove_dups (songName <$> Song_table db)) ≤ 5)%nat →
     ∀ t, t ∈ songName <$> Song_table db → t ∈ titles) ∧
    data df =
    (fun t =>
       [VText t;
        VInt (Z.of_nat
                (sum_list
                   ((fun s => length (filter
                                        (fun l => lk_song_id l = song_id s)
                                        (Likes_table db))) <$>
                    filter (fun s => songName s = t) (Song_table db))))]) <$>
    titles.
Proof.
  intros Hup db. subst db. unfold list_.
  charted PGUSER V_top_songs w Hup.
  set (db := tables (server w)) in *.
  set (on := fun (s : Song) (l : Likes) => eqz (song_id s) (lk_song_id l)).
  set (cnt := fun t : string =>
                Z.of_nat (sum_list
                   ((fun s => length (filter
                                        (fun l => lk_song_id l = song_id s)
                                        (Likes_table db))) <$>
                    filter (fun s => songName s = t) (Song_table db)))).
  set (keys := remove_dups
                 ((fun x : Song * option Likes => songName x.1) <$>
                  left_join on (Song_table db) (Likes_table db))).
  assert (top_song_rows db = (fun t => (t, cnt t)) <$> keys) as Hrows.
  { unfold top_song_rows, group_by. rewrite <- list_fmap_compose.
    apply Forall_fmap_ext, Forall_true. intros t. simpl. f_equal.
    rewrite (count_left_join_group on songName lk_userID).
    rewrite (inner_join_group_sum on songName). unfold cnt.
    do 2 f_equal. apply Forall_fmap_ext, Forall_true. intros s.
    f_equal. apply list_filter_iff. intros l. unfold on.
    rewrite eqz_true. split; congruence. }
  assert (∀ t, t ∈ (fun x : Song * option Likes => songName x.1) <$>
                   left_join on (Song_table db) (Likes_table db) ↔
               t ∈ songName <$> Song_table db) as Hjoin.
  { intros t. rewrite !list_elem_of_fmap. split.
    - intros (x & -> & Hx). exists x.1. split; [done|].
      by eapply left_join_left.
    - intros (s & -> & Hs).
      destruct (left_join_keeps on _ (Likes_table db) s Hs) as (ol & Hj).
      by exists (s, ol). }
  assert (∀ t, t ∈ keys ↔ t ∈ songName <$> Song_table db) as Hkeys.
  { intros t. unfold keys. by rewrite elem_of_remove_dups. }
  set (top := limit 5 (order_by (desc snd) (top_song_rows db))) in *.
  assert (∀ x, x ∈ top → x ∈ top_song_rows db) as Htop.
  { intros x Hx. unfold top, limit in Hx.
    apply elem_of_take in Hx as (i & Hx & _).
    apply list_elem_of_lookup_2 in Hx. by apply order_by_elem in Hx. }
  exists (frame ["songName"; "like_count"]
            ((fun x : string * Z => [VText x.1; VInt x.2]) <$> top)),
         (fst <$> top).
  split; [exact Hf|]. split; [|split; [|split; [|split]]].
  - unfold top, limit. rewrite fmap_take.
    eapply sublist_NoDup; [|apply sublist_take].
    unfold order_by. rewrite merge_sort_Permutation, Hrows.
    rewrite <- list_fmap_compose. simpl. rewrite list_fmap_id.
    apply NoDup_remove_dups.
  - rewrite length_fmap. unfold top, limit. rewrite length_take. lia.
  - intros t Ht. apply list_elem_of_fmap in Ht as (x & -> & Hx).
    apply Htop in Hx. rewrite Hrows in Hx.
    apply list_elem_of_fmap in Hx as (t & -> & Ht). by apply Hkeys.
  - intros Hfew t Ht. apply Hkeys in Ht.
    apply (list_elem_of_fmap_2 fst _ (t, cnt t)).
    unfold top, limit. rewrite take_ge.
    + apply order_by_elem. rewrite Hrows.
      by apply (list_elem_of_fmap_2 (fun t => (t, cnt t))).
    + rewrite order_by_length, Hrows, length_fmap.
      etransitivity; [|exact Hfew].
      by apply Nat.eq_le_incl, remove_dups_length_ext.
  - cbn [data frame]. rewrite <- list_fmap_compose.
    apply Forall_fmap_ext, list.Forall_forall. intros x Hx.
    apply Htop in Hx. rewrite Hrows in Hx.
    by apply list_elem_of_fmap in Hx as (t & -> & Ht).
Qed.

Lemma top_songs_chart_adds_up_likes_by_title_witness :
  outage (server sample_world) = None ∧
  ∃ df titles,
    (list_ (Some "hawk") top_songs 200 sample_world).1 = Ok df ∧
    NoDup titles ∧
    (∀ t, t ∈ titles →
          t ∈ songName <$> Song_table (tables (server sample_world))) ∧
    length (data df) = length titles.
Proof.
  split; [reflexivity|].
  destruct (top_songs_chart_adds_up_likes_by_title (Some "hawk") sample_world
              200 eq_refl) as (df & titles & Hdf & Hnd & _ & Hin & _ & Hdata).
  exists df, titles. split; [exact Hdf|]. split; [exact Hnd|].
  split; [exact Hin|]. rewrite Hdata. apply length_fmap.
Defined.

Section sizes.
Context {A K : Type} `{EqDecision K} (key : A → K).

(** The sizes of the groups add up to the number of rows. *)
Lemma group_sizes_add_up (ks : list K) (l : list A) :
  NoDup ks → (∀ x, x ∈ l → key x ∈ ks) →
  foldr Z.add 0
    ((fun k => Z.of_nat (length (filter (fun x => key x = k) l))) <$> ks) =
  Z.of_nat (length l).
Proof.
  intros Hnd. revert l. induction Hnd as [|k ks Hk Hnd IH]; intros l Hl.
  - destruct l as [|x l]; [done|].
    specialize (Hl x (list_elem_of_here _ _)). by apply elem_of_nil in Hl.
  - rewrite fmap_cons. simpl.
    assert (length l = length (filter (fun x => key x = k) l) +
                       length (filter (fun x => key x ≠ k) l))%nat as ->
      by (by rewrite <- length_app, filter_app_complement).
    rewrite Nat2Z.inj_add. f_equal.
    rewrite <- IH.
    + f_equal. apply Forall_fmap_ext, list.Forall_forall. intros k' Hk'.
      do 2 f_equal. rewrite list_filter_filter. apply list_filter_iff.
      intros x. split; [|tauto]. intros ->. split; [done|]. by intros ->.
    + intros x Hx. apply list_elem_of_filter in Hx as [Hne Hx].
      apply Hl, elem_of_cons in Hx as [?|?]; done.
Qed.
End sizes.

(** Four saves over three playlists, and one over three: the quotient
    as [numeric] writes it, and the cell the frame holds. *)
Example avg_of_four_saves_over_three_playlists :
  numeric_div 4 3 = (13333333333333333 # 10000000000000000)%Q ∧
  avg [2; 1; 1] = VNum (Q2Qc (6004799503160661 # 4503599627370496)) ∧
  numeric_div 1 3 = (33333333333333333333 # 100000000000000000000)%Q ∧
  avg [3; 3] = VNum (Q2Qc (3 # 1)).
Proof. repeat split; vm_compute; reflexivity. Qed.

(** X9: the average behind the "Average Songs Per Playlist" gauge is the number
    of [Saves] rows divided by the number of different playlists in
    [Saves], as the store's [numeric] division rounds the quotient and as
    the [float64] cell of the frame holds it: a playlist nothing was saved
    to does not count; and the frame has its one row even when [Saves] is
    empty, the average being NULL then. *)
Theorem average_is_saves_per_saved_playlist PGUSER (w : World) :
  outage (server w) = None →
  let saves := Saves_table (tables (server w)) in
  ∃ df, (app.fetch_df PGUSER V_avg_songs None w).1 = Ok df ∧
        columns df = ["avg_songs"] ∧
        data df =
        [[match saves with
          | [] => VNull
          | _ =>
              VNum (Q2Qc (float64
                            (numeric_div (Z.of_nat (length saves))
                               (Z.of_nat (length (remove_dups
                                                    (sv_playlistID <$> saves)))))))
          end]].
Proof.
  intros Hup saves. subst saves.
  charted PGUSER V_avg_songs w Hup.
  eexists. split; [exact Hf|]. split; [reflexivity|].
  cbn [data frame]. do 2 f_equal.
  set (saves := Saves_table (tables (server w))).
  unfold saves_per_playlist, group_by. fold saves.
  rewrite <- !list_fmap_compose.
  set (sizes := (_ ∘ _) <$> _).
  assert (length sizes = length (remove_dups (sv_playlistID <$> saves)))
    as Hlen by apply length_fmap.
  assert (foldr Z.add 0 sizes = Z.of_nat (length saves)) as Hsum.
  { apply (group_sizes_add_up sv_playlistID); [apply NoDup_remove_dups|].
    intros x Hx. by apply elem_of_remove_dups, list_elem_of_fmap_2. }
  unfold avg. rewrite Hsum, Hlen.
  destruct saves as [|s saves'] eqn:Hs; [done|].
  destruct sizes; [|done]. simpl in Hlen.
  destruct (decide (sv_playlistID s ∈ sv_playlistID <$> saves'));
    simpl in Hlen; [|done].
  destruct (remove_dups (sv_playlistID <$> saves')) eqn:Hr; [|done].
  apply (f_equal (fun l => sv_playlistID s ∈ l)) in Hr.
  assert (sv_playlistID s ∈ remove_dups (sv_playlistID <$> saves')) as Hin
    by (by apply elem_of_remove_dups).
  rewrite Hr in Hin. by apply elem_of_nil in Hin.
Qed.

Lemma average_is_saves_per_saved_playlist_witness :
  outage (server sample_world) = None ∧
  ∃ df, (app.fetch_df (Some "hawk") V_avg_songs None sample_world).1 = Ok df ∧
        data df = [[VNum (Q2Qc (1 # 1))]].
Proof.
  split; [reflexivity|].
  destruct (average_is_saves_per_saved_playlist (Some "hawk") sample_world
              eq_refl) as (df & Hdf & _ & Hdata).
  exists df. split; [exact Hdf|exact Hdata].
Defined.

(** ** Invariants of a run of a script *)

Section invariants.
Context (J : World → Prop) (Ex : exn → Prop).

Lemma holds_ret {A} (I : World → Prop) (a : A) : holds I I J Ex (ret a).
Proof. by intros w Hw. Qed.

Lemma holds_raise {A} (I Q : World → Prop) e :
  (∀ w, I w → J w) → Ex e → holds I Q J Ex (@raise A e).
Proof. intros HJ He w Hw. simpl. auto. Qed.

Lemma holds_bind {A B} (P Q R : World → Prop) (m : Py A) (k : A → Py B) :
  holds P Q J Ex m → (∀ a, holds Q R J Ex (k a)) →
  holds P R J Ex (bind m k).
Proof.
  intros Hm Hk w Hw. unfold bind. specialize (Hm w Hw).
  destruct (m w) as [[a|e] w1]; simpl in Hm; [|done].
  by apply Hk.
Qed.

Lemma holds_when (I : World → Prop) b (m : Py unit) :
  holds I I J Ex m → holds I I J Ex (when b m).
Proof. destruct b; [done|]. intros _. apply holds_ret. Qed.

(** A step that cannot raise. *)
Lemma holds_quiet {A} (P Q : World → Prop) (m : Py A) :
  (∀ w, P w → Q (m w).2 ∧ ∃ a, (m w).1 = Ok a) → holds P Q J Ex m.
Proof. intros Hm w Hw. destruct (Hm w Hw) as (? & a & ->). done. Qed.
End invariants.

(** One step through a script that keeps [I] throughout. *)
Ltac holding_step :=
  lazymatch goal with
  | |- holds _ _ _ _ (ret _) => apply holds_ret
  | |- holds ?I _ _ _ (bind _ _) => apply (holds_bind _ _ I I I); [|intros ?]
  | |- holds _ _ _ _ (when _ _) => apply holds_when
  | |- holds _ _ _ _ (if ?b then _ else _) => destruct b
  | |- holds _ _ _ _ (match ?x with _ => _ end) => destruct x
  end.

(** *** The viewer only reads *)

Lemma same_server (s : Server) db sq fk out :
  tables s = db → sequences s = sq → on_delete s = fk → outage s = out →
  s = mkServer db sq fk out.
Proof. destruct s. simpl. by intros -> -> -> ->. Qed.

Lemma py_int_raises s e : py_int s = Raise e → ∃ msg, e = ValueError msg.
Proof.
  unfold py_int. intros H.
  repeat case_match; try discriminate; injection H as <-; eauto.
Qed.

Section reading.
Context (s0 : Server) (Ex : exn → Prop).
Hypothesis Ex_ValueError : ∀ msg, Ex (ValueError msg).
Let I := fun w : World => server w = s0.

Lemma reading_show e : holds I I I Ex (show e).
Proof. by apply holds_quiet; eauto. Qed.

Lemma reading_fetch_df PGUSER sql ps :
  (∀ fk ps sq db, (pg_exec fk sql ps sq db).1 = sq) →
  holds I I I Ex (app.fetch_df PGUSER sql ps).
Proof.
  intros Hsq. apply holds_quiet. intros w Hw. unfold I in *. split.
  - destruct (outage (server w)) as [msg|] eqn:Hout.
    + destruct (fetch_df_down PGUSER sql ps w msg Hout)
        as (_ & _ & Hs & _). congruence.
    + destruct (fetch_df_up PGUSER sql ps w Hout)
        as (_ & Ht & Hq & Ho & Hfk & _).
      rewrite Hsq in Hq. rewrite <- Hw.
      destruct (server w). apply same_server; simpl in *; congruence.
  - apply fetch_df_never_raises.
Qed.

Lemma reading_crud_fetch_df PGUSER sql ps :
  (∀ fk ps sq db, (pg_exec fk sql ps sq db).1 = sq) →
  holds I I I Ex (app_full_crud.fetch_df PGUSER sql ps).
Proof.
  intros Hsq. apply holds_quiet. intros w Hw. unfold I in *. split.
  - destruct (outage (server w)) as [msg|] eqn:Hout.
    + destruct (crud_fetch_df_down PGUSER sql ps w msg Hout)
        as (_ & _ & Hs & _). congruence.
    + destruct (crud_fetch_df_up PGUSER sql ps w Hout)
        as (_ & Ht & Hq & Ho & Hfk & _).
      rewrite Hsq in Hq. rewrite <- Hw.
      destruct (server w). apply same_server; simpl in *; congruence.
  - apply fetch_df_never_raises.
Qed.

Lemma reading_make_url PGHOST PGPORT PGDATABASE PGUSER PGPASSWORD PGSSLMODE :
  holds I I I Ex
    (app.make_url PGHOST PGPORT PGDATABASE PGUSER PGPASSWORD PGSSLMODE).
Proof.
  intros w Hw. unfold app.make_url.
  destruct (py_int PGPORT) as [p|e] eqn:Hp; [done|].
  split; [done|]. apply py_int_raises in Hp as [msg ->]. apply Ex_ValueError.
Qed.

Lemma reading_create_engine PGHOST PGPORT PGDATABASE PGUSER PGPASSWORD :
  holds I I I Ex
    (app_full_crud.create_engine PGHOST PGPORT PGDATABASE PGUSER PGPASSWORD).
Proof.
  intros w Hw. unfold app_full_crud.create_engine, app_full_crud.make_url, bind.
  destruct (py_int PGPORT) as [p|e] eqn:Hp; [done|].
  split; [done|]. apply py_int_raises in Hp as [msg ->]. apply Ex_ValueError.
Qed.

Lemma reading_flash what shown :
  holds I I I Ex (app_full_crud.flash what shown).
Proof.
  assert (∀ key msg,
            holds I I I Ex (app_full_crud.flash_one what shown key msg))
    as Hone.
  { intros key msg. apply holds_quiet. intros w Hw.
    unfold app_full_crud.flash_one.
    destruct (session_state w !! key); [|eauto].
    destruct (app_full_crud.rec_truthy _); eauto. }
  unfold app_full_crud.flash. repeat holding_step; apply Hone.
Qed.
End reading.

Ltac reading :=
  repeat lazymatch goal with
    | |- holds _ _ _ _ (show _) => apply reading_show
    | |- holds _ _ _ _ (raise _) => by apply holds_raise
    | |- holds _ _ _ _ (app.fetch_df _ _ _) =>
        apply reading_fetch_df; reflexivity
    | |- holds _ _ _ _ (app_full_crud.fetch_df _ _ _) =>
        apply reading_crud_fetch_df; reflexivity
    | |- holds _ _ _ _ (app.make_url _ _ _ _ _ _) =>
        by apply reading_make_url
    | |- holds _ _ _ _ (app_full_crud.create_engine _ _ _ _ _) =>
        by apply reading_create_engine
    | |- holds _ _ _ _ (app_full_crud.flash _ _) => apply reading_flash
    | |- _ => holding_step
    end.

(** X12: a run of the viewer, whatever the environment, the visitor's choices
    and the state of the store: the store's tables and sequences are after
    the run what they were before, and no error of the driver ends the
    run. *)
Theorem viewer_only_reads (env : gmap string string) (v : app.Visitor)
    (w : World) :
  server (app.main env v w).2 = server w ∧
  ∀ msg, (app.main env v w).1 ≠ Raise (DBAPIError msg).
Proof.
  assert (holds (fun w' => server w' = server w)
            (fun w' => server w' = server w) (fun w' => server w' = server w)
            not_from_store (app.main env v)) as Hrun.
  { unfold app.main, app.script, app.tab1, app.tab2, app.tab3, app.tab4,
      app.tab5, app.tab6, app.visualizations, app.get_engine, st_stop.
    cbv zeta. destruct (app.view_choice v); reading. }
  specialize (Hrun w eq_refl).
  destruct (app.main env v w).1 as [a|e]; [done|].
  destruct Hrun as [Hs He]. split; [done|]. intros msg [= ->]. done.
Qed.

(** *** What the CRUD forms hold back *)

(** X15: a run of the CRUD front-end in which nothing was submitted, or the
    submitted name is blank, or the deletion was not confirmed: the store's
    tables and sequences are after the run what they were before, and the
    run does not end in a rerun or an error of the driver. *)
Theorem held_back_forms_never_reach_the_store
    (env : gmap string string) (v : app_full_crud.Visitor) (w : World) :
  held_back (app_full_crud.act v) →
  server (app_full_crud.main env v w).2 = server w ∧
  ∀ e, (app_full_crud.main env v w).1 = Raise e → no_rerun e.
Proof.
  intros Hheld.
  assert (holds (fun w' => server w' = server w)
            (fun w' => server w' = server w) (fun w' => server w' = server w)
            no_rerun (app_full_crud.main env v)) as Hrun.
  { unfold app_full_crud.main, app_full_crud.script, st_stop. cbv zeta.
    destruct (app_full_crud.act v); simpl in Hheld; try done;
      unfold app_full_crud.tab1, app_full_crud.tab2, app_full_crud.tab3,
        app_full_crud.tab4, app_full_crud.tab5,
        app_full_crud.fetch_users, app_full_crud.fetch_artists,
        app_full_crud.fetch_albums, app_full_crud.fetch_songs,
        app_full_crud.fetch_playlists;
      cbv zeta; rewrite ?Hheld; cbn [truthy negb]; reading. }
  specialize (Hrun w eq_refl).
  destruct (app_full_crud.main env v w).1 as [a|e]; [done|].
  destruct Hrun as [Hs He]. split; [done|]. by intros ? [= <-].
Qed.

Lemma held_back_forms_never_reach_the_store_witness :
  held_back (app_full_crud.Insert_User "  ") ∧
  server (app_full_crud.main sample_env
            (app_full_crud.mkVisitor None (app_full_crud.Insert_User "  "))
            sample_world).2 = server sample_world.
Proof.
  split; [reflexivity|].
  exact (proj1 (held_back_forms_never_reach_the_store sample_env
                  (app_full_crud.mkVisitor None
                     (app_full_crud.Insert_User "  "))
                  sample_world eq_refl)).
Defined.

(** The white space of [strip] is Python's: a no-break space (U+00A0), a
    file separator (U+001C) or an ideographic space (U+3000) alone is a
    blank name. *)
Example strip_drops_what_python_drops :
  let nbsp := String "194" (String "160" "") in
  let ideographic := String "227" (String "128" (String "128" "")) in
  let fs := String "028" "" in
  strip nbsp = "" ∧ strip fs = "" ∧ strip ideographic = "" ∧
  strip (" Blue" +:+ nbsp) = "Blue" ∧
  strip (ideographic +:+ "Kind of Blue" +:+ fs) = "Kind of Blue" ∧
  held_back (app_full_crud.Insert_User nbsp).
Proof. repeat split; vm_compute; reflexivity. Qed.

(** *** Flash records *)

Lemma flash_one_spec what shown key msg w :
  ∃ w', app_full_crud.flash_one what shown key msg w = (Ok tt, w') ∧
        server w' = server w ∧ pool w' = pool w ∧ wire w' = wire w ∧
        page w' = page w ++ pending what shown (session_state w) [(key, msg)] ∧
        (∀ rec, session_state w' !! key = Some rec →
                app_full_crud.rec_truthy (Some rec) = false) ∧
        (∀ k, k ≠ key → session_state w' !! k = session_state w !! k) ∧
        (∀ k rec, session_state w' !! k = Some rec →
                  session_state w !! k = Some rec).
Proof.
  unfold app_full_crud.flash_one, pending. cbn [omap list_omap fst snd].
  destruct (session_state w !! key) as [rec|] eqn:Hk.
  - destruct (app_full_crud.rec_truthy (Some rec)) eqn:Ht.
    + eexists. split; [reflexivity|]. simpl. repeat split; try done.
      * intros rec'. by rewrite lookup_delete_eq.
      * intros k Hne. by rewrite lookup_delete_ne.
      * intros k rec'. rewrite lookup_delete_Some. tauto.
    + exists w. rewrite (right_id_L [] (++)). repeat split; try done.
      intros rec'. rewrite Hk. by intros [= <-].
  - exists w. rewrite (right_id_L [] (++)). repeat split; try done.
    intros rec'. by rewrite Hk.
Qed.

Lemma pending_same what shown st st' labels :
  (∀ km, km ∈ labels → st' !! km.1 = st !! km.1) →
  pending what shown st' labels = pending what shown st labels.
Proof.
  intros Hsame. unfold pending. induction labels as [|km labels IH]; [done|].
  cbn [omap list_omap]. rewrite Hsame by apply list_elem_of_here.
  rewrite IH; [done|]. intros km' Hkm'. by apply Hsame, list_elem_of_further.
Qed.

(** A flash loop never raises and touches nothing but the page and the
    session state: it shows the confirmations owed, in order, and leaves
    no flash record waiting. *)
Lemma flash_spec what shown w :
  ∃ w', app_full_crud.flash what shown w = (Ok tt, w') ∧
        server w' = server w ∧ pool w' = pool w ∧ wire w' = wire w ∧
        page w' = page w ++ pending what shown (session_state w) flash_labels ∧
        calm w'.
Proof.
  unfold app_full_crud.flash, bind.
  destruct (flash_one_spec what shown "just_inserted" "Inserted" w)
    as (w1 & -> & Hs1 & Hp1 & Hw1 & Hg1 & Hk1 & Hne1 & Hsub1).
  destruct (flash_one_spec what shown "just_updated" "Updated" w1)
    as (w2 & -> & Hs2 & Hp2 & Hw2 & Hg2 & Hk2 & Hne2 & Hsub2).
  destruct (flash_one_spec what shown "just_deleted" "Deleted" w2)
    as (w3 & -> & Hs3 & Hp3 & Hw3 & Hg3 & Hk3 & Hne3 & Hsub3).
  exists w3. split; [done|].
  split; [congruence|]. split; [congruence|]. split; [congruence|]. split.
  - rewrite Hg3, Hg2, Hg1, <- !(assoc_L (++)). f_equal.
    rewrite (pending_same _ _ (session_state w) (session_state w2)),
      (pending_same _ _ (session_state w) (session_state w1)).
    + unfold pending, flash_labels. cbn [omap list_omap fst snd].
      by repeat case_match.
    + intros km ->%list_elem_of_singleton. by apply Hne1.
    + intros km ->%list_elem_of_singleton. simpl.
      rewrite Hne2, Hne1; done.
  - intros key rec Hkey Hrec. unfold flash_keys in Hkey.
    rewrite !elem_of_cons, elem_of_nil in Hkey.
    destruct Hkey as [->|[->|[->|[]]]]; eauto.
Qed.

Lemma flash_calm what shown w :
  calm w → app_full_crud.flash what shown w = (Ok tt, w).
Proof.
  intros Hcalm.
  assert (∀ key msg, key ∈ flash_keys →
            app_full_crud.flash_one what shown key msg w = (Ok tt, w))
    as Hone.
  { intros key msg Hkey. unfold app_full_crud.flash_one.
    destruct (session_state w !! key) as [rec|] eqn:Hk; [|done].
    by rewrite (Hcalm key rec Hkey Hk). }
  unfold app_full_crud.flash, bind, flash_keys in *.
  rewrite !Hone; [done|..]; rewrite !elem_of_cons; auto.
Qed.

(** X17: a flash record is shown once: the flash loop of a tab shows a
    confirmation for every record waiting under the three keys, in the
    order inserted, updated, deleted, and leaves none waiting, so that the
    flash loop of any tab run after it shows nothing and changes nothing. *)
Theorem flash_records_are_shown_once what shown what' shown' (w : World) :
  let out := app_full_crud.flash what shown w in
  out.1 = Ok tt ∧
  page out.2 = page w ++ pending what shown (session_state w) flash_labels ∧
  calm out.2 ∧
  app_full_crud.flash what' shown' out.2 = (Ok tt, out.2).
Proof.
  destruct (flash_spec what shown w) as (w' & Hf & _ & _ & _ & Hpage & Hcalm).
  simpl. rewrite Hf. simpl. split; [done|]. split; [done|]. split; [done|].
  by apply flash_calm.
Qed.

(** *** Whose confirmation it is *)

Lemma grown_refl P w : grown P w w.
Proof. exists []. by rewrite (right_id_L [] (++)). Qed.

Lemma grown_more P w0 w w' new :
  grown P w0 w → page w' = page w ++ new → Forall P new → grown P w0 w'.
Proof.
  intros (old & Hold & Hok) Hnew Hok'. exists (old ++ new).
  rewrite Hnew, Hold, (assoc_L (++)). split; [done|]. by apply Forall_app.
Qed.

Lemma pending_user_confirmation shown st :
  Forall user_confirmation (pending "user" shown st flash_labels).
Proof.
  apply list.Forall_forall. intros el Hel. unfold pending in Hel.
  apply list_elem_of_omap in Hel as (km & Hkm & Hf).
  destruct (st !! km.1) as [rec|]; [|done].
  destruct (app_full_crud.rec_truthy (Some rec)); [|done].
  injection Hf as <-. unfold flash_labels in Hkm.
  rewrite !elem_of_cons, elem_of_nil in Hkm.
  destruct Hkm as [->|[->|[->|[]]]]; simpl; rewrite !elem_of_cons; auto.
Qed.

Section confirming.
Context (G : World → Prop).
Hypothesis G_more :
  ∀ w w' new, G w → page w' = page w ++ new →
              Forall user_confirmation new → G w'.
Let I := fun w => G w ∧ calm w.
Let Ex := fun _ : exn => True.

(** A step that leaves the session state alone and puts no confirmation
    on the page. *)
Lemma confirming_plain {A} (m : Py A) :
  (∀ w, session_state (m w).2 = session_state w ∧
        ∃ new, page (m w).2 = page w ++ new ∧ Forall user_confirmation new) →
  holds G G G Ex m ∧ holds I I G Ex m.
Proof.
  intros Hm.
  assert (∀ w, G w → G (m w).2) as HG.
  { intros w Hw. destruct (Hm w) as (_ & new & Hnew & Hok).
    by eapply G_more. }
  split.
  - intros w Hw. specialize (HG w Hw). by destruct (m w).1.
  - intros w [Hw Hcalm]. specialize (HG w Hw).
    destruct (Hm w) as (Hst & _).
    destruct (m w).1; [|done]. split; [done|].
    unfold calm. by rewrite Hst.
Qed.

Lemma plain_show e :
  user_confirmation e →
  ∀ w, session_state (show e w).2 = session_state w ∧
       ∃ new, page (show e w).2 = page w ++ new ∧
              Forall user_confirmation new.
Proof.
  intros He w. split; [done|]. exists [e]. split; [done|].
  by apply Forall_singleton.
Qed.

Lemma plain_fetch_df PGUSER sql ps w :
  let out := app_full_crud.fetch_df PGUSER sql ps w in
  session_state out.2 = session_state w ∧
  ∃ new, page out.2 = page w ++ new ∧ Forall user_confirmation new.
Proof.
  destruct (outage (server w)) as [msg|] eqn:Hout.
  - destruct (crud_fetch_df_down PGUSER sql ps w msg Hout)
      as (_ & Hp & _ & _ & _ & Hst).
    split; [done|]. eexists. split; [exact Hp|]. by apply Forall_singleton.
  - destruct (crud_fetch_df_up PGUSER sql ps w Hout)
      as (H & _ & _ & _ & _ & _ & _ & Hst).
    split; [done|]. simpl in H.
    destruct (pg_exec _ _ _ _ _).2 as [msg|[df db']]; destruct H as [_ Hp].
    + eexists. split; [exact Hp|]. by apply Forall_singleton.
    + exists []. by rewrite (right_id_L [] (++)).
Qed.

Lemma plain_mutate PGUSER sql ps w :
  let out := app_full_crud.mutate PGUSER sql ps w in
  session_state out.2 = session_state w ∧
  ∃ new, page out.2 = page w ++ new ∧ Forall user_confirmation new.
Proof.
  simpl. assert (page (app_full_crud.mutate PGUSER sql ps w).2 = page w ∧
          session_state (app_full_crud.mutate PGUSER sql ps w).2 =
          session_state w) as [Hp Hst].
  { destruct (outage (server w)) as [msg|] eqn:Hout.
    - by destruct (mutate_down PGUSER sql ps w msg Hout)
        as (_ & _ & _ & _ & ? & ?).
    - by destruct (mutate_up PGUSER sql ps w Hout)
        as (_ & _ & _ & _ & _ & _ & ? & ?). }
  split; [done|]. exists []. by rewrite (right_id_L [] (++)).
Qed.

Lemma plain_create_engine PGHOST PGPORT PGDATABASE PGUSER PGPASSWORD w :
  let out := app_full_crud.create_engine PGHOST PGPORT PGDATABASE PGUSER
               PGPASSWORD w in
  session_state out.2 = session_state w ∧
  ∃ new, page out.2 = page w ++ new ∧ Forall user_confirmation new.
Proof.
  simpl. unfold app_full_crud.create_engine, app_full_crud.make_url, bind.
  destruct (py_int PGPORT); simpl; (split; [done|]); exists [];
    by rewrite (right_id_L [] (++)).
Qed.

Lemma confirming_remember key rec :
  holds I I G Ex (app_full_crud.remember key rec).
Proof.
  intros w [Hw Hcalm]. unfold app_full_crud.remember.
  destruct rec as [r|]; [|done].
  destruct (app_full_crud.rec_truthy (Some r)); [|done].
  simpl. split; [|done]. eapply (G_more w _ []); [done| |done].
  by rewrite (right_id_L [] (++)).
Qed.

Lemma confirming_flash what shown :
  holds I I G Ex (app_full_crud.flash what shown).
Proof. intros w [Hw Hcalm]. by rewrite flash_calm. Qed.

(** The flash loop of the Users tab, which runs first. *)
Lemma confirming_first_flash shown :
  holds G I G Ex (app_full_crud.flash "user" shown).
Proof.
  intros w Hw.
  destruct (flash_spec "user" shown w) as (w' & -> & _ & _ & _ & Hp & Hcalm).
  simpl. split; [|done]. eapply G_more; [exact Hw|exact Hp|].
  apply pending_user_confirmation.
Qed.
End confirming.

Ltac confirming HG :=
  repeat lazymatch goal with
    | |- holds ?P ?P _ _ (show ?e) =>
        first [ apply (proj1 (confirming_plain _ HG _ (plain_show e Logic.I)))
              | apply (proj2 (confirming_plain _ HG _ (plain_show e Logic.I))) ]
    | |- holds _ _ _ _ (raise _) =>
        apply holds_raise; [first [done | by intros ? [? ?]] | done]
    | |- holds _ _ _ _ (app_full_crud.fetch_df _ _ _) =>
        apply (confirming_plain _ HG), plain_fetch_df
    | |- holds _ _ _ _ (app_full_crud.mutate _ _ _) =>
        apply (confirming_plain _ HG), plain_mutate
    | |- holds _ _ _ _ (app_full_crud.create_engine _ _ _ _ _) =>
        apply (confirming_plain _ HG), plain_create_engine
    | |- holds _ _ _ _ (app_full_crud.remember _ _) =>
        apply (confirming_remember _ HG)
    | |- holds _ _ _ _ (app_full_crud.flash _ _) => apply confirming_flash
    | |- _ => holding_step
    end.

(** X18: confirmations appear under the Users tab only.  The flash loops of all
    tabs read the same three keys and the Users tab runs first, so in any
    run of the CRUD front-end every confirmation put on the page says
    "user", whatever entity the record behind it belongs to. *)
Theorem confirmations_appear_under_users_only
    (env : gmap string string) (v : app_full_crud.Visitor) (w : World) :
  ∃ new, page (app_full_crud.main env v w).2 = page w ++ new ∧
         Forall user_confirmation new.
Proof.
  set (G := grown user_confirmation w).
  assert (∀ w1 w2 new, G w1 → page w2 = page w1 ++ new →
                       Forall user_confirmation new → G w2) as HG
    by (intros w1 w2 new; apply grown_more).
  set (Inv := fun w' => G w' ∧ calm w').
  assert (holds G Inv G (fun _ => True) (app_full_crud.main env v)) as Hrun.
  { unfold app_full_crud.main, app_full_crud.script, st_stop. cbv zeta.
    apply (holds_bind _ _ G G Inv).
    { confirming HG. }
    intros _. apply (holds_bind _ _ G G Inv).
    { confirming HG. }
    intros _. apply (holds_bind _ _ G Inv Inv).
    { unfold app_full_crud.tab1. apply (holds_bind _ _ G Inv Inv).
      { by apply confirming_first_flash. }
      intros _.
      unfold app_full_crud.fetch_users, app_full_crud.insert_user,
        app_full_crud.update_user, app_full_crud.delete_user. cbv zeta.
      confirming HG. }
    intros _.
    unfold app_full_crud.tab2, app_full_crud.tab3,
      app_full_crud.tab4, app_full_crud.tab5,
      app_full_crud.fetch_users, app_full_crud.fetch_artists,
      app_full_crud.fetch_albums, app_full_crud.fetch_songs,
      app_full_crud.fetch_playlists,
      app_full_crud.insert_song, app_full_crud.update_song,
      app_full_crud.delete_song, app_full_crud.insert_artist,
      app_full_crud.update_artist, app_full_crud.delete_artist,
      app_full_crud.insert_playlist,
      app_full_crud.update_playlist, app_full_crud.delete_playlist.
    cbv zeta. confirming HG. }
  specialize (Hrun w (grown_refl _ _)).
  destruct (app_full_crud.main env v w).1; apply Hrun.
Qed.

(** ** Updating a key that is not there *)

Ltac update_absent PGUSER w Hup m key id Hid :=
  let H := fresh "H" in
  rewrite call_mutate;
  pose proof (mutate_up PGUSER (statement_of m) (params_of m) w Hup)
    as [H _];
  simpl in H; revert H;
  change (pg_exec (on_delete (server w)) (statement_of m) (params_of m)
            (sequences (server w)) (tables (server w)))
    with (store_answer m w);
  answer;
  unfold pk_update;
  rewrite (proj1 (filter_key_absent key id _ Hid)),
    (proj2 (filter_key_absent key id _ Hid)), fmap_nil, app_nil_r;
  let Hu := fresh "Hu" in
  let Ha := fresh "Ha" in
  let Hs := fresh "Hs" in
  let Hp := fresh "Hp" in
  destruct (with_same_table (tables (server w))) as (Hu & Ha & Hs & Hp);
  rewrite ?Hu, ?Ha, ?Hs, ?Hp;
  by intros [-> ->].

(** X4: an update helper called with a key its table does not hold returns
    [None] and leaves every table as it was, the store being reachable:
    the statement matches no row, and that is no error. *)
Theorem update_of_an_absent_key_changes_nothing PGUSER (w : World) :
  outage (server w) = None →
  let db := tables (server w) in
  (∀ sid n d,
      sid ∉ ids E_Song db →
      let out := call PGUSER (update_song_ sid n d) w in
      out.1 = Ok None ∧ tables (server out.2) = db) ∧
  (∀ aid n l,
      aid ∉ ids E_Artist db →
      let out := call PGUSER (update_artist_ aid n l) w in
      out.1 = Ok None ∧ tables (server out.2) = db) ∧
  (∀ uid n,
      uid ∉ ids E_User db →
      let out := call PGUSER (update_user_ uid n) w in
      out.1 = Ok None ∧ tables (server out.2) = db) ∧
  (∀ pid n ns,
      pid ∉ ids E_Playlist db →
      let out := call PGUSER (update_playlist_ pid n ns) w in
      out.1 = Ok None ∧ tables (server out.2) = db).
Proof.
  intros Hup db. subst db. split; [|split; [|split]].
  - intros sid n d Hid out. subst out. simpl in Hid.
    update_absent PGUSER w Hup (update_song_ sid n d) song_id sid Hid.
  - intros aid n l Hid out. subst out. simpl in Hid.
    update_absent PGUSER w Hup (update_artist_ aid n l) artistID aid Hid.
  - intros uid n Hid out. subst out. simpl in Hid.
    update_absent PGUSER w Hup (update_user_ uid n) userID uid Hid.
  - intros pid n ns Hid out. subst out. simpl in Hid.
    update_absent PGUSER w Hup (update_playlist_ pid n ns) playlistID pid Hid.
Qed.

Lemma update_of_an_absent_key_changes_nothing_witness :
  outage (server sample_world) = None ∧
  (7 ∉ ids E_User (tables (server sample_world))) ∧
  (call (Some "hawk") (update_user_ 7 "eve") sample_world).1 = Ok None ∧
  tables (server (call (Some "hawk") (update_user_ 7 "eve") sample_world).2) =
    sample_db.
Proof.
  assert (7 ∉ ids E_User (tables (server sample_world))) as Hid.
  { simpl. rewrite !not_elem_of_cons, elem_of_nil. split; [done|].
    split; [done|]. tauto. }
  split; [reflexivity|]. split; [exact Hid|].
  exact (proj1 (proj2 (proj2 (update_of_an_absent_key_changes_nothing
                                (Some "hawk") sample_world eq_refl)))
           7 "eve" Hid).
Defined.

(** ** The user-song network *)

(** What one pass of the loop does to a label: a node that is there keeps
    its attributes; a new one is styled as a user if the label is the
    row's user, as a song otherwise. *)
Lemma add_row_nodes G row x :
  nodes (add_row G row) !! x =
  match nodes G !! x with
  | Some attrs => Some attrs
  | None =>
      if decide (x = row.1.1) then Some (user_attrs row.1.1)
      else if decide (x = row.1.2) then Some (song_attrs row.1.2 row.2)
      else None
  end.
Proof.
  destruct row as [[u s] a]. unfold add_row, has_node, add_node, add_edge.
  cbn [fst snd].
  assert (∀ at', at' ∪ (∅ : gmap string value) = at') as Hun
    by (intros; apply (right_id_L ∅ (∪))).
  repeat (case_bool_decide; cbn [negb nodes adj]).
  all: destruct (decide (x = u)) as [?|?]; destruct (decide (x = s)) as [?|?].
  all: repeat match goal with
         | H : is_Some _ |- _ =>
             let H' := fresh "Hsome" in destruct H as [? H']
         | H : ¬ is_Some _ |- _ => apply eq_None_not_Some in H
         end.
  all: simplify_map_eq; rewrite ?Hun; try done.
  all: by destruct (nodes G !! x).
Qed.

Lemma add_row_adj G row x y :
  (x, y) ∈ adj (add_row G row) ↔
  (x, y) ∈ adj G ∨
  x = row.1.1 ∧ y = row.1.2 ∨ x = row.1.2 ∧ y = row.1.1.
Proof.
  assert (∀ (b : bool) G n attrs,
            adj (if b then add_node G n attrs else G) = adj G) as Hadj
    by (by intros []).
  destruct row as [[u s] a]. unfold add_row, add_edge. cbn [fst snd adj].
  rewrite !Hadj, !elem_of_union, !elem_of_singleton.
  split; [intros [[[= -> ->]|[= -> ->]]|?]|intros [?|[[-> ->]|[-> ->]]]];
    auto.
Qed.

Lemma graph_nodes rs G x :
  is_Some (nodes (foldl add_row G rs) !! x) ↔
  is_Some (nodes G !! x) ∨ ∃ row, row ∈ rs ∧ (x = row.1.1 ∨ x = row.1.2).
Proof.
  revert G. induction rs as [|r rs IH]; intros G; simpl.
  - split; [auto|]. intros [?|(row & Hrow & _)]; [done|].
    by apply elem_of_nil in Hrow.
  - rewrite IH, add_row_nodes. split.
    + intros [Hx|(row & Hrow & Hm)].
      * destruct (nodes G !! x); [by left|]. right. exists r.
        split; [apply list_elem_of_here|].
        destruct (decide (x = r.1.1)); [by left|].
        destruct (decide (x = r.1.2)); [by right|].
        by destruct Hx.
      * right. exists row. split; [by apply list_elem_of_further|done].
    + intros [Hx|(row & Hrow & Hm)].
      * left. by destruct (nodes G !! x).
      * apply elem_of_cons in Hrow as [->|Hrow]; [|right; eauto].
        left. destruct (nodes G !! x); [done|].
        destruct Hm as [->| ->].
        { by rewrite decide_True. }
        destruct (decide (r.1.2 = r.1.1)); [done|]. by rewrite decide_True.
Qed.

Lemma graph_adj rs G x y :
  (x, y) ∈ adj (foldl add_row G rs) ↔
  (x, y) ∈ adj G ∨
  ∃ row, row ∈ rs ∧ (x = row.1.1 ∧ y = row.1.2 ∨ x = row.1.2 ∧ y = row.1.1).
Proof.
  revert G. induction rs as [|r rs IH]; intros G; simpl.
  - split; [auto|]. intros [?|(row & Hrow & _)]; [done|].
    by apply elem_of_nil in Hrow.
  - rewrite IH, add_row_adj. split.
    + intros [[?|?]|(row & Hrow & Hm)]; [by left|..].
      * right. exists r. split; [apply list_elem_of_here|done].
      * right. exists row. split; [by apply list_elem_of_further|done].
    + intros [?|(row & Hrow & Hm)]; [by left; left|].
      apply elem_of_cons in Hrow as [->|Hrow]; [by left; right|].
      right. eauto.
Qed.

(** A node keeps the attributes it was created with. *)
Lemma graph_attrs_kept rs G x attrs :
  nodes G !! x = Some attrs → nodes (foldl add_row G rs) !! x = Some attrs.
Proof.
  revert G. induction rs as [|r rs IH]; intros G Hx; [done|].
  simpl. apply IH. by rewrite add_row_nodes, Hx.
Qed.

Lemma graph_untouched rs G x :
  nodes G !! x = None →
  (∀ row, row ∈ rs → x ≠ row.1.1 ∧ x ≠ row.1.2) →
  nodes (foldl add_row G rs) !! x = None.
Proof.
  intros Hx Hno. apply eq_None_not_Some. rewrite graph_nodes.
  intros [Hsome|(row & Hrow & Hm)].
  - rewrite Hx in Hsome. by destruct Hsome.
  - destruct (Hno row Hrow). by destruct Hm.
Qed.

Lemma iterrows_frame {X} (f : X → string * string * string) (l : list X) :
  iterrows (frame ["userName"; "songName"; "artist_name"]
              ((fun x => [VText (f x).1.1; VText (f x).1.2; VText (f x).2])
               <$> l)) = Some (f <$> l).
Proof.
  unfold iterrows, frame. cbn [columns data].
  change (col_index "username" _) with (Some 0%nat).
  change (col_index "songname" _) with (Some 1%nat).
  change (col_index "artist_name" _) with (Some 2%nat).
  cbn [mbind option_bind]. apply mapM_Some.
  induction l as [|x l IH]; rewrite ?fmap_cons; constructor; [|done].
  simpl. by destruct (f x) as [[u s] a].
Qed.

Lemma size_list_to_set_le (l : list string) :
  (size (list_to_set l : gset string) ≤ length l)%nat.
Proof.
  induction l as [|x l IH].
  - by rewrite list_to_set_nil, size_empty.
  - rewrite list_to_set_cons, size_union_alt, size_singleton. simpl.
    assert (list_to_set l ∖ {[x]} ⊆ (list_to_set l : gset string)) as Hsub
      by (by intros y [? _]%elem_of_difference).
    apply subseteq_size in Hsub. lia.
Qed.

Lemma graph_size rs :
  (size (nodes (foldl add_row empty_graph rs)) ≤ 2 * length rs)%nat.
Proof.
  set (labels := rs ≫= fun r => [r.1.1; r.1.2]).
  assert (length labels = 2 * length rs)%nat as <-.
  { subst labels. induction rs as [|r rs IH]; [done|].
    rewrite bind_cons, length_app, IH. simpl. lia. }
  rewrite <- size_dom.
  etransitivity; [|apply size_list_to_set_le].
  apply subseteq_size. intros x Hx.
  apply elem_of_dom, graph_nodes in Hx as [Hx|(row & Hrow & Hm)].
  - cbn [empty_graph nodes] in Hx. rewrite lookup_empty in Hx.
    by destruct Hx.
  - apply elem_of_list_to_set, list_elem_of_bind. exists row.
    split; [|done]. rewrite !elem_of_cons. tauto.
Qed.

(** X10: the graph of the user-song network, drawn from the frame of the
    network query with the store reachable: its nodes are the user names
    and song titles of the frame's rows, two labels are joined exactly when
    some row has one as its user and the other as its song, and there are
    no more than two nodes per row. *)
Theorem network_graph_joins_users_and_their_songs PGUSER (w : World)
    (row_limit : Z) :
  outage (server w) = None →
  ∃ df G,
    (list_ PGUSER user_song_network row_limit w).1 = Ok df ∧
    user_song_graph df = Some G ∧
    (∀ x, has_node G x = true ↔
          ∃ u s a, [VText u; VText s; VText a] ∈ data df ∧ (x = u ∨ x = s)) ∧
    (∀ x y, has_edge G x y ↔
            ∃ u s a, [VText u; VText s; VText a] ∈ data df ∧
                     (x = u ∧ y = s ∨ x = s ∧ y = u)) ∧
    (size (nodes G) ≤ 2 * df_len df)%nat.
Proof.
  intros Hup. unfold list_. charted PGUSER V_network w Hup.
  set (rows := limit 500 (likes_user_song_produces_artist (tables (server w))))
    in *.
  set (f := fun x : Likes * User * Song * Produces * Artist =>
              (userName x.1.1.1.2, songName x.1.1.2, artist_name x.2)).
  assert (∀ u s a,
            [VText u; VText s; VText a] ∈
              (fun x => [VText (f x).1.1; VText (f x).1.2; VText (f x).2])
              <$> rows ↔ (u, s, a) ∈ f <$> rows) as Hrows.
  { intros u s a. rewrite !list_elem_of_fmap. split.
    - intros (x & [= -> -> ->] & Hx). by exists x.
    - intros (x & Hfx & Hx). exists x. split; [|done]. by rewrite <- Hfx. }
  eexists. exists (foldl add_row empty_graph (f <$> rows)).
  split; [exact Hf|]. split; [|split; [|split]].
  - unfold user_song_graph. by rewrite (iterrows_frame f).
  - intros x. unfold has_node. rewrite bool_decide_eq_true, graph_nodes.
    cbn [empty_graph nodes data frame]. rewrite lookup_empty. split.
    + intros [[? [=]]|([[u s] a] & Hrow & Hm)].
      exists u, s, a. split; [by apply Hrows|done].
    + intros (u & s & a & Hrow & Hm). right. exists (u, s, a).
      split; [by apply Hrows|done].
  - intros x y. unfold has_edge. rewrite graph_adj.
    cbn [empty_graph adj data frame]. split.
    + intros [Hin|([[u s] a] & Hrow & Hm)]; [by apply elem_of_empty in Hin|].
      exists u, s, a. split; [by apply Hrows|done].
    + intros (u & s & a & Hrow & Hm). right. exists (u, s, a).
      split; [by apply Hrows|done].
  - rewrite frame_len. etransitivity; [apply graph_size|].
    by rewrite length_fmap.
Qed.

Lemma network_graph_joins_users_and_their_songs_witness :
  outage (server sample_world) = None ∧
  ∃ df G,
    (list_ (Some "hawk") user_song_network 200 sample_world).1 = Ok df ∧
    user_song_graph df = Some G ∧
    has_edge G "amy" "First" ∧ has_edge G "First" "bob".
Proof.
  split; [reflexivity|].
  destruct (network_graph_joins_users_and_their_songs (Some "hawk")
              sample_world 200 eq_refl)
    as (df & G & Hdf & HG & _ & Hadj & _).
  exists df, G. split; [exact Hdf|]. split; [exact HG|].
  vm_compute in Hdf. injection Hdf as <-.
  split; apply Hadj.
  - exists "amy", "First", "Ann". simpl. rewrite !elem_of_cons. auto.
  - exists "bob", "First", "Ann". simpl. rewrite !elem_of_cons. auto.
Defined.

(** X11: the first row that mentions a label decides how its node looks.  A
    label no earlier row mentions becomes a user node if it is the row's
    user, and a song node carrying the row's artist if it is the row's
    song and not also its user; later rows change neither - a song that
    comes with several artists shows the first, and a name that is both a
    user and a song title is drawn once. *)
Theorem first_mention_styles_the_node df pre row post :
  iterrows df = Some (pre ++ row :: post) →
  ∃ G, user_song_graph df = Some G ∧
       ((∀ r, r ∈ pre → row.1.1 ≠ r.1.1 ∧ row.1.1 ≠ r.1.2) →
        nodes G !! row.1.1 = Some (user_attrs row.1.1)) ∧
       (row.1.2 ≠ row.1.1 →
        (∀ r, r ∈ pre → row.1.2 ≠ r.1.1 ∧ row.1.2 ≠ r.1.2) →
        nodes G !! row.1.2 = Some (song_attrs row.1.2 row.2)).
Proof.
  intros Hrows. unfold user_song_graph. rewrite Hrows. eexists.
  split; [reflexivity|]. rewrite foldl_app. cbn [foldl].
  split.
  - intros Hnew. apply graph_attrs_kept. rewrite add_row_nodes.
    rewrite (graph_untouched pre empty_graph) by done.
    by rewrite decide_True.
  - intros Hne Hnew. apply graph_attrs_kept. rewrite add_row_nodes.
    rewrite (graph_untouched pre empty_graph) by done.
    by rewrite decide_False, decide_True.
Qed.

Lemma first_mention_styles_the_node_witness :
  let df := frame ["userName"; "songName"; "artist_name"]
              [[VText "amy"; VText "First"; VText "Ann"];
               [VText "bob"; VText "First"; VText "Zed"]] in
  iterrows df = Some ([] ++ ("amy", "First", "Ann") ::
                            [("bob", "First", "Zed")]) ∧
  ∃ G, user_song_graph df = Some G ∧
       nodes G !! "First" = Some (song_attrs "First" "Ann").
Proof.
  intros df. assert (iterrows df = Some ([] ++ ("amy", "First", "Ann") ::
                                           [("bob", "First", "Zed")]))
    as Hrows by reflexivity.
  split; [exact Hrows|].
  destruct (first_mention_styles_the_node df [] ("amy", "First", "Ann")
              [("bob", "First", "Zed")] Hrows) as (G & HG & _ & Hsong).
  exists G. split; [exact HG|]. apply Hsong; [done|].
  intros r Hr. by apply elem_of_nil in Hr.
Defined.

(** ** A run against a store that is out *)

(** X13: with the store unreachable, credentials set and a numeric port, a run
    of the viewer still ends normally: nothing goes over the wire, no
    connection is left in the pool, and the page shows (static text
    aside), for each of its thirteen queries, the driver's message, an
    empty table where a table would be, no metric, and the "no data" note
    of each chart. *)
Theorem viewer_reports_an_unreachable_store
    (env : gmap string string) (v : app.Visitor) (w : World) msg p :
  outage (server w) = Some msg →
  truthy (getenv env "PGDATABASE") = true →
  truthy (getenv env "PGUSER") = true →
  truthy (getenv env "PGPASSWORD") = true →
  py_int (getenv_default env "PGPORT" "5432") = Ok p →
  let err := st_error ("DB error: " +:+ msg) in
  let nothing := st_dataframe empty_frame in
  app.main env v w =
  (Ok tt,
   mkWorld (server w) None (wire w)
     (page w ++
      (if app.logo_file v then []
       else [st_error "Image not found at: assets/img/AudioplaneLogo.svg. Please check your path."]) ++
      concat (replicate 8 [err; nothing]) ++ [err] ++ [err; nothing] ++
      [err; st_info "No relationship data found.";
       err; st_info "No data available for popularity chart.";
       err; st_info "No playlist activity found."])
     (session_state w)).
Proof.
  intros Hout Hdb Huser Hpw Hport err nothing. subst err nothing.
  destruct w as [[db sq fk out] pl wr pg st]. simpl in Hout. subst out.
  unfold app.main, app.script, app.get_engine, app.make_url, all.
  cbn [forallb]. rewrite Hdb, Huser, Hpw. cbn [id andb negb].
  unfold bind at 1. cbn [ret]. unfold bind at 1. rewrite Hport.
  destruct (app.logo_file v), pl; cbv -[app]; rewrite <- ?(assoc_L (++));
    reflexivity.
Qed.

Lemma viewer_reports_an_unreachable_store_witness :
  let v := app.mkVisitor true None 0%nat app.User_Likes in
  outage (server world_down) = Some "connection refused" ∧
  truthy (getenv sample_env "PGDATABASE") = true ∧
  truthy (getenv sample_env "PGUSER") = true ∧
  truthy (getenv sample_env "PGPASSWORD") = true ∧
  py_int (getenv_default sample_env "PGPORT" "5432") = Ok 5432 ∧
  (app.main sample_env v world_down).1 = Ok tt ∧
  wire (app.main sample_env v world_down).2 = [].
Proof.
  intros v. do 5 (split; [reflexivity|]).
  by rewrite (viewer_reports_an_unreachable_store sample_env v world_down
                "connection refused" 5432 eq_refl eq_refl eq_refl eq_refl
                eq_refl).
Defined.

Lemma holds_false {A} R J Ex (m : Py A) : holds (fun _ => False) R J Ex m.
Proof. by intros w []. Qed.

Section down.
Context (s0 : Server) (wr0 : list (string * params)) (msg : string).
Context (R : World → Prop) (Ex : exn → Prop).
Hypothesis s0_out : outage s0 = Some msg.
Let I := fun w : World => server w = s0 ∧ wire w = wr0.

Lemma down_show e : holds I I I Ex (show e).
Proof. by apply holds_quiet; eauto. Qed.

Lemma down_flash what shown : holds I I I Ex (app_full_crud.flash what shown).
Proof.
  apply holds_quiet. intros w [Hs Hw].
  destruct (flash_spec what shown w) as (w' & -> & Hs' & _ & Hw' & _).
  simpl. split; [|eauto]. split; congruence.
Qed.

(** A listing comes back empty. *)
Lemma down_fetch_bind {B} PGUSER sql ps (k : DataFrame → Py B) :
  holds I R I Ex (k empty_frame) →
  holds I R I Ex (bind (app_full_crud.fetch_df PGUSER sql ps) k).
Proof.
  intros Hk w [Hs Hw]. unfold bind.
  destruct (crud_fetch_df_down PGUSER sql ps w msg) as (Ho & _ & Hs' & _ & Hw' & _);
    [by rewrite Hs|].
  destruct (app_full_crud.fetch_df PGUSER sql ps w) as [o w1].
  simpl in *. subst o. apply Hk. split; congruence.
Qed.

(** A mutation helper raises. *)
Lemma down_mutate PGUSER sql ps :
  Ex (DBAPIError msg) →
  holds I (fun _ => False) I Ex (app_full_crud.mutate PGUSER sql ps).
Proof.
  intros He w [Hs Hw].
  destruct (mutate_down PGUSER sql ps w msg) as (-> & Hs' & _ & Hw' & _);
    [by rewrite Hs|].
  split; [|done]. split; congruence.
Qed.

Lemma down_create_engine PGHOST PGPORT PGDATABASE PGUSER PGPASSWORD p :
  py_int PGPORT = Ok p →
  holds I I I Ex
    (app_full_crud.create_engine PGHOST PGPORT PGDATABASE PGUSER PGPASSWORD).
Proof.
  intros Hp. apply holds_quiet. intros w Hw.
  unfold app_full_crud.create_engine, app_full_crud.make_url, bind.
  rewrite Hp. simpl. eauto.
Qed.
End down.

Ltac down_step Hout Hport :=
  lazymatch goal with
  | |- holds (fun _ => False) _ _ _ _ => apply holds_false
  | |- holds _ _ _ _ (ret _) => apply holds_ret
  | |- holds _ _ _ _ (show _) => apply down_show
  | |- holds _ _ _ _ (when _ _) => apply holds_when
  | |- holds _ _ _ _ (app_full_crud.flash _ _) => apply down_flash
  | |- holds _ _ _ _ (app_full_crud.create_engine _ _ _ _ _) =>
      eapply down_create_engine, Hport
  | |- holds _ _ _ _ (app_full_crud.mutate _ _ _) =>
      by apply (down_mutate _ _ _ _ Hout)
  | |- holds _ _ _ _ (bind (app_full_crud.fetch_df _ _ _) _) =>
      apply (down_fetch_bind _ _ _ _ _ Hout); cbv beta;
      change (df_empty empty_frame) with true; cbv iota
  | |- holds ?I ?R _ _ (bind _ _) =>
      first [ apply (holds_bind _ _ I I R);
              [solve [repeat down_step Hout Hport] | intros ?]
            | apply (holds_bind _ _ I R R); [|intros ?] ]
  | |- holds _ _ _ _ (if ?b then _ else _) => destruct b
  | |- holds _ _ _ _ (match ?x with _ => _ end) => destruct x
  end.

(** X16: with the store unreachable, a run of the CRUD front-end ends in the
    driver's error exactly when an insert form was submitted with a name.
    The listings report the failure and come back empty, so the update and
    delete forms are not drawn; the insert helpers let the error through,
    and the tabs after the form are not drawn either.  Nothing goes over
    the wire. *)
Theorem crud_run_against_an_unreachable_store
    (env : gmap string string) (v : app_full_crud.Visitor) (w : World) msg p :
  outage (server w) = Some msg →
  truthy (getenv env "PGDATABASE") = true →
  truthy (getenv env "PGUSER") = true →
  truthy (getenv env "PGPASSWORD") = true →
  py_int (getenv_default env "PGPORT" "5432") = Ok p →
  let out := app_full_crud.main env v w in
  out.1 = (if submits_insert (app_full_crud.act v)
           then Raise (DBAPIError msg) else Ok tt) ∧
  server out.2 = server w ∧ wire out.2 = wire w.
Proof.
  intros Hout Hdb Huser Hpw Hport out. subst out.
  set (Inv := fun w' : World => server w' = server w ∧ wire w' = wire w).
  assert (Inv w) as Hw by done.
  destruct (submits_insert (app_full_crud.act v)) eqn:Hsub.
  - assert (holds Inv (fun _ => False) Inv (fun e => e = DBAPIError msg)
              (app_full_crud.main env v)) as Hrun.
    { unfold app_full_crud.main, app_full_crud.script, all. cbn [forallb].
      rewrite Hdb, Huser, Hpw. cbn [id andb negb]. cbv zeta.
      destruct (app_full_crud.act v); cbn [submits_insert] in Hsub;
        try discriminate;
        unfold app_full_crud.tab1, app_full_crud.tab2, app_full_crud.tab3,
          app_full_crud.tab4, app_full_crud.tab5,
          app_full_crud.fetch_users, app_full_crud.fetch_artists,
          app_full_crud.fetch_albums, app_full_crud.fetch_songs,
          app_full_crud.fetch_playlists,
          app_full_crud.insert_song, app_full_crud.insert_artist,
          app_full_crud.insert_user, app_full_crud.insert_playlist;
        cbv zeta; rewrite Hsub; cbn [negb];
        repeat down_step Hout Hport. }
    specialize (Hrun w Hw).
    destruct (app_full_crud.main env v w).1 as [a|e]; [done|].
    by destruct Hrun as [[? ?] ->].
  - assert (holds Inv Inv Inv (fun _ => False) (app_full_crud.main env v))
      as Hrun.
    { unfold app_full_crud.main, app_full_crud.script, all. cbn [forallb].
      rewrite Hdb, Huser, Hpw. cbn [id andb negb]. cbv zeta.
      destruct (app_full_crud.act v); cbn [submits_insert] in Hsub;
        try discriminate;
        unfold app_full_crud.tab1, app_full_crud.tab2, app_full_crud.tab3,
          app_full_crud.tab4, app_full_crud.tab5,
          app_full_crud.fetch_users, app_full_crud.fetch_artists,
          app_full_crud.fetch_albums, app_full_crud.fetch_songs,
          app_full_crud.fetch_playlists;
        cbv zeta; rewrite ?Hsub; cbn [negb];
        repeat down_step Hout Hport. }
    specialize (Hrun w Hw).
    destruct (app_full_crud.main env v w).1 as [[]|e]; [done|].
    by destruct Hrun as [_ []].
Qed.

Lemma crud_run_against_an_unreachable_store_witness :
  let v := app_full_crud.mkVisitor None (app_full_crud.Insert_User "eve") in
  outage (server world_down) = Some "connection refused" ∧
  truthy (getenv sample_env "PGDATABASE") = true ∧
  truthy (getenv sample_env "PGUSER") = true ∧
  truthy (getenv sample_env "PGPASSWORD") = true ∧
  py_int (getenv_default sample_env "PGPORT" "5432") = Ok 5432 ∧
  (app_full_crud.main sample_env v world_down).1 =
    Raise (DBAPIError "connection refused").
Proof.
  intros v. do 5 (split; [reflexivity|]).
  exact (proj1 (crud_run_against_an_unreachable_store sample_env v world_down
                  "connection refused" 5432 eq_refl eq_refl eq_refl eq_refl
                  eq_refl)).
Defined.

(** ** From a submitted form to its confirmation *)

Lemma inert_show e : inert (show e).
Proof. intros w. simpl. eauto. Qed.

Lemma inert_crud_fetch_df PGUSER sql ps :
  (∀ fk ps sq db, (pg_exec fk sql ps sq db).1 = sq) →
  inert (app_full_crud.fetch_df PGUSER sql ps).
Proof.
  intros Hsq w. split; [apply fetch_df_never_raises|].
  destruct (outage (server w)) as [msg|] eqn:Hout.
  - by destruct (crud_fetch_df_down PGUSER sql ps w msg Hout)
      as (_ & _ & ? & _ & _ & ?).
  - destruct (crud_fetch_df_up PGUSER sql ps w Hout)
      as (_ & Ht & Hq & Ho & Hfk & _ & _ & Hst).
    split; [|done]. rewrite Hsq in Hq.
    destruct (server w). apply same_server; simpl in *; congruence.
Qed.

Lemma inert_create_engine PGHOST PGPORT PGDATABASE PGUSER PGPASSWORD p :
  py_int PGPORT = Ok p →
  inert (app_full_crud.create_engine PGHOST PGPORT PGDATABASE PGUSER
           PGPASSWORD).
Proof.
  intros Hp w. unfold app_full_crud.create_engine, app_full_crud.make_url, bind.
  rewrite Hp. simpl. eauto.
Qed.

Section carrying.
Context (I J : World → Prop) (Ex : exn → Prop).
Hypothesis I_carried :
  ∀ w w', server w' = server w → session_state w' = session_state w →
          I w → I w'.

Lemma inert_holds {A} (m : Py A) : inert m → holds I I J Ex m.
Proof.
  intros Hm. apply holds_quiet. intros w Hw.
  destruct (Hm w) as (Hok & Hs & Hst). split; [|done].
  by apply (I_carried w).
Qed.

Lemma calm_flash_holds what shown :
  (∀ w, I w → calm w) → holds I I J Ex (app_full_crud.flash what shown).
Proof. intros Hcalm w Hw. by rewrite flash_calm by auto. Qed.
End carrying.

(** One step through a run that keeps [I] until it raises. *)
Ltac carrying_step HI Hcalm :=
  lazymatch goal with
  | |- holds (fun _ => False) _ _ _ _ => apply holds_false
  | |- holds _ _ _ _ (ret _) => apply holds_ret
  | |- holds _ _ _ _ (show _) => apply (inert_holds _ _ _ HI), inert_show
  | |- holds _ _ _ _ (when _ _) => apply holds_when
  | |- holds _ _ _ _ (app_full_crud.flash _ _) =>
      apply (calm_flash_holds _ _ _ _ _ Hcalm)
  | |- holds _ _ _ _ (app_full_crud.fetch_df _ _ _) =>
      apply (inert_holds _ _ _ HI), inert_crud_fetch_df; reflexivity
  | |- holds ?I ?R _ _ (bind _ _) =>
      first [ apply (holds_bind _ _ I I R);
              [solve [repeat carrying_step HI Hcalm] | intros ?]
            | apply (holds_bind _ _ I R R); [|intros ?] ]
  | |- holds _ _ _ _ (if ?b then _ else _) => destruct b
  | |- holds _ _ _ _ (match ?x with _ => _ end) => destruct x
  end.

(** The run in which the Songs form is submitted with a name, the store
    being reachable and the next key free: the song is stored, its record
    is left under ["just_inserted"], and the run ends in a rerun. *)
Lemma song_form_run (env : gmap string string) row_limit n d (w : World) p :
  truthy (getenv env "PGDATABASE") = true →
  truthy (getenv env "PGUSER") = true →
  truthy (getenv env "PGPASSWORD") = true →
  py_int (getenv_default env "PGPORT" "5432") = Ok p →
  outage (server w) = None →
  truthy (Some (strip n)) = true →
  let r := mkSong (seq_song (sequences (server w)) + 1) (strip n) d in
  song_id r ∉ ids E_Song (tables (server w)) →
  let out := app_full_crud.main env
               (app_full_crud.mkVisitor row_limit
                  (app_full_crud.Insert_Song n d)) w in
  out.1 = Raise RerunException ∧
  tables (server out.2) =
    with_songs (tables (server w)) (Song_table (tables (server w)) ++ [r]) ∧
  session_state out.2 !! "just_inserted" =
    Some (list_to_map (zip (fold_ident <$> song_columns) (song_row r))) ∧
  (∀ key rec, key ∈ ["just_updated"; "just_deleted"] →
              session_state out.2 !! key = Some rec →
              app_full_crud.rec_truthy (Some rec) = false).
Proof.
  intros Hdb Huser Hpw Hport Hup Hname r Hnew out. subst out.
  set (rec := list_to_map (zip (fold_ident <$> song_columns) (song_row r))
              : gmap string value).
  set (P0 := fun w' : World => server w' = server w).
  set (I1 := fun w' : World => server w' = server w ∧ calm w').
  set (J := fun w' : World =>
              tables (server w') =
                with_songs (tables (server w))
                  (Song_table (tables (server w)) ++ [r]) ∧
              session_state w' !! "just_inserted" = Some rec ∧
              ∀ key rec', key ∈ ["just_updated"; "just_deleted"] →
                          session_state w' !! key = Some rec' →
                          app_full_crud.rec_truthy (Some rec') = false).
  set (Ex := fun e : exn => e = RerunException).
  assert (∀ w1 w2, server w2 = server w1 →
                   session_state w2 = session_state w1 → P0 w1 → P0 w2)
    as HP0 by (unfold P0; intros; congruence).
  assert (∀ w1 w2, server w2 = server w1 →
                   session_state w2 = session_state w1 → I1 w1 → I1 w2)
    as HI1.
  { unfold I1, calm. intros w1 w2 Hs Hst [Hs1 Hc]. rewrite Hst.
    split; [congruence|done]. }
  assert (∀ w', I1 w' → calm w') as Hcalm by (by intros w' [_ ?]).
  assert (holds I1 (fun _ => False) J Ex
            (bind (app_full_crud.insert_song (getenv env "PGUSER") (strip n) d)
               (fun rec => app_full_crud.remember "just_inserted" rec)))
    as Hstep.
  { intros w' [Hs Hc]. unfold bind.
    pose proof (insert_song_step (getenv env "PGUSER") w' (strip n) d)
      as Hins.
    rewrite Hs in Hins. specialize (Hins Hup Hnew).
    destruct Hins as (Hout & Htab & _).
    destruct (plain_mutate (getenv env "PGUSER") INSERT_song
                (params_of (insert_song_ (strip n) d)) w') as [Hst _].
    change (app_full_crud.mutate _ _ _ w')
      with (app_full_crud.insert_song (getenv env "PGUSER") (strip n) d w')
      in Hst.
    change (call _ _ w')
      with (app_full_crud.insert_song (getenv env "PGUSER") (strip n) d w')
      in Hout, Htab.
    change ((app_full_crud.insert_song (getenv env "PGUSER") (strip n) d
               w').1 = Ok (Some rec)) in Hout.
    change (tables (server (app_full_crud.insert_song (getenv env "PGUSER")
                              (strip n) d w').2) =
            with_songs (tables (server w))
              (Song_table (tables (server w)) ++ [r])) in Htab.
    destruct (app_full_crud.insert_song _ _ _ w') as [o w2].
    cbn [fst snd] in Hout, Htab, Hst. subst o.
    unfold app_full_crud.remember.
    assert (app_full_crud.rec_truthy (Some rec) = true) as ->
      by (vm_compute; reflexivity).
    unfold bind, st_rerun, raise, with_session_state, J.
    cbn [fst snd server session_state]. split; [|done].
    split; [done|]. split.
    - by rewrite lookup_insert_eq.
    - intros key rec' Hkey. rewrite !elem_of_cons, elem_of_nil in Hkey.
      rewrite Hst. destruct Hkey as [->|[->|[]]];
        rewrite lookup_insert_ne by done; apply Hc;
        unfold flash_keys; rewrite !elem_of_cons; auto. }
  assert (holds P0 (fun _ => False) J Ex
            (app_full_crud.main env
               (app_full_crud.mkVisitor row_limit
                  (app_full_crud.Insert_Song n d)))) as Hrun.
  { unfold app_full_crud.main, app_full_crud.script, all. cbn [forallb].
    rewrite Hdb, Huser, Hpw.
    cbn [id andb negb app_full_crud.act app_full_crud.row_limit_entered].
    cbv zeta.
    apply (holds_bind _ _ P0 P0); [apply holds_ret|intros _].
    apply (holds_bind _ _ P0 P0);
      [eapply (inert_holds _ _ _ HP0), inert_create_engine, Hport|intros _].
    apply (holds_bind _ _ P0 I1).
    { unfold app_full_crud.tab1, app_full_crud.fetch_users. cbv zeta.
      apply (holds_bind _ _ P0 I1).
      - intros w' Hw'.
        destruct (flash_spec "user"
                    (fun rec => [app_full_crud.rec_get rec "username"
                                   (app_full_crud.rec_get rec "userName"
                                      (VText "N/A"));
                                 app_full_crud.rec_get rec "userid"
                                   (app_full_crud.rec_get rec "userID"
                                      (VText "N/A"))]) w')
          as (w2 & -> & Hs & _ & _ & _ & Hc).
        simpl. split; [unfold P0 in *; congruence|done].
      - intros _. repeat carrying_step HI1 Hcalm. }
    intros _. apply (holds_bind _ _ I1 I1).
    { unfold app_full_crud.tab2, app_full_crud.fetch_artists. cbv zeta.
      repeat carrying_step HI1 Hcalm. }
    intros _. apply (holds_bind _ _ I1 (fun _ => False));
      [|intros _; apply holds_false].
    unfold app_full_crud.tab3, app_full_crud.fetch_songs. cbv zeta.
    rewrite Hname. cbn [negb].
    repeat first [exact Hstep | carrying_step HI1 Hcalm]. }
  specialize (Hrun w eq_refl).
  destruct (app_full_crud.main env _ w).1 as [a|e]; [done|].
  destruct Hrun as [(? & ? & ?) ->]. done.
Qed.

(** The run that finds a record under ["just_inserted"], and none under
    the other two keys: whatever the visitor does in it, the first thing
    it puts on the page is the confirmation of the Users tab for that
    record. *)
Lemma run_after_insert (env : gmap string string) v (w : World) rec p :
  truthy (getenv env "PGDATABASE") = true →
  truthy (getenv env "PGUSER") = true →
  truthy (getenv env "PGPASSWORD") = true →
  py_int (getenv_default env "PGPORT" "5432") = Ok p →
  session_state w !! "just_inserted" = Some rec →
  app_full_crud.rec_truthy (Some rec) = true →
  (∀ key rec', key ∈ ["just_updated"; "just_deleted"] →
               session_state w !! key = Some rec' →
               app_full_crud.rec_truthy (Some rec') = false) →
  ∃ rest,
    page (app_full_crud.main env v w).2 =
    page w ++
    st_success "Inserted user"
      [app_full_crud.rec_get rec "username"
         (app_full_crud.rec_get rec "userName" (VText "N/A"));
       app_full_crud.rec_get rec "userid"
         (app_full_crud.rec_get rec "userID" (VText "N/A"))] :: rest.
Proof.
  intros Hdb Huser Hpw Hport Hrec Htruthy Hothers.
  set (shown := fun rec : gmap string value =>
                  [app_full_crud.rec_get rec "username"
                     (app_full_crud.rec_get rec "userName" (VText "N/A"));
                   app_full_crud.rec_get rec "userid"
                     (app_full_crud.rec_get rec "userID" (VText "N/A"))]).
  set (P := fun w' : World =>
              page w' = page w ∧ session_state w' = session_state w).
  set (G := fun w' : World =>
              ∃ rest, page w' =
                      page w ++ st_success "Inserted user" (shown rec) :: rest).
  set (Inv := fun w' => G w' ∧ calm w').
  assert (∀ w1 w2 new, G w1 → page w2 = page w1 ++ new →
                       Forall user_confirmation new → G w2) as HG.
  { intros w1 w2 new [rest Hrest] Hnew _. exists (rest ++ new).
    rewrite Hnew, Hrest. by rewrite <- (assoc_L (++)). }
  assert (holds P Inv G (fun _ => True) (app_full_crud.main env v)) as Hrun.
  { unfold app_full_crud.main, app_full_crud.script, all. cbn [forallb].
    rewrite Hdb, Huser, Hpw. cbn [id andb negb]. cbv zeta.
    apply (holds_bind _ _ P P); [apply holds_ret|intros _].
    apply (holds_bind _ _ P P).
    { apply holds_quiet. intros w' [Hp Hst].
      unfold app_full_crud.create_engine, app_full_crud.make_url, bind.
      rewrite Hport. simpl. split; [done|eauto]. }
    intros _. apply (holds_bind _ _ P Inv Inv).
    { unfold app_full_crud.tab1. apply (holds_bind _ _ P Inv Inv).
      - intros w' [Hp Hst].
        destruct (flash_spec "user"
                    (fun rec => [app_full_crud.rec_get rec "username"
                                   (app_full_crud.rec_get rec "userName"
                                      (VText "N/A"));
                                 app_full_crud.rec_get rec "userid"
                                   (app_full_crud.rec_get rec "userID"
                                      (VText "N/A"))]) w')
          as (w2 & -> & _ & _ & _ & Hpage & Hc).
        cbn [fst snd]. split; [|done]. exists [].
        rewrite Hpage, Hp, Hst. f_equal.
        unfold pending, flash_labels. cbn [omap list_omap fst snd].
        rewrite Hrec, Htruthy.
        destruct (session_state w !! "just_updated") as [ru|] eqn:Hu;
          [rewrite (Hothers "just_updated" ru) by
             (rewrite ?elem_of_cons; auto)|];
          (destruct (session_state w !! "just_deleted") as [rd|] eqn:Hd;
           [rewrite (Hothers "just_deleted" rd) by
              (rewrite ?elem_of_cons; auto)|]); reflexivity.
      - intros _.
        unfold app_full_crud.fetch_users, app_full_crud.insert_user,
          app_full_crud.update_user, app_full_crud.delete_user. cbv zeta.
        confirming HG. }
    intros _.
    unfold app_full_crud.tab2, app_full_crud.tab3,
      app_full_crud.tab4, app_full_crud.tab5,
      app_full_crud.fetch_users, app_full_crud.fetch_artists,
      app_full_crud.fetch_albums, app_full_crud.fetch_songs,
      app_full_crud.fetch_playlists,
      app_full_crud.insert_song, app_full_crud.update_song,
      app_full_crud.delete_song, app_full_crud.insert_artist,
      app_full_crud.update_artist, app_full_crud.delete_artist,
      app_full_crud.insert_playlist,
      app_full_crud.update_playlist, app_full_crud.delete_playlist.
    cbv zeta. confirming HG. }
  specialize (Hrun w (conj eq_refl eq_refl)).
  destruct (app_full_crud.main env v w).1; apply Hrun.
Qed.

(** X19: a song inserted through the Songs form is confirmed as a user.  With
    the store reachable, credentials set, a numeric port, a name in the
    form and the next song key free, the run stores the song and ends in a
    rerun; and the run that follows, whatever the visitor does in it,
    first puts "Inserted user" on the page, with "N/A" for both the name
    and the key, since the record of a song has neither field of a user. *)
Theorem inserted_song_is_confirmed_as_a_user
    (env : gmap string string) row_limit n d v' (w : World) p :
  truthy (getenv env "PGDATABASE") = true →
  truthy (getenv env "PGUSER") = true →
  truthy (getenv env "PGPASSWORD") = true →
  py_int (getenv_default env "PGPORT" "5432") = Ok p →
  outage (server w) = None →
  truthy (Some (strip n)) = true →
  let r := mkSong (seq_song (sequences (server w)) + 1) (strip n) d in
  song_id r ∉ ids E_Song (tables (server w)) →
  let first := app_full_crud.main env
                 (app_full_crud.mkVisitor row_limit
                    (app_full_crud.Insert_Song n d)) w in
  let second := app_full_crud.main env v' first.2 in
  first.1 = Raise RerunException ∧
  Song_table (tables (server first.2)) = Song_table (tables (server w)) ++ [r] ∧
  ∃ rest, page second.2 =
          page first.2 ++
          st_success "Inserted user" [VText "N/A"; VText "N/A"] :: rest.
Proof.
  intros Hdb Huser Hpw Hport Hup Hname r Hnew first second.
  destruct (song_form_run env row_limit n d w p Hdb Huser Hpw Hport Hup Hname
              Hnew) as (Hout & Htab & Hrec & Hothers).
  fold first in Hout, Htab, Hrec, Hothers. fold r in Htab, Hrec.
  split; [exact Hout|]. split; [by rewrite Htab|].
  apply (run_after_insert env v' first.2 _ p Hdb Huser Hpw Hport Hrec);
    [reflexivity|exact Hothers].
Qed.

Lemma inserted_song_is_confirmed_as_a_user_witness :
  let first := app_full_crud.main sample_env
                 (app_full_crud.mkVisitor None
                    (app_full_crud.Insert_Song "Blue" 19800)) sample_world in
  let second := app_full_crud.main sample_env
                  (app_full_crud.mkVisitor None app_full_crud.Idle) first.2 in
  truthy (getenv sample_env "PGDATABASE") = true ∧
  truthy (getenv sample_env "PGUSER") = true ∧
  truthy (getenv sample_env "PGPASSWORD") = true ∧
  py_int (getenv_default sample_env "PGPORT" "5432") = Ok 5432 ∧
  outage (server sample_world) = None ∧
  truthy (Some (strip "Blue")) = true ∧
  (3 ∉ ids E_Song (tables (server sample_world))) ∧
  first.1 = Raise RerunException ∧
  ∃ rest, page second.2 =
          page first.2 ++
          st_success "Inserted user" [VText "N/A"; VText "N/A"] :: rest.
Proof.
  intros first second.
  assert (3 ∉ ids E_Song (tables (server sample_world))) as Hnew.
  { simpl. rewrite !not_elem_of_cons, elem_of_nil. split; [done|].
    split; [done|]. tauto. }
  do 6 (split; [reflexivity|]). split; [exact Hnew|].
  destruct (inserted_song_is_confirmed_as_a_user sample_env None "Blue" 19800
              (app_full_crud.mkVisitor None app_full_crud.Idle) sample_world
              5432 eq_refl eq_refl eq_refl eq_refl eq_refl eq_refl Hnew)
    as (Hfirst & _ & Hsecond).
  split; [exact Hfirst|exact Hsecond].
Defined.

(** ** The song count on the wire *)

Lemma song_count_absent t (ps : params) :
  ps !! "ns" = None → song_count_in_range (t, ps).
Proof. intros Hno v Hv. simpl in Hv. congruence. Qed.

Lemma song_count_bound t (ps : params) n :
  ps !! "ns" = Some (VInt n) → 0 ≤ n → song_count_in_range (t, ps).
Proof. intros Hns Hn v Hv. simpl in Hv. rewrite Hns in Hv. injection Hv as <-. eauto. Qed.

(** The field never yields less than its lower bound, its default being
    no less. *)
Lemma number_input_lower min_value max_value value entered :
  min_value ≤ value →
  min_value ≤ number_input min_value max_value value entered.
Proof.
  intros Hv. unfold number_input. destruct entered as [e|]; [|done].
  destruct (bool_decide (min_value ≤ e)) eqn:He; [|done].
  apply bool_decide_eq_true in He. by destruct (_ && _).
Qed.

Ltac song_count_entry :=
  cbn [default from_option id];
  first [ apply song_count_absent; reflexivity
        | eapply song_count_bound; [reflexivity|];
          apply number_input_lower; lia ].

Ltac sending_song_counts :=
  repeat lazymatch goal with
    | |- sends _ (ret _) => apply sends_ret
    | |- sends _ (raise _) => apply sends_raise
    | |- sends _ (show _) => apply sends_show
    | |- sends _ (when _ _) => apply sends_when
    | |- sends _ (bind _ _) => apply sends_bind; [|intros ?]
    | |- sends _ (app_full_crud.fetch_df _ _ _) =>
        apply sends_crud_fetch_df;
        [intros ?; song_count_entry | song_count_entry]
    | |- sends _ (app_full_crud.mutate _ _ _) =>
        apply sends_mutate; [intros ?; song_count_entry | song_count_entry]
    | |- sends _ (app_full_crud.create_engine _ _ _ _ _) =>
        apply sends_create_engine
    | |- sends _ (app_full_crud.flash _ _) => apply sends_flash
    | |- sends _ (app_full_crud.remember _ _) => apply sends_remember
    | |- sends _ (if ?b then _ else _) => destruct b
    | |- sends _ (match ?x with _ => _ end) => destruct x
    end.

(** X20: whatever the visitor enters in a "Number of Songs" field, every
    statement a run of the CRUD front-end puts on the wire binds [:ns], if
    at all, to an integer that is not negative. *)
Theorem song_count_on_the_wire_is_not_negative
    (env : gmap string string) (v : app_full_crud.Visitor) (w : World) :
  Forall song_count_in_range
    (drop (length (wire w)) (wire (app_full_crud.main env v w).2)).
Proof.
  assert (sends song_count_in_range (app_full_crud.main env v)) as Hm.
  { unfold app_full_crud.main, app_full_crud.script, st_stop. cbv zeta.
    destruct (app_full_crud.act v);
      unfold app_full_crud.tab1, app_full_crud.tab2, app_full_crud.tab3,
        app_full_crud.tab4, app_full_crud.tab5,
        app_full_crud.fetch_users, app_full_crud.fetch_artists,
        app_full_crud.fetch_albums, app_full_crud.fetch_songs,
        app_full_crud.fetch_playlists,
        app_full_crud.insert_song, app_full_crud.update_song,
        app_full_crud.delete_song, app_full_crud.insert_artist,
        app_full_crud.update_artist, app_full_crud.delete_artist,
        app_full_crud.insert_user, app_full_crud.update_user,
        app_full_crud.delete_user, app_full_crud.insert_playlist,
        app_full_crud.update_playlist, app_full_crud.delete_playlist;
      cbv zeta; sending_song_counts. }
  destruct (Hm w) as (new & -> & Hnew). by rewrite drop_app_length.
Qed.

(** ** One connection, and what becomes of its directives *)

Lemma sql_text_is_no_directive PGUSER s : sql_text s ∉ directives PGUSER.
Proof.
  unfold directives. rewrite !not_elem_of_cons, elem_of_nil.
  destruct s; simpl; (split; [discriminate|split; [discriminate|tauto]]).
Qed.

Section pooling.
Context (w0 : World) (PGUSER : option string).
Hypothesis w0_up : outage (server w0) = None.
Let ok := fun e : string * params => e.1 ∉ directives PGUSER.
Let P0 := fun w : World =>
  server w = server w0 ∧ pool w = None ∧ wire w = wire w0.
Let I2 := fun w : World =>
  server w = server w0 ∧
  pool w = Some (mkSession [] [] None) ∧
  ∃ stmts, wire w = wire w0 ++ ((fun t => (t, ∅)) <$> directives PGUSER) ++
                    stmts ∧ Forall ok stmts.
Let Ex := fun _ : exn => True.

Lemma pooling_show_before e : holds P0 P0 I2 Ex (show e).
Proof. apply holds_quiet. intros w Hw. simpl. eauto. Qed.

Lemma pooling_show e : holds I2 I2 I2 Ex (show e).
Proof. apply holds_quiet. intros w Hw. simpl. eauto. Qed.

Lemma pooling_fetch_server sql ps w :
  (∀ fk ps sq db, (pg_exec fk sql ps sq db).1 = sq) →
  server w = server w0 →
  server (app.fetch_df PGUSER sql ps w).2 = server w0.
Proof.
  intros Hsq Hs.
  destruct (fetch_df_up PGUSER sql ps w) as (_ & Ht & Hq & Ho & Hfk & _);
    [by rewrite Hs|].
  rewrite Hsq in Hq. pose proof w0_up as Hup. rewrite <- Hs in Hup |- *.
  destruct (server w). apply same_server; simpl in *; congruence.
Qed.

(** The first query of the run opens the connection and sends the
    directives; the rollback that ends the read takes them back. *)
Lemma pooling_first_fetch sql ps :
  (∀ fk ps sq db, (pg_exec fk sql ps sq db).1 = sq) →
  holds P0 I2 I2 Ex (app.fetch_df PGUSER sql ps).
Proof.
  intros Hsq. apply holds_quiet. intros w (Hs & Hp & Hw).
  split; [|apply fetch_df_never_raises]. split; [by apply pooling_fetch_server|].
  destruct (fetch_df_up PGUSER sql ps w)
    as (_ & _ & _ & _ & _ & Hpool & Hwire & _); [by rewrite Hs|].
  unfold pooled, handshake in *. rewrite Hp in *. split; [done|].
  exists [(sql_text sql, default ∅ ps)]. rewrite Hwire, Hw.
  split; [done|]. apply Forall_singleton, sql_text_is_no_directive.
Qed.

(** Every later one travels over that connection as it is. *)
Lemma pooling_fetch sql ps :
  (∀ fk ps sq db, (pg_exec fk sql ps sq db).1 = sq) →
  holds I2 I2 I2 Ex (app.fetch_df PGUSER sql ps).
Proof.
  intros Hsq. apply holds_quiet. intros w (Hs & Hp & stmts & Hw & Hok).
  split; [|apply fetch_df_never_raises]. split; [by apply pooling_fetch_server|].
  destruct (fetch_df_up PGUSER sql ps w)
    as (_ & _ & _ & _ & _ & Hpool & Hwire & _); [by rewrite Hs|].
  unfold pooled, handshake in *. rewrite Hp in *. split; [done|].
  exists (stmts ++ [(sql_text sql, default ∅ ps)]).
  rewrite Hwire, Hw, <- !(assoc_L (++)). split; [done|].
  apply Forall_app. split; [done|].
  apply Forall_singleton, sql_text_is_no_directive.
Qed.
End pooling.

Ltac pooling_step Hup Hport :=
  lazymatch goal with
  | |- holds _ _ _ _ (ret _) => apply holds_ret
  | |- holds _ _ _ _ (app.make_url _ _ _ _ _ _) =>
      apply holds_quiet; intros ? ?; unfold app.make_url; rewrite Hport;
      eauto
  | |- holds _ _ _ _ (raise _) => by apply holds_raise
  | |- holds _ _ _ _ (show _) =>
      first [apply pooling_show | apply pooling_show_before]
  | |- holds _ _ _ _ (when _ _) => apply holds_when
  | |- holds _ _ _ _ (app.fetch_df _ _ _) =>
      first [ apply (pooling_fetch _ _ Hup); reflexivity
            | apply (pooling_first_fetch _ _ Hup); reflexivity ]
  | |- holds ?I ?R _ _ (bind _ _) =>
      first [ apply (holds_bind _ _ I I R);
              [solve [repeat pooling_step Hup Hport] | intros ?]
            | apply (holds_bind _ _ I R R); [|intros ?] ]
  | |- holds _ _ _ _ (if ?b then _ else _) => destruct b
  | |- holds _ _ _ _ (match ?x with _ => _ end) => destruct x
  end.

(** X14: the viewer sends its session directives once, and they do not
    last.  In a run that starts with an empty pool and a reachable store,
    the two directives go over the wire first and once; every statement
    after them travels over the same connection, and none of them is a
    directive.  But the listener issues them inside the transaction of the
    first query, which the end of that read rolls back: the run leaves the
    connection in the pool with no open transaction and with neither
    directive in force, so the statement timeout and the search path hold
    for the first query at most. *)
Theorem viewer_directives_go_out_once_and_do_not_last
    (env : gmap string string) (v : app.Visitor) (w : World) p :
  outage (server w) = None →
  pool w = None →
  truthy (getenv env "PGDATABASE") = true →
  truthy (getenv env "PGUSER") = true →
  truthy (getenv env "PGPASSWORD") = true →
  py_int (getenv_default env "PGPORT" "5432") = Ok p →
  let PGUSER := getenv env "PGUSER" in
  let out := app.main env v w in
  (∃ ss, pool out.2 = Some ss ∧ in_force ss = [] ∧ transaction ss = None) ∧
  ∃ stmts,
    wire out.2 =
      wire w ++ ((fun t => (t, ∅)) <$> directives PGUSER) ++ stmts ∧
    Forall (fun e => e.1 ∉ directives PGUSER) stmts.
Proof.
  intros Hup Hpool Hdb Huser Hpw Hport PGUSER out. subst out.
  set (P0 := fun w' : World =>
               server w' = server w ∧ pool w' = None ∧ wire w' = wire w).
  set (I2 := fun w' : World =>
               server w' = server w ∧
               pool w' = Some (mkSession [] [] None) ∧
               ∃ stmts, wire w' = wire w ++
                                  ((fun t => (t, ∅)) <$> directives PGUSER) ++
                                  stmts ∧
                        Forall (fun e : string * params =>
                                  e.1 ∉ directives PGUSER) stmts).
  assert (holds P0 I2 I2 (fun _ => True) (app.main env v)) as Hrun.
  { unfold app.main, app.script, app.get_engine, all.
    cbn [forallb]. rewrite Hdb, Huser, Hpw. cbn [id andb negb].
    unfold app.tab1, app.tab2, app.tab3, app.tab4, app.tab5, app.tab6,
      app.visualizations. cbv zeta.
    destruct (app.view_choice v).
    all: repeat pooling_step Hup Hport. }
  specialize (Hrun w (conj eq_refl (conj Hpool eq_refl))).
  assert (I2 (app.main env v w).2) as (_ & Hp & stmts & Hw & Hok)
    by (destruct (app.main env v w).1; apply Hrun).
  split; [by eexists|]. by exists stmts.
Qed.

Lemma viewer_directives_go_out_once_and_do_not_last_witness :
  let v := app.mkVisitor true None 0%nat app.User_Likes in
  outage (server sample_world) = None ∧
  pool sample_world = None ∧
  truthy (getenv sample_env "PGDATABASE") = true ∧
  truthy (getenv sample_env "PGUSER") = true ∧
  truthy (getenv sample_env "PGPASSWORD") = true ∧
  py_int (getenv_default sample_env "PGPORT" "5432") = Ok 5432 ∧
  (∃ ss, pool (app.main sample_env v sample_world).2 = Some ss ∧
         in_force ss = [] ∧ transaction ss = None) ∧
  take 2 (wire (app.main sample_env v sample_world).2) =
    [("SET statement_timeout TO 8000", ∅);
     ("SET search_path TO hawk, public", ∅)].
Proof.
  intros v. do 6 (split; [reflexivity|]).
  destruct (viewer_directives_go_out_once_and_do_not_last sample_env v
              sample_world 5432 eq_refl eq_refl eq_refl eq_refl eq_refl
              eq_refl) as [Hpool (stmts & Hwire & _)].
  split; [exact Hpool|]. rewrite Hwire. reflexivity.
Defined.

(** ** A run of the viewer ends normally *)

Lemma selectbox_elem {A} (options : list A) picked x :
  selectbox options picked = Some x → x ∈ options.
Proof.
  unfold selectbox. destruct (options !! picked) as [y|] eqn:Hy.
  - intros [= <-]. by eapply list_elem_of_lookup_2.
  - destruct options; [done|]. intros [= <-]. apply list_elem_of_here.
Qed.

Lemma selectbox_some {A} (options : list A) picked :
  options ≠ [] → is_Some (selectbox options picked).
Proof.
  intros Hne. unfold selectbox. destruct (options !! picked); [eauto|].
  destruct options; [done|]. simpl. eauto.
Qed.

(** What the playlist picker gets to choose from: nothing, or a column of
    integers. *)
Lemma picker_frame PGUSER w :
  ∃ df, (app.fetch_df PGUSER V_playlist_picker None w).1 = Ok df ∧
        (df_empty df = false →
         df_column "playlistid" df ≠ [] ∧
         ∀ v, v ∈ df_column "playlistid" df → ∃ id, v = VInt id).
Proof.
  destruct (outage (server w)) as [msg|] eqn:Hout.
  - exists empty_frame.
    by destruct (fetch_df_down PGUSER V_playlist_picker None w msg Hout)
      as (-> & _).
  - destruct (fetch_df_up PGUSER V_playlist_picker None w Hout) as [[Hf _] _].
    unfold pg_exec, pg_select in Hf. cbn [on_ok snd] in Hf.
    eexists. split; [exact Hf|]. column "playlistid".
    destruct (order_by (asc playlistID) (Playlist_table (tables (server w))))
      as [|p l]; [done|].
    intros _. split; [done|]. intros v Hv.
    apply list_elem_of_fmap in Hv as (q & -> & _). simpl. eauto.
Qed.

(** A step that ends normally, with a result in [Rv]. *)
Lemma holds_bind_result {A B} (I R J : World → Prop) Ex (Rv : A → Prop)
    (m : Py A) (k : A → Py B) :
  (∀ w, I w → ∃ a, (m w).1 = Ok a ∧ Rv a ∧ I (m w).2) →
  (∀ a, Rv a → holds I R J Ex (k a)) →
  holds I R J Ex (bind m k).
Proof.
  intros Hm Hk w Hw. unfold bind. destruct (Hm w Hw) as (a & Ha & Hr & HI).
  destruct (m w) as [o w1]. simpl in *. subst o. by apply Hk.
Qed.

Ltac completing_step Hport :=
  lazymatch goal with
  | |- holds _ _ _ _ (ret _) => apply holds_ret
  | |- holds _ _ _ _ (show _) => by apply holds_quiet; eauto
  | |- holds _ _ _ _ (when _ _) => apply holds_when
  | |- holds _ _ _ _ (app.fetch_df _ _ _) =>
      apply holds_quiet; intros ? _; split; [done|];
      apply fetch_df_never_raises
  | |- holds _ _ _ _ (app.make_url _ _ _ _ _ _) =>
      apply holds_quiet; intros ? _; unfold app.make_url; rewrite Hport;
      split; [exact Logic.I|by eexists]
  | |- holds _ _ _ _ (bind (app.fetch_df _ V_playlist_picker _) _) => fail
  | |- holds ?I _ _ _ (bind _ _) => apply (holds_bind _ _ I I I); [|intros ?]
  | |- holds _ _ _ _ (if ?b then _ else _) => destruct b
  end.

(** X21: a run of the viewer ends normally.  With credentials set and a
    numeric port, whatever the store holds or answers and whatever the
    visitor chooses, no step of the script raises: every failed query comes
    back as an empty frame, every use of a frame is behind its emptiness
    test, and the [int()] on the picked playlist is applied to an id the
    store itself listed.  Drawing a widget is taken not to fail. *)
Theorem viewer_run_ends_normally
    (env : gmap string string) (v : app.Visitor) (w : World) p :
  truthy (getenv env "PGDATABASE") = true →
  truthy (getenv env "PGUSER") = true →
  truthy (getenv env "PGPASSWORD") = true →
  py_int (getenv_default env "PGPORT" "5432") = Ok p →
  (app.main env v w).1 = Ok tt.
Proof.
  intros Hdb Huser Hpw Hport.
  set (T := fun _ : World => True).
  assert (holds T T T (fun _ => False) (app.main env v)) as Hrun.
  { unfold app.main, app.script, app.get_engine, all.
    cbn [forallb]. rewrite Hdb, Huser, Hpw. cbn [id andb negb].
    unfold app.tab1, app.tab2, app.tab3, app.tab4, app.tab6,
      app.visualizations. cbv zeta.
    assert (holds T T T (fun _ => False)
              (app.tab5 (getenv env "PGUSER")
                 (number_input 1 (Some 2000) 200 (app.row_limit_entered v))
                 (app.playlist_picked v))) as Htab5.
    { unfold app.tab5. repeat completing_step Hport.
      eapply (holds_bind_result _ _ _ _
                (fun df => df_empty df = false →
                           df_column "playlistid" df ≠ [] ∧
                           ∀ v, v ∈ df_column "playlistid" df →
                                ∃ id, v = VInt id)).
      - intros w' _. destruct (picker_frame (getenv env "PGUSER") w')
          as (df & Hdf & Hcol). by exists df.
      - intros df Hcol. destruct (df_empty df); [apply holds_ret|].
        destruct (Hcol eq_refl) as [Hne Hint].
        destruct (selectbox_some _ (app.playlist_picked v) Hne) as [x Hx].
        rewrite Hx. apply selectbox_elem, Hint in Hx as [id ->].
        cbv iota. repeat completing_step Hport. }
    destruct (app.view_choice v);
      repeat first [exact Htab5 | completing_step Hport]. }
  specialize (Hrun w Logic.I).
  destruct (app.main env v w).1 as [[]|e]; [done|]. by destruct Hrun.
Qed.

Lemma viewer_run_ends_normally_witness :
  let v := app.mkVisitor true None 0%nat app.User_Likes in
  truthy (getenv sample_env "PGDATABASE") = true ∧
  truthy (getenv sample_env "PGUSER") = true ∧
  truthy (getenv sample_env "PGPASSWORD") = true ∧
  py_int (getenv_default sample_env "PGPORT" "5432") = Ok 5432 ∧
  (app.main sample_env v sample_world).1 = Ok tt.
Proof.
  intros v. do 4 (split; [reflexivity|]).
  exact (viewer_run_ends_normally sample_env v sample_world 5432
           eq_refl eq_refl eq_refl eq_refl).
Defined.

(** ** The keys stay values of the sequences through a run *)

Section keeping.
Context (e : entity).
Let K := fun w : World => keys_from_sequence e (server w).
Let Ex := fun _ : exn => True.

(** A step that leaves the store as it is. *)
Lemma keeping_same_server {A} (m : Py A) :
  (∀ s0, holds (fun w => server w = s0) (fun w => server w = s0)
           (fun w => server w = s0) Ex m) →
  holds K K K Ex m.
Proof.
  intros Hm w Hw. specialize (Hm (server w) w eq_refl). unfold K.
  destruct (m w).1; [by rewrite Hm|]. destruct Hm as [-> _]. done.
Qed.

Lemma keeping_remember key rec :
  holds K K K Ex (app_full_crud.remember key rec).
Proof.
  intros w Hw. unfold app_full_crud.remember.
  destruct rec as [r|]; [|done].
  by destruct (app_full_crud.rec_truthy (Some r)).
Qed.

Lemma keeping_call PGUSER m : holds K K K Ex (call PGUSER m).
Proof.
  intros w Hw.
  pose proof (mutations_keep_keys_from_sequence PGUSER m w e Hw) as Hkept.
  by destruct (call PGUSER m w).1.
Qed.
End keeping.

Ltac keeping_step :=
  lazymatch goal with
  | |- holds _ _ _ _ (show _) =>
      apply keeping_same_server; intros ?; by apply reading_show
  | |- holds _ _ _ _ (raise _) => by apply holds_raise
  | |- holds _ _ _ _ (app_full_crud.fetch_df _ _ _) =>
      apply keeping_same_server; intros ?;
      apply reading_crud_fetch_df; reflexivity
  | |- holds _ _ _ _ (app_full_crud.create_engine _ _ _ _ _) =>
      apply keeping_same_server; intros ?; by apply reading_create_engine
  | |- holds _ _ _ _ (app_full_crud.flash _ _) =>
      apply keeping_same_server; intros ?; by apply reading_flash
  | |- holds _ _ _ _ (app_full_crud.remember _ _) => apply keeping_remember
  | |- holds _ _ _ _ (app_full_crud.insert_user ?u ?n) =>
      apply (keeping_call _ u (insert_user_ n))
  | |- holds _ _ _ _ (app_full_crud.update_user ?u ?i ?n) =>
      apply (keeping_call _ u (update_user_ i n))
  | |- holds _ _ _ _ (app_full_crud.delete_user ?u ?i) =>
      apply (keeping_call _ u (delete_user_ i))
  | |- holds _ _ _ _ (app_full_crud.insert_artist ?u ?n ?l) =>
      apply (keeping_call _ u (insert_artist_ n l))
  | |- holds _ _ _ _ (app_full_crud.update_artist ?u ?i ?n ?l) =>
      apply (keeping_call _ u (update_artist_ i n l))
  | |- holds _ _ _ _ (app_full_crud.delete_artist ?u ?i) =>
      apply (keeping_call _ u (delete_artist_ i))
  | |- holds _ _ _ _ (app_full_crud.insert_song ?u ?n ?d) =>
      apply (keeping_call _ u (insert_song_ n d))
  | |- holds _ _ _ _ (app_full_crud.update_song ?u ?i ?n ?d) =>
      apply (keeping_call _ u (update_song_ i n d))
  | |- holds _ _ _ _ (app_full_crud.delete_song ?u ?i) =>
      apply (keeping_call _ u (delete_song_ i))
  | |- holds _ _ _ _ (app_full_crud.insert_playlist ?u ?n ?k) =>
      apply (keeping_call _ u (insert_playlist_ n k))
  | |- holds _ _ _ _ (app_full_crud.update_playlist ?u ?i ?n ?k) =>
      apply (keeping_call _ u (update_playlist_ i n k))
  | |- holds _ _ _ _ (app_full_crud.delete_playlist ?u ?i) =>
      apply (keeping_call _ u (delete_playlist_ i))
  | |- _ => holding_step
  end.

(** Whatever the visitor does in a run of the CRUD front-end and however
    the run ends, the keys of every table are values of its sequence
    afterwards if they were before: the condition under which an insert
    is sure to return is one the application itself never breaks. *)
Lemma crud_run_keeps_keys_from_sequence
    (env : gmap string string) (v : app_full_crud.Visitor) (w : World) e :
  keys_from_sequence e (server w) →
  keys_from_sequence e (server (app_full_crud.main env v w).2).
Proof.
  intros Hw.
  assert (holds (fun w' => keys_from_sequence e (server w'))
            (fun w' => keys_from_sequence e (server w'))
            (fun w' => keys_from_sequence e (server w'))
            (fun _ => True) (app_full_crud.main env v)) as Hrun.
  { unfold app_full_crud.main, app_full_crud.script, st_stop. cbv zeta.
    destruct (app_full_crud.act v);
      unfold app_full_crud.tab1, app_full_crud.tab2, app_full_crud.tab3,
        app_full_crud.tab4, app_full_crud.tab5,
        app_full_crud.fetch_users, app_full_crud.fetch_artists,
        app_full_crud.fetch_albums, app_full_crud.fetch_songs,
        app_full_crud.fetch_playlists;
      cbv zeta; repeat keeping_step. }
  specialize (Hrun w Hw).
  destruct (app_full_crud.main env v w).1; [done|apply Hrun].
Qed.
